(** * The in-memory search engine of the fashion catalogue (script.js)

    A shallow embedding of the text-search methods of [class FashionCatalogue]:
    [normalizeText], [tokenize], [buildSearchIndex], [calculateRelevanceScore],
    [fuzzyMatch], [levenshteinDistance], [performAdvancedSearch] and
    [generateSearchSuggestions], followed by the properties proved about them.

    Conventions of the model.
    - A JavaScript string is the list of its UTF-16 code units.
    - [null] / [undefined] are [None]; a lookup that would yield [undefined]
      returns [None], and a computation that would dereference it is [None].
    - A JavaScript number is the rational that it holds ([Q]); equality of
      numbers is [Qeq].  The bonuses of the scorer (3, 2, 1, 0.5) and their
      sums are binary fractions that a binary64 number holds exactly, so they
      are added as rationals.  The quotient
      [matchedTerms / searchTokens.length], its double and the sum of the
      score with it are rounded to binary64 ([binary64]), as the engine
      does.  In [fuzzyMatch] the quotient [distance / maxLength] is taken
      exactly.  Counters, lengths and the cells of the edit-distance matrix
      are natural numbers.
    - [Array.prototype.sort] is the stable sort of ECMAScript 2019.

    The definitions come first, in the order of the source; the notions used
    only to state properties follow them; the properties are last. *)

From Stdlib Require Import List Bool Arith NArith ZArith QArith Lia Lqa.
From Stdlib Require Import Qround Qpower.
From Stdlib Require Import String Ascii Permutation Sorted.
Import ListNotations.
Close Scope Q_scope.

Set Implicit Arguments.

(* ------------------------------------------------------------------ *)
(** ** Strings *)

Module JsString.

Definition code_unit := N.
Definition t := list code_unit.

(** A string literal of the source, as code units (ASCII literals only). *)
Definition lit (s : string) : t := List.map N_of_ascii (list_ascii_of_string s).

Definition eqb (a b : t) : bool :=
  if list_eq_dec N.eq_dec a b then true else false.

(** The class [\w] of a regular expression without flags: [A-Za-z0-9_]. *)
Definition is_word (c : code_unit) : bool :=
  ((65 <=? c) && (c <=? 90) || (97 <=? c) && (c <=? 122)
   || (48 <=? c) && (c <=? 57) || (c =? 95))%N.

(** The class [\s], which is also what [trim] strips: TAB, LF, VT, FF, CR,
    SPACE, U+00A0, U+1680, U+2000..U+200A, U+2028, U+2029, U+202F, U+205F,
    U+3000 and U+FEFF. *)
Definition is_space (c : code_unit) : bool :=
  ((9 <=? c) && (c <=? 13) || (c =? 32) || (c =? 160) || (c =? 5760)
   || (8192 <=? c) && (c <=? 8202) || (c =? 8232) || (c =? 8233)
   || (c =? 8239) || (c =? 8287) || (c =? 12288) || (c =? 65279))%N.

Definition SPACE : code_unit := 32%N.

(** [String.prototype.toLowerCase], one code unit at a time.  [A-Z] go to
    [a-z]; U+212A KELVIN SIGN goes to [k]; U+0130 goes to [i] followed by
    U+0307.  These are the code units whose lower case contains a [\w]
    code unit.  Every other code unit is left as it is: whatever its lower
    case is, it is neither [\w] nor [\s] unless the unit itself is [\s]
    (which has no case), so the first [replace] of [normalizeText] turns it
    into spaces, and the later [replace(/\s+/g, ' ')] makes their number
    irrelevant. *)
Definition lower_unit (c : code_unit) : t :=
  if ((65 <=? c) && (c <=? 90))%N then [(c + 32)%N]
  else if (c =? 8490)%N then [107%N]
  else if (c =? 304)%N then [105%N; 775%N]
  else [c].

Definition toLowerCase (s : t) : t := flat_map lower_unit s.

(** [s.replace(/[^\w\s]/g, ' ')] *)
Definition replace_non_word_non_space (s : t) : t :=
  List.map (fun c => if negb (is_word c || is_space c) then SPACE else c) s.

(** [s.replace(/[-_]/g, ' ')] *)
Definition replace_hyphen_underscore (s : t) : t :=
  List.map (fun c => if ((c =? 45) || (c =? 95))%N then SPACE else c) s.

(** [s.replace(/\s+/g, ' ')]: every maximal run of [\s] becomes one space
    (emitted when the last code unit of the run is reached). *)
Fixpoint replace_space_runs (s : t) : t :=
  match s with
  | [] => []
  | c :: rest =>
      if is_space c then
        match rest with
        | c' :: _ => if is_space c' then replace_space_runs rest
                     else SPACE :: replace_space_runs rest
        | [] => [SPACE]
        end
      else c :: replace_space_runs rest
  end.

Fixpoint trimStart (s : t) : t :=
  match s with
  | [] => []
  | c :: rest => if is_space c then trimStart rest else s
  end.

Fixpoint trimEnd (s : t) : t :=
  match s with
  | [] => []
  | c :: rest =>
      match trimEnd rest with
      | [] => if is_space c then [] else [c]
      | r => c :: r
      end
  end.

(** [s.trim()] *)
Definition trim (s : t) : t := trimEnd (trimStart s).

Fixpoint startsWith (s search : t) : bool :=
  match search, s with
  | [], _ => true
  | _ :: _, [] => false
  | a :: search', b :: s' => (a =? b)%N && startsWith s' search'
  end.

(** [s.includes(search)]: [search] occurs in [s] as a contiguous run. *)
Fixpoint includes (s search : t) : bool :=
  startsWith s search ||
  match s with
  | [] => false
  | _ :: s' => includes s' search
  end.

(** [s.split(sep)] for a separator of one code unit. *)
Fixpoint split (sep : code_unit) (s : t) : list t :=
  match s with
  | [] => [[]]
  | c :: rest =>
      if (c =? sep)%N then [] :: split sep rest
      else match split sep rest with
           | w :: ws => (c :: w) :: ws
           | [] => [[c]]
           end
  end.

(** [s.charAt(i)]: the string of the code unit at [i], empty out of range. *)
Definition charAt (s : t) (i : nat) : t :=
  match nth_error s i with
  | Some c => [c]
  | None => []
  end.

End JsString.

Definition jsstring : Type := JsString.t.

(** [a.includes(x)] on an array of strings. *)
Definition Array_includes (a : list jsstring) (x : jsstring) : bool :=
  existsb (JsString.eqb x) a.

(** A value used as a condition: [null], [undefined] and [''] are falsy. *)
Definition truthy (text : option jsstring) : option jsstring :=
  match text with
  | Some (_ :: _) => text
  | _ => None
  end.

(** [text || ''] *)
Definition or_empty (text : option jsstring) : jsstring :=
  match truthy text with
  | Some s => s
  | None => []
  end.

(* ------------------------------------------------------------------ *)
(** ** Tokenizer / normalizer *)

Definition stopWords : list jsstring :=
  List.map JsString.lit
    ["the"; "a"; "an"; "and"; "or"; "but"; "in"; "on"; "at"; "to"; "for";
     "of"; "with"; "by"; "is"; "are"; "was"; "were"; "be"; "been"; "have";
     "has"; "had"; "do"; "does"; "did"; "will"; "would"; "could";
     "should"]%string.

Definition normalizeText (text : option jsstring) : jsstring :=
  match truthy text with
  | None => []
  | Some text =>
      JsString.trim
        (JsString.replace_space_runs
           (JsString.replace_hyphen_underscore
              (JsString.replace_non_word_non_space
                 (JsString.toLowerCase text))))
  end.

Definition tokenize (text : option jsstring) : list jsstring :=
  match truthy text with
  | None => []
  | Some _ =>
      filter (fun token => negb (Array_includes stopWords token))
        (filter (fun token => 1 <? List.length token)
           (JsString.split JsString.SPACE (normalizeText text)))
  end.

(* ------------------------------------------------------------------ *)
(** ** Control: failure and loops *)

(** Sequencing of computations that may stop ([None]). *)
Notation "x <- e ;; k" :=
  (match e with Some x => k | None => None end)
  (at level 61, e at next level, right associativity, only parsing).

(** [for (let i = first; i < first + count; i++) body] over a state. *)
Fixpoint for_loop {S : Type} (first count : nat)
         (body : nat -> S -> option S) (s : S) : option S :=
  match count with
  | 0 => Some s
  | Datatypes.S count' => s' <- body first s ;; for_loop (Datatypes.S first) count' body s'
  end.

(** [a.forEach((x, index) => body)] over a state, [index] counted from
    [first]. *)
Fixpoint forEach_indexed {A S : Type} (body : A -> nat -> S -> option S)
         (a : list A) (first : nat) (s : S) : option S :=
  match a with
  | [] => Some s
  | x :: a' => s' <- body x first s ;; forEach_indexed body a' (Datatypes.S first) s'
  end.

(** [a.forEach(x => body)] over a state, for a body that cannot stop. *)
Definition forEach {A S : Type} (body : S -> A -> S) (a : list A) (s : S) : S :=
  fold_left body a s.

(** [a[i] = v]: overwrite inside the array, push at its end; an assignment
    further out, which would leave holes, stops the model. *)
Definition array_set {A : Type} (a : list A) (i : nat) (v : A) : option (list A) :=
  if i <? List.length a then Some (firstn i a ++ v :: skipn (Datatypes.S i) a)
  else if i =? List.length a then Some (a ++ [v])
  else None.

(* ------------------------------------------------------------------ *)
(** ** Numbers *)

(** [2 ** k] for an integer [k]. *)
Definition pow2 (k : Z) : Q := (2 ^ k)%Q.

(** The integer nearest to a rational; one half way between two integers
    goes to the even one. *)
Definition round_half_even (q : Q) : Z :=
  let f := Qfloor q in
  match (q - inject_Z f ?= 1 # 2)%Q with
  | Lt => f
  | Gt => (f + 1)%Z
  | Eq => if Z.even f then f else (f + 1)%Z
  end.

(** The integer [k] with [2 ** k <= x < 2 ** (k + 1)], for [x > 0]. *)
Definition binade (x : Q) : Z :=
  let l := (Z.log2 (Qnum x) - Z.log2 (Z.pos (Qden x)))%Z in
  if Qle_bool (pow2 l) x then l else (l - 1)%Z.

(** The number that an arithmetic operation returns when its exact result
    is [x]: the nearest binary64 number, which has a significand of 53
    bits, ties going to the even significand (IEEE 754 round to nearest,
    ties to even).  The exponent range is not modelled: results below
    [2 ** -1022] or from [2 ** 1024] on are out of reach of the quantities
    formed here from the lengths of arrays. *)
Definition binary64 (x : Q) : Q :=
  match (x ?= 0)%Q with
  | Eq => 0%Q
  | Gt =>
      let ulp := pow2 (binade x - 52) in
      (inject_Z (round_half_even (x / ulp)) * ulp)%Q
  | Lt =>
      let ulp := pow2 (binade (- x) - 52) in
      (- (inject_Z (round_half_even (- x / ulp)) * ulp))%Q
  end.

(* ------------------------------------------------------------------ *)
(** ** Fuzzy matcher *)

Definition Matrix : Type := list (list nat).

(** [matrix[i][j]].  The model stops where the row or the cell is missing
    (the source would go on with [undefined]); [levenshteinDistance] never
    gets there, as [levenshteinDistance_cell] shows. *)
Definition matrix_get (matrix : Matrix) (i j : nat) : option nat :=
  row <- nth_error matrix i ;; nth_error row j.

(** [matrix[i][j] = v] *)
Definition matrix_set (matrix : Matrix) (i j v : nat) : option Matrix :=
  row <- nth_error matrix i ;;
  row' <- array_set row j v ;;
  array_set matrix i row'.

Definition levenshteinDistance (str1 str2 : jsstring) : option nat :=
  let matrix : Matrix := [] in
  matrix <- for_loop 0 (List.length str2 + 1)
              (fun i matrix => array_set matrix i [i]) matrix ;;
  matrix <- for_loop 0 (List.length str1 + 1)
              (fun j matrix => matrix_set matrix 0 j j) matrix ;;
  matrix <- for_loop 1 (List.length str2)
              (fun i matrix =>
                 for_loop 1 (List.length str1)
                   (fun j matrix =>
                      if JsString.eqb (JsString.charAt str2 (i - 1))
                                      (JsString.charAt str1 (j - 1))
                      then
                        diag <- matrix_get matrix (i - 1) (j - 1) ;;
                        matrix_set matrix i j diag
                      else
                        substitution <- matrix_get matrix (i - 1) (j - 1) ;;
                        insertion <- matrix_get matrix i (j - 1) ;;
                        deletion <- matrix_get matrix (i - 1) j ;;
                        matrix_set matrix i j
                          (Nat.min (substitution + 1)
                             (Nat.min (insertion + 1) (deletion + 1))))
                   matrix)
              matrix ;;
  matrix_get matrix (List.length str2) (List.length str1).

Definition Q_of_nat (n : nat) : Q := inject_Z (Z.of_nat n).

(** The default [threshold = 0.8]. *)
Definition default_threshold : Q := 8 # 10.

Definition fuzzyMatch (term1 term2 : jsstring) (threshold : Q) : bool :=
  if JsString.eqb term1 term2 then true
  else if (List.length term1 <? 3) || (List.length term2 <? 3) then false
  else if JsString.includes term1 term2 || JsString.includes term2 term1 then true
  else
    match levenshteinDistance term1 term2 with
    | Some distance =>
        let maxLength := Nat.max (List.length term1) (List.length term2) in
        let similarity := (1 - Q_of_nat distance / Q_of_nat maxLength)%Q in
        Qle_bool threshold similarity
    | None => false
    end.

(* ------------------------------------------------------------------ *)
(** ** Products and the search index *)

(** The fields of a product record of [data/products.json] that the search
    engine reads.  Any of them may be absent. *)
Module Product.
Record OriginalData : Type :=
  { title : option jsstring; description : option jsstring }.
Record t : Type :=
  { original_data : option OriginalData; confidence_score : option Q }.
End Product.

(** [product.original_data?.title] and [product.original_data?.description] *)
Definition title_of (product : Product.t) : option jsstring :=
  match Product.original_data product with
  | Some d => Product.title d
  | None => None
  end.

Definition description_of (product : Product.t) : option jsstring :=
  match Product.original_data product with
  | Some d => Product.description d
  | None => None
  end.

Module IndexEntry.
Record t : Type :=
  { productIndex : nat;
    titleTokens : list jsstring;
    descriptionTokens : list jsstring;
    normalizedTitle : jsstring;
    normalizedDescription : jsstring;
    allTokens : list jsstring }.
End IndexEntry.

(** The two fields of [this] that the search engine uses. *)
Record FashionCatalogue : Type :=
  { allProducts : list Product.t; searchIndex : list IndexEntry.t }.

(** [a.map((x, index) => f(x, index))], [index] counted from [first]. *)
Fixpoint map_indexed {A B : Type} (f : A -> nat -> B) (a : list A) (first : nat) : list B :=
  match a with
  | [] => []
  | x :: a' => f x first :: map_indexed f a' (S first)
  end.

(** The object that the arrow function of [buildSearchIndex] returns. *)
Definition indexEntry (product : Product.t) (index : nat) : IndexEntry.t :=
  {| IndexEntry.productIndex := index;
     IndexEntry.titleTokens := tokenize (title_of product);
     IndexEntry.descriptionTokens := tokenize (description_of product);
     IndexEntry.normalizedTitle := normalizeText (title_of product);
     IndexEntry.normalizedDescription := normalizeText (description_of product);
     IndexEntry.allTokens :=
       tokenize (Some (or_empty (title_of product)))
       ++ tokenize (Some (or_empty (description_of product))) |}.

Definition buildSearchIndex (this : FashionCatalogue) : FashionCatalogue :=
  {| allProducts := allProducts this;
     searchIndex := map_indexed indexEntry (allProducts this) 0 |}.

(** The state that [preprocessData] leaves: the index was built from the
    products now loaded. *)
Definition indexed (this : FashionCatalogue) : Prop :=
  searchIndex this = searchIndex (buildSearchIndex this).

(* ------------------------------------------------------------------ *)
(** ** Relevance scorer *)

Module Relevance.
Record t : Type :=
  { score : Q; matchedTerms : nat; totalTerms : nat; coverage : Q }.
End Relevance.

(** [if (cond) { termScore += bonus; termMatched = true; }] on the pair
    [(termScore, termMatched)]. *)
Definition award (cond : bool) (bonus : Q) (term : Q * bool) : Q * bool :=
  if cond then ((fst term + bonus)%Q, true) else term.

(** The body of [searchTokens.forEach] up to its last [if]: the values of
    [termScore] and [termMatched] for one search token. *)
Definition termContribution (product : IndexEntry.t) (searchToken : jsstring) : Q * bool :=
  let term := (0%Q, false) in
  (* Exact title matches (highest weight) *)
  let term := award (Array_includes (IndexEntry.titleTokens product) searchToken) 3 term in
  (* Fuzzy title matches *)
  let term :=
    forEach (fun term titleToken =>
               award (fuzzyMatch searchToken titleToken default_threshold) 2 term)
            (IndexEntry.titleTokens product) term in
  (* Exact description matches *)
  let term := award (Array_includes (IndexEntry.descriptionTokens product) searchToken) 1 term in
  (* Fuzzy description matches *)
  let term :=
    forEach (fun term descToken =>
               award (fuzzyMatch searchToken descToken default_threshold) (1 # 2) term)
            (IndexEntry.descriptionTokens product) term in
  (* Phrase matching bonus *)
  let term := award (JsString.includes (IndexEntry.normalizedTitle product) searchToken) 1 term in
  let term := award (JsString.includes (IndexEntry.normalizedDescription product) searchToken) (1 # 2) term in
  term.

(** [searchTokens.forEach(...)] on the pair [(score, matchedTerms)]. *)
Definition scoreTerms (product : IndexEntry.t) (searchTokens : list jsstring) : Q * nat :=
  forEach (fun '(score, matchedTerms) searchToken =>
             let '(termScore, termMatched) := termContribution product searchToken in
             if termMatched then ((score + termScore)%Q, matchedTerms + 1)
             else (score, matchedTerms))
          searchTokens (0%Q, 0).

(** The body of [calculateRelevanceScore] once [product] is bound.  The
    quotient, the product and the sum of its last lines are rounded as the
    engine rounds them.  The callers pass at least one search token; for
    none the source divides 0 by 0, which the quotient of the model does not
    show. *)
Definition relevanceOf (product : IndexEntry.t) (searchTokens : list jsstring)
  : Relevance.t :=
  let '(score, matchedTerms) := scoreTerms product searchTokens in
  (* Coverage bonus: reward products that match more search terms *)
  let coverageBonus :=
    binary64
      (binary64 (Q_of_nat matchedTerms / Q_of_nat (List.length searchTokens)) * 2)%Q in
  let score := binary64 (score + coverageBonus)%Q in
  {| Relevance.score := score;
     Relevance.matchedTerms := matchedTerms;
     Relevance.totalTerms := List.length searchTokens;
     Relevance.coverage :=
       binary64 (Q_of_nat matchedTerms / Q_of_nat (List.length searchTokens))%Q |}.

(** It stops where the source would read [titleTokens] of [undefined]. *)
Definition calculateRelevanceScore (this : FashionCatalogue)
           (searchTokens : list jsstring) (productIndex : nat) : option Relevance.t :=
  product <- nth_error (searchIndex this) productIndex ;;
  Some (relevanceOf product searchTokens).

(* ------------------------------------------------------------------ *)
(** ** Search orchestrator *)

(** An object pushed on [results]. *)
Module SearchResult.
Record t : Type :=
  { product : option Product.t; score : Q; matchedTerms : nat; coverage : Q }.
End SearchResult.

(** The two shapes of object that [performAdvancedSearch] returns:
    [{ product, score }] and [{ product, score, matchedTerms, coverage }]. *)
Inductive ResultObject : Type :=
| Unranked (product : option Product.t) (score : Q)
| Ranked (result : SearchResult.t).

Definition result_product (r : ResultObject) : option Product.t :=
  match r with
  | Unranked product _ => product
  | Ranked result => SearchResult.product result
  end.

Definition result_score (r : ResultObject) : Q :=
  match r with
  | Unranked _ score => score
  | Ranked result => SearchResult.score result
  end.

(** [x || 0] on a number that may be absent. *)
Definition or_zero (x : option Q) : Q :=
  match x with
  | Some v => v
  | None => 0%Q
  end.

(** The comparison function given to [results.sort].  It stops where the
    source would read [confidence_score] of an [undefined] product.  The
    differences are not rounded: the sort uses their sign, which is the sign
    of the rounded difference. *)
Definition compareResults (a b : SearchResult.t) : option Q :=
  if negb (Qeq_bool (SearchResult.score b) (SearchResult.score a))
  then Some (SearchResult.score b - SearchResult.score a)%Q
  else if negb (Qeq_bool (SearchResult.coverage b) (SearchResult.coverage a))
  then Some (SearchResult.coverage b - SearchResult.coverage a)%Q
  else
    pb <- SearchResult.product b ;;
    pa <- SearchResult.product a ;;
    Some (or_zero (Product.confidence_score pb) - or_zero (Product.confidence_score pa))%Q.

(** [Array.prototype.sort(comparefn)] as ECMAScript 2019 and later specify it
    for a consistent comparison function: the elements are put in an order
    where [comparefn(a, b) > 0] never holds for [a] before [b], and elements
    that compare equal keep their order.  Modelled as an insertion sort; the
    comparisons an engine really makes are its own choice. *)
Fixpoint sort_insert {A : Type} (comparefn : A -> A -> option Q) (x : A) (sorted : list A)
  : option (list A) :=
  match sorted with
  | [] => Some [x]
  | y :: sorted' =>
      v <- comparefn x y ;;
      if Qlt_le_dec 0 v then
        rest <- sort_insert comparefn x sorted' ;; Some (y :: rest)
      else Some (x :: sorted)
  end.

Fixpoint Array_sort {A : Type} (comparefn : A -> A -> option Q) (a : list A)
  : option (list A) :=
  match a with
  | [] => Some []
  | x :: a' => sorted <- Array_sort comparefn a' ;; sort_insert comparefn x sorted
  end.

(** [this.allProducts.map((_, index) => ({ product: this.allProducts[index], score: 0 }))] *)
Definition allProductsUnranked (this : FashionCatalogue) : list ResultObject :=
  map_indexed (fun _ index => Unranked (nth_error (allProducts this) index) 0)
              (allProducts this) 0.

(** The object pushed on [results] for an index entry and its relevance. *)
Definition rankedResult (this : FashionCatalogue) (indexedProduct : IndexEntry.t)
           (relevance : Relevance.t) : SearchResult.t :=
  {| SearchResult.product :=
       nth_error (allProducts this) (IndexEntry.productIndex indexedProduct);
     SearchResult.score := Relevance.score relevance;
     SearchResult.matchedTerms := Relevance.matchedTerms relevance;
     SearchResult.coverage := Relevance.coverage relevance |}.

(** The array [results] of [performAdvancedSearch] before it is sorted. *)
Definition scoreAllProducts (this : FashionCatalogue) (searchTokens : list jsstring)
  : option (list SearchResult.t) :=
  forEach_indexed
    (fun indexedProduct searchIndex results =>
       relevance <- calculateRelevanceScore this searchTokens searchIndex ;;
       (* Only include products with some relevance (at least one matching term) *)
       if 0 <? Relevance.matchedTerms relevance then
         Some (results ++ [rankedResult this indexedProduct relevance])
       else Some results)
    (searchIndex this) 0 [].

Definition performAdvancedSearch (this : FashionCatalogue) (query : option jsstring)
  : option (list ResultObject) :=
  match truthy query with
  | None => Some (allProductsUnranked this)
  | Some q =>
      if List.length (JsString.trim q) =? 0 then Some (allProductsUnranked this)
      else
        let searchTokens := tokenize query in
        if List.length searchTokens =? 0 then Some (allProductsUnranked this)
        else
          (* Calculate relevance scores for all products *)
          results <- scoreAllProducts this searchTokens ;;
          (* Sort by relevance score (highest first) *)
          results <- Array_sort compareResults results ;;
          Some (List.map Ranked results)
  end.

(* ------------------------------------------------------------------ *)
(** ** Suggestion generator *)

(** [set.add(x)] on a [Set] of strings kept in insertion order. *)
Definition Set_add (set : list jsstring) (x : jsstring) : list jsstring :=
  if Array_includes set x then set else set ++ [x].

Definition generateSearchSuggestions (this : FashionCatalogue) (query : option jsstring)
  : list jsstring :=
  let suggestions : list jsstring := [] in
  let normalizedQuery := normalizeText query in
  let queryTokens := tokenize query in
  (* Look for similar tokens in our search index *)
  let suggestions :=
    forEach (fun suggestions product =>
      forEach (fun suggestions token =>
        forEach (fun suggestions queryToken =>
          (* Suggest tokens that are similar but not identical *)
          let suggestions :=
            if negb (JsString.eqb token queryToken) && fuzzyMatch queryToken token (7 # 10)
            then Set_add suggestions token else suggestions in
          (* Also suggest tokens that contain the query token *)
          let suggestions :=
            if (List.length queryToken <? List.length token)
               && JsString.includes token queryToken
            then Set_add suggestions token else suggestions in
          suggestions)
        queryTokens suggestions)
      (IndexEntry.allTokens product) suggestions)
    (searchIndex this) suggestions in
  firstn 5 suggestions.

(* ------------------------------------------------------------------ *)
(** ** Notions used to state the properties *)

(** Lower-case ASCII letters and digits. *)
Definition is_lower_alnum (c : JsString.code_unit) : bool :=
  ((97 <=? c) && (c <=? 122) || (48 <=? c) && (c <=? 57))%N.

(** What is left of a string after lower-casing and the two first
    replacements: lower-case letters, digits and white space. *)
Definition plain (c : JsString.code_unit) : Prop :=
  is_lower_alnum c = true \/ JsString.is_space c = true.

(** What is left after white space is collapsed: the only white space is the
    ASCII space. *)
Definition tidy (c : JsString.code_unit) : Prop :=
  is_lower_alnum c = true \/ c = JsString.SPACE.

Fixpoint no_space_run (s : jsstring) : Prop :=
  match s with
  | c :: (c' :: _) as rest =>
      ~ (JsString.is_space c = true /\ JsString.is_space c' = true) /\ no_space_run rest
  | _ => True
  end.

(** The recurrence that the third loop of [levenshteinDistance] writes into
    [matrix[i][j]], as a function of the two indices. *)
Fixpoint cell (str1 str2 : jsstring) (i : nat) {struct i} : nat -> nat :=
  match i with
  | 0 => fun j => j
  | S i' =>
      fix row (j : nat) : nat :=
        match j with
        | 0 => S i'
        | S j' =>
            if JsString.eqb (JsString.charAt str2 i') (JsString.charAt str1 j')
            then cell str1 str2 i' j'
            else Nat.min (cell str1 str2 i' j' + 1)
                   (Nat.min (row j' + 1) (cell str1 str2 i' (S j') + 1))
        end
  end.

(** Row [i] of the finished matrix. *)
Definition full_row (str1 str2 : jsstring) (i : nat) : list nat :=
  List.map (cell str1 str2 i) (seq 0 (List.length str1 + 1)).

(** The value of one [if (cond) termScore += w]. *)
Definition bonus (cond : bool) (w : Q) : Q := if cond then w else 0%Q.

(** How many of [tokens] fuzzy-match [searchToken] at the default
    threshold. *)
Definition fuzzyCount (searchToken : jsstring) (tokens : list jsstring) : nat :=
  List.length (filter (fun token => fuzzyMatch searchToken token default_threshold) tokens).

(** The bonuses of a search token that do not come from the title tokens. *)
Definition otherBonuses (product : IndexEntry.t) (searchToken : jsstring) : Q :=
  (bonus (Array_includes (IndexEntry.descriptionTokens product) searchToken) 1
   + (1 # 2) * Q_of_nat (fuzzyCount searchToken (IndexEntry.descriptionTokens product))
   + bonus (JsString.includes (IndexEntry.normalizedTitle product) searchToken) 1
   + bonus (JsString.includes (IndexEntry.normalizedDescription product) searchToken) (1 # 2))%Q.

(** The third sort key of a result: [product.confidence_score || 0]. *)
Definition confidence (r : SearchResult.t) : Q :=
  match SearchResult.product r with
  | Some p => or_zero (Product.confidence_score p)
  | None => 0%Q
  end.

(** [a] may stand before [b]: higher score; or equal score and higher
    coverage; or equal score and coverage, and confidence not lower. *)
Definition ranks_no_lower (a b : SearchResult.t) : Prop :=
  (SearchResult.score b < SearchResult.score a
   \/ (SearchResult.score a == SearchResult.score b
       /\ (SearchResult.coverage b < SearchResult.coverage a
           \/ (SearchResult.coverage a == SearchResult.coverage b
               /\ confidence b <= confidence a))))%Q.

(** [a] and [b] are equal on the three sort keys. *)
Definition same_keys (a b : SearchResult.t) : bool :=
  Qeq_bool (SearchResult.score a) (SearchResult.score b)
  && Qeq_bool (SearchResult.coverage a) (SearchResult.coverage b)
  && Qeq_bool (confidence a) (confidence b).

(** The result refers to a product that exists. *)
Definition has_product (r : SearchResult.t) : Prop :=
  SearchResult.product r <> None.

(** No token and no normalized text of any indexed product matches any of
    the search tokens. *)
Definition nothing_matches (this : FashionCatalogue) (searchTokens : list jsstring) : Prop :=
  forall product searchToken,
    In product (searchIndex this) -> In searchToken searchTokens ->
    (forall token,
        In token (IndexEntry.titleTokens product ++ IndexEntry.descriptionTokens product) ->
        fuzzyMatch searchToken token default_threshold = false)
    /\ JsString.includes (IndexEntry.normalizedTitle product) searchToken = false
    /\ JsString.includes (IndexEntry.normalizedDescription product) searchToken = false.

(** How many times a token stands in a token sequence. *)
Definition occurrences (token : jsstring) (tokens : list jsstring) : nat :=
  List.length (filter (JsString.eqb token) tokens).

(** Whether a search token triggers any bonus on an index entry. *)
Definition termMatched (product : IndexEntry.t) (searchToken : jsstring) : bool :=
  snd (termContribution product searchToken).

(** What [performAdvancedSearch] pushes on [results] for one index entry:
    one object if some term matched, nothing otherwise. *)
Definition pushed (this : FashionCatalogue) (searchTokens : list jsstring)
           (indexedProduct : IndexEntry.t) : list SearchResult.t :=
  let relevance := relevanceOf indexedProduct searchTokens in
  if 0 <? Relevance.matchedTerms relevance
  then [rankedResult this indexedProduct relevance]
  else [].

(** The results that the scoring loop pushes for the entries of [index],
    each with the position of its entry, the first entry standing at
    [first]. *)
Fixpoint pushedFrom (this : FashionCatalogue) (searchTokens : list jsstring)
         (index : list IndexEntry.t) (first : nat) : list (nat * SearchResult.t) :=
  match index with
  | [] => []
  | indexedProduct :: index' =>
      List.map (pair first) (pushed this searchTokens indexedProduct)
      ++ pushedFrom this searchTokens index' (S first)
  end.

(** [r] is the result of the product at position [i]: it carries that
    product and the relevance computed for position [i], in which some term
    matched. *)
Definition result_of (this : FashionCatalogue) (searchTokens : list jsstring)
           (i : nat) (r : SearchResult.t) : Prop :=
  exists product relevance,
    nth_error (allProducts this) i = Some product
    /\ calculateRelevanceScore this searchTokens i = Some relevance
    /\ 0 < Relevance.matchedTerms relevance
    /\ r = {| SearchResult.product := Some product;
              SearchResult.score := Relevance.score relevance;
              SearchResult.matchedTerms := Relevance.matchedTerms relevance;
              SearchResult.coverage := Relevance.coverage relevance |}.

(** The search token is one title token of the entry and stands nowhere else:
    not among the description tokens, not in the normalized description. *)
Definition only_one_title_token (product : IndexEntry.t) (searchToken : jsstring) : Prop :=
  occurrences searchToken (IndexEntry.titleTokens product) = 1
  /\ ~ In searchToken (IndexEntry.descriptionTokens product)
  /\ JsString.includes (IndexEntry.normalizedDescription product) searchToken = false.

(** No other token of the entry is within fuzzy reach of the search token. *)
Definition no_other_fuzzy_match (product : IndexEntry.t) (searchToken : jsstring) : Prop :=
  (forall token, In token (IndexEntry.titleTokens product) -> token <> searchToken ->
                 fuzzyMatch searchToken token default_threshold = false)
  /\ (forall token, In token (IndexEntry.descriptionTokens product) -> token <> searchToken ->
                    fuzzyMatch searchToken token default_threshold = false).

(* ------------------------------------------------------------------ *)
(** ** A small catalogue *)

Definition product_of (title description : string) (confidence : option Q) : Product.t :=
  {| Product.original_data :=
       Some {| Product.title := Some (JsString.lit title);
               Product.description := Some (JsString.lit description) |};
     Product.confidence_score := confidence |}.

Definition dress_only : FashionCatalogue :=
  buildSearchIndex
    {| allProducts := [product_of "Dress" "" None]; searchIndex := [] |}.

Definition boutique : FashionCatalogue :=
  buildSearchIndex
    {| allProducts :=
         [product_of "Floral Dress" "Summer floral pattern" None;
          product_of "Dress" "" (Some 1%Q);
          product_of "Red dresses" "A shirt" (Some 2%Q);
          product_of "Shoes" "" None];
       searchIndex := [] |}.

(** One product whose description contains the token "ab" inside a word. *)
Definition kimono_only : FashionCatalogue :=
  buildSearchIndex
    {| allProducts := [product_of "Kimono" "xabx" None]; searchIndex := [] |}.

(** Two products whose scores for "dress ab cd ef gh zz" are
    2 + 2 * (4 / 6) and 3 + 2 * (1 / 6): equal as fractions, different once
    rounded. *)
Definition kimono_and_dresses : FashionCatalogue :=
  buildSearchIndex
    {| allProducts :=
         [product_of "Kimono" "xabx xcdx xefx xghx" None;
          product_of "Dresses" "" None];
       searchIndex := [] |}.

Definition floral_entry : IndexEntry.t :=
  indexEntry (product_of "Floral Dress" "Summer floral pattern" None) 0.

Definition dress_entry : IndexEntry.t :=
  indexEntry (product_of "Dress" "" None) 0.

Definition dress : jsstring := JsString.lit "dress".

(** An index entry made by hand whose normalized title does not contain its
    title token. *)
Definition loose_entry : IndexEntry.t :=
  {| IndexEntry.productIndex := 0;
     IndexEntry.titleTokens := [JsString.lit "dress"];
     IndexEntry.descriptionTokens := [];
     IndexEntry.normalizedTitle := [];
     IndexEntry.normalizedDescription := [];
     IndexEntry.allTokens := [JsString.lit "dress"] |}.

(** A query that is [null], empty or made of white space only. *)
Definition blank (query : option jsstring) : Prop :=
  match query with
  | None => True
  | Some q => Forall (fun c => JsString.is_space c = true) q
  end.

(* ------------------------------------------------------------------ *)
(** ** The callers of the search engine *)

(** The code units on which [JsString.toLowerCase] is
    [String.prototype.toLowerCase] for every string made of them. *)
Definition is_ascii (c : JsString.code_unit) : bool := (c <? 128)%N.

(** What the timeout callback of [handleSearch] stores in
    [this.filters.searchQuery]: [query.toLowerCase().trim()].  The model
    gives it for the queries of ASCII code units; the lower case of the
    other letters is not modelled, and for a query that holds one the model
    does not say what is stored ([None]). *)
Definition storedSearchQuery (query : jsstring) : option jsstring :=
  if forallb is_ascii query
  then Some (JsString.trim (JsString.toLowerCase query))
  else None.


Section Loading.

(** Whether [preprocessData] throws on the sorted products: in its pass over
    the brands and categories, where [categoryAttributeMap[category].add]
    is called on an inherited member of the object when a product with a
    valued attribute has a category named like a member of
    [Object.prototype]; or in [buildSearchIndex], where a title or a
    description that is not a string has no [toLowerCase].  What decides it
    is not part of [Product.t]. *)
Variable preprocessData_throws : list Product.t -> bool.


End Loading.



(* ------------------------------------------------------------------ *)
(** ** Display names *)

Definition UNDERSCORE : JsString.code_unit := 95%N.

(** [l.toUpperCase()] for a code unit [l] of the class [\w]. *)
Definition upper_unit (l : JsString.code_unit) : JsString.code_unit :=
  if ((97 <=? l) && (l <=? 122))%N then (l - 32)%N else l.

(** [s.replace(/_/g, ' ')] *)
Definition replace_underscores (s : jsstring) : jsstring :=
  List.map (fun c => if (c =? UNDERSCORE)%N then JsString.SPACE else c) s.

(** [s.replace(/\b\w/g, l => l.toUpperCase())]: a [\w] code unit is replaced
    where the one before it, if any, is not [\w]. *)
Fixpoint capitalize_words (afterWord : bool) (s : jsstring) : jsstring :=
  match s with
  | [] => []
  | c :: rest =>
      (if JsString.is_word c && negb afterWord then upper_unit c else c)
        :: capitalize_words (JsString.is_word c) rest
  end.

Definition formatCategoryName (category : jsstring) : jsstring :=
  capitalize_words false (replace_underscores category).

Definition formatAttributeName (attr : jsstring) : jsstring :=
  capitalize_words false (replace_underscores attr).

(** [s.replace(/\s+/g, '_')] *)
Fixpoint replace_space_runs_by_underscore (s : jsstring) : jsstring :=
  match s with
  | [] => []
  | c :: rest =>
      if JsString.is_space c then
        match rest with
        | c' :: _ => if JsString.is_space c' then replace_space_runs_by_underscore rest
                     else UNDERSCORE :: replace_space_runs_by_underscore rest
        | [] => [UNDERSCORE]
        end
      else c :: replace_space_runs_by_underscore rest
  end.

(** The attribute that [updateFilterButtons] reads back from the label of a
    dynamic filter button: [label.textContent.toLowerCase().replace(/\s+/g, '_')].
    ([toLowerCase] is exact on ASCII labels, see [JsString.lower_unit].) *)
Definition attributeOfLabel (label : jsstring) : jsstring :=
  replace_space_runs_by_underscore (JsString.toLowerCase label).

(** An attribute name in the usual form: lower-case ASCII letters, digits
    and underscores, no two underscores in a row. *)
Fixpoint snake_case (attr : jsstring) : Prop :=
  match attr with
  | [] => True
  | c :: rest =>
      (is_lower_alnum c = true \/ c = UNDERSCORE)
      /\ match rest with
         | c' :: _ => ~ (c = UNDERSCORE /\ c' = UNDERSCORE)
         | [] => True
         end
      /\ snake_case rest
  end.

(* ------------------------------------------------------------------ *)
(** ** Filters and pages *)

(** [this.filters]: two sets, an object from attribute to set, two bounds
    ([None] for [null]; a bound that [parseFloat] could not read compares
    false with every price, so it filters like [null] and is [None] too) and
    the stored query. *)
Module Filters.
Record t : Type :=
  { brands : list jsstring;
    categories : list jsstring;
    attributes : list (jsstring * list jsstring);
    priceMin : option Q;
    priceMax : option Q;
    searchQuery : jsstring }.
End Filters.

(** The filters of the constructor, to which [clearAllFilters] goes back. *)
Definition noFilters : Filters.t :=
  {| Filters.brands := [];
     Filters.categories := [];
     Filters.attributes := [];
     Filters.priceMin := None;
     Filters.priceMax := None;
     Filters.searchQuery := [] |}.

(** The fields of [this] that [applyFilters] and [loadMoreProducts] use,
    with the two things outside [this] that they change: whether the
    load-more button is displayed, and how many callbacks of
    [loadMoreProducts] [setTimeout] still holds. *)
Record View : Type :=
  { catalogue : FashionCatalogue;
    filters : Filters.t;
    filteredProducts : list (option Product.t);
    displayedProducts : list (option Product.t);
    currentPage : nat;
    isLoading : bool;
    loadMoreButton : bool;
    timeouts : nat }.

Definition itemsPerPage : nat := 24.

(** [a.slice(start, end)] for [start <= end]. *)
Definition Array_slice {A : Type} (a : list A) (start stop : nat) : list A :=
  firstn (stop - start) (skipn start a).

(** [a.filter(callback)] for a callback that may stop. *)
Fixpoint Array_filter {A : Type} (callback : A -> option bool) (a : list A)
  : option (list A) :=
  match a with
  | [] => Some []
  | x :: a' =>
      keep <- callback x ;;
      rest <- Array_filter callback a' ;;
      Some (if keep then x :: rest else rest)
  end.

(** [x < y] on numbers. *)
Definition Q_ltb (x y : Q) : bool := negb (Qle_bool y x).

Definition is_null {A : Type} (x : option A) : bool :=
  match x with
  | Some _ => false
  | None => true
  end.

Definition loadMoreProducts (this : View) : View :=
  if isLoading this then this
  else
    {| catalogue := catalogue this;
       filters := filters this;
       filteredProducts := filteredProducts this;
       displayedProducts := displayedProducts this;
       currentPage := currentPage this;
       isLoading := true;
       loadMoreButton := loadMoreButton this;
       timeouts := timeouts this + 1 |}.

(** The handlers that change the filters assign to [this.filters] and then
    call [applyFilters]. *)
Definition setFilters (this : View) (filters' : Filters.t) : View :=
  {| catalogue := catalogue this;
     filters := filters';
     filteredProducts := filteredProducts this;
     displayedProducts := displayedProducts this;
     currentPage := currentPage this;
     isLoading := isLoading this;
     loadMoreButton := loadMoreButton this;
     timeouts := timeouts this |}.

Section Browsing.

(** The fields of a product that only the filters read, as functions of the
    product: [item.original_data?.brand], [item.enriched_category],
    [item.original_data?.price_eur] and [item.attributes?.[attr]?.value]. *)
Variable brand : Product.t -> option jsstring.
Variable enriched_category : Product.t -> option jsstring.
Variable price_eur : Product.t -> option Q.
Variable attribute_value : Product.t -> jsstring -> option jsstring.

(** Whether [item.original_data.images_url] is absent or an array whose
    elements are strings or falsy, as [createProductCard] takes it to be. *)
Variable images_url_valid : Product.t -> bool.

(** The loop over [Object.entries(this.filters.attributes)] in the callback
    of [applyFilters]. *)
Fixpoint attributeFilters (entries : list (jsstring * list jsstring))
         (item : option Product.t) : option bool :=
  match entries with
  | [] => Some true
  | (attr, values) :: entries' =>
      if 0 <? List.length values then
        item' <- item ;;
        match truthy (attribute_value item' attr) with
        | Some itemValue =>
            if Array_includes values itemValue then attributeFilters entries' item
            else Some false
        | None => Some false
        end
      else attributeFilters entries' item
  end.

(** The callback of [productsToFilter.filter] in [applyFilters].  It stops
    where the source would read a field of an [undefined] item. *)
Definition filterCallback (filters : Filters.t) (item : option Product.t) : option bool :=
  (* Brand filter *)
  brandOk <-
    (if 0 <? List.length (Filters.brands filters) then
       item' <- item ;;
       Some (match brand item' with
             | Some b => Array_includes (Filters.brands filters) b
             | None => false
             end)
     else Some true) ;;
  if negb brandOk then Some false
  else
    (* Category filter *)
    (categoryOk <-
       (if 0 <? List.length (Filters.categories filters) then
          item' <- item ;;
          Some (match enriched_category item' with
                | Some c => Array_includes (Filters.categories filters) c
                | None => false
                end)
        else Some true) ;;
     if negb categoryOk then Some false
     else
       (* Price filter *)
       (priceOk <-
          (if negb (is_null (Filters.priceMin filters))
              || negb (is_null (Filters.priceMax filters))
           then
             item' <- item ;;
             Some (match price_eur item' with
                   | Some price =>
                       if Qeq_bool price 0 then true
                       else if match Filters.priceMin filters with
                               | Some priceMin => Q_ltb price priceMin
                               | None => false
                               end
                       then false
                       else if match Filters.priceMax filters with
                               | Some priceMax => Q_ltb priceMax price
                               | None => false
                               end
                       then false
                       else true
                   | None => true
                   end)
           else Some true) ;;
        if negb priceOk then Some false
        else
          (* Attribute filters *)
          attributeFilters (Filters.attributes filters) item)).

Definition applyFilters (this : View) : option View :=
  let searchQuery := Filters.searchQuery (filters this) in
  productsToFilter <-
    (if (0 <? List.length searchQuery) && (0 <? List.length (JsString.trim searchQuery))
     then
       (* Use advanced search to get relevance-ranked results *)
       searchResults <- performAdvancedSearch (catalogue this) (Some searchQuery) ;;
       Some (List.map result_product searchResults)
     else
       (* No search query, start with all products (sorted by confidence) *)
       Some (List.map Some (allProducts (catalogue this)))) ;;
  (* Apply other filters to the search results *)
  filteredProducts <- Array_filter (filterCallback (filters this)) productsToFilter ;;
  (* Reset pagination, load first page *)
  Some (loadMoreProducts
          {| catalogue := catalogue this;
             filters := filters this;
             filteredProducts := filteredProducts;
             displayedProducts := [];
             currentPage := 0;
             isLoading := isLoading this;
             loadMoreButton := loadMoreButton this;
             timeouts := timeouts this |}).

(** [createProductCard(product)] builds the card of a product; the model
    keeps whether it returns.  It throws where it reads
    [product.original_data.images_url] of an [undefined] product or of a
    product without [original_data], and where [images.filter] or
    [img.trim()] is not a function. *)
Definition createProductCard (product : option Product.t) : bool :=
  match product with
  | Some item =>
      match Product.original_data item with
      | Some _ => images_url_valid item
      | None => false
      end
  | None => false
  end.

(** [appendProducts(products)]: whether every card is created. *)
Definition appendProducts (products : list (option Product.t)) : bool :=
  forallb createProductCard products.

(** The callback that [loadMoreProducts] gives to [setTimeout], when it
    runs.  [renderProducts] appends [this.displayedProducts].  When a card
    cannot be created the exception leaves the callback after
    [displayedProducts] is assigned: the page counter, [isLoading] and the
    button stay as they were. *)
Definition loadMoreProducts_timeout (this : View) : View :=
  let startIndex := currentPage this * itemsPerPage in
  let endIndex := startIndex + itemsPerPage in
  let newProducts := Array_slice (filteredProducts this) startIndex endIndex in
  let displayedProducts' :=
    if currentPage this =? 0 then newProducts
    else displayedProducts this ++ newProducts in
  let rendered :=
    if currentPage this =? 0 then appendProducts displayedProducts'
    else appendProducts newProducts in
  let hasMoreProducts := endIndex <? List.length (filteredProducts this) in
  if rendered then
    {| catalogue := catalogue this;
       filters := filters this;
       filteredProducts := filteredProducts this;
       displayedProducts := displayedProducts';
       currentPage := currentPage this + 1;
       isLoading := false;
       loadMoreButton := hasMoreProducts;
       timeouts := timeouts this - 1 |}
  else
    {| catalogue := catalogue this;
       filters := filters this;
       filteredProducts := filteredProducts this;
       displayedProducts := displayedProducts';
       currentPage := currentPage this;
       isLoading := isLoading this;
       loadMoreButton := loadMoreButton this;
       timeouts := timeouts this - 1 |}.


(** What can happen to the view: the filters are changed and applied, the
    load-more button is clicked, a callback held by [setTimeout] runs. *)
Inductive step : View -> View -> Prop :=
| step_filters (this : View) (filters' : Filters.t) (this' : View) :
    applyFilters (setFilters this filters') = Some this' -> step this this'
| step_loadMore (this : View) :
    step this (loadMoreProducts this)
| step_timeout (this : View) :
    0 < timeouts this -> step this (loadMoreProducts_timeout this).

Inductive reaches (start : View) : View -> Prop :=
| reaches_start : reaches start start
| reaches_step (this this' : View) :
    reaches start this -> step this this' -> reaches start this'.

End Browsing.

(** A view on which nothing was loaded yet, as the constructor leaves it. *)
Definition fresh (this : View) : Prop :=
  filteredProducts this = [] /\ displayedProducts this = []
  /\ currentPage this = 0 /\ isLoading this = false /\ timeouts this = 0.

(** The pages shown are the first pages of the filtered products, and a
    callback is pending exactly while [isLoading] is set. *)
Definition paged (this : View) : Prop :=
  displayedProducts this
  = firstn (currentPage this * itemsPerPage) (filteredProducts this)
  /\ timeouts this = (if isLoading this then 1 else 0).

(** A view of the small catalogue, with a stored query and a brand filter. *)
Definition shop_view (searchQuery : string) (brands : list jsstring) : View :=
  {| catalogue := boutique;
     filters :=
       {| Filters.brands := brands;
          Filters.categories := [];
          Filters.attributes := [];
          Filters.priceMin := None;
          Filters.priceMax := None;
          Filters.searchQuery := JsString.lit searchQuery |};
     filteredProducts := [];
     displayedProducts := [];
     currentPage := 0;
     isLoading := false;
     loadMoreButton := false;
     timeouts := 0 |}.

(** Products of one brand, without category, price or attributes. *)
Definition one_brand (item : Product.t) : option jsstring := Some (JsString.lit "acme").
Definition no_text (item : Product.t) : option jsstring := None.
Definition no_price (item : Product.t) : option Q := None.
Definition no_attribute (item : Product.t) (attr : jsstring) : option jsstring := None.
Definition any_images (item : Product.t) : bool := true.

(** The page of the small catalogue after [init]: no filter, all products
    filtered in, the first page requested. *)
Definition first_request : View :=
  {| catalogue := boutique;
     filters := noFilters;
     filteredProducts := List.map Some (allProducts boutique);
     displayedProducts := [];
     currentPage := 0;
     isLoading := true;
     loadMoreButton := false;
     timeouts := 1 |}.

(** A product as [createProductCard] cannot show it. *)
Definition bare_product : Product.t :=
  {| Product.original_data := None; Product.confidence_score := None |}.

(* ================================================================== *)
(** * Properties *)

(** ** Strings *)

Module JsStringFacts.
Import JsString.

Lemma eqb_eq (a b : t) : eqb a b = true <-> a = b.
Proof. unfold eqb. destruct (list_eq_dec N.eq_dec a b); split; congruence. Qed.

Lemma eqb_neq (a b : t) : eqb a b = false <-> a <> b.
Proof. unfold eqb. destruct (list_eq_dec N.eq_dec a b); split; congruence. Qed.

Lemma eqb_refl (a : t) : eqb a a = true.
Proof. now apply eqb_eq. Qed.

Lemma eqb_sym (a b : t) : eqb a b = eqb b a.
Proof.
  destruct (eqb b a) eqn:E.
  - apply eqb_eq in E. subst. apply eqb_refl.
  - apply eqb_neq in E. apply eqb_neq. congruence.
Qed.

(** Tests on code units, turned into arithmetic. *)
Ltac units :=
  unfold plain, tidy, is_lower_alnum, is_word, is_space, SPACE in *;
  repeat rewrite ?orb_true_iff, ?andb_true_iff, ?orb_false_iff,
    ?andb_false_iff, ?negb_true_iff, ?negb_false_iff,
    ?N.leb_le, ?N.leb_gt, ?N.eqb_eq, ?N.eqb_neq in *;
  try lia.

Lemma space_is_space : is_space SPACE = true.
Proof. reflexivity. Qed.

Lemma tidy_plain c : tidy c -> plain c.
Proof. intros [H | ->]; [now left | now right]. Qed.

Lemma tidy_space c : tidy c -> is_space c = true -> c = SPACE.
Proof. intros [H | ->] Hs; [exfalso; units | reflexivity]. Qed.

(** *** The three first steps of [normalizeText] *)

Lemma lower_unit_tidy c : tidy c -> lower_unit c = [c].
Proof.
  intros H. unfold lower_unit.
  destruct ((65 <=? c) && (c <=? 90))%N eqn:E1; [exfalso; units|].
  destruct (c =? 8490)%N eqn:E2; [exfalso; units|].
  destruct (c =? 304)%N eqn:E3; [exfalso; units|].
  reflexivity.
Qed.

Lemma toLowerCase_tidy s : Forall tidy s -> toLowerCase s = s.
Proof.
  induction 1 as [|c s Hc Hs IH]; [reflexivity|].
  unfold toLowerCase in *. simpl. rewrite IH, lower_unit_tidy by assumption.
  reflexivity.
Qed.

Lemma replace_non_word_non_space_tidy s :
  Forall tidy s -> replace_non_word_non_space s = s.
Proof.
  induction 1 as [|c s Hc Hs IH]; [reflexivity|].
  unfold replace_non_word_non_space in *. simpl. rewrite IH. f_equal.
  destruct (negb (is_word c || is_space c)) eqn:E; [|reflexivity].
  exfalso. units.
Qed.

Lemma replace_hyphen_underscore_tidy s :
  Forall tidy s -> replace_hyphen_underscore s = s.
Proof.
  induction 1 as [|c s Hc Hs IH]; [reflexivity|].
  unfold replace_hyphen_underscore in *. simpl. rewrite IH. f_equal.
  destruct ((c =? 45) || (c =? 95))%N eqn:E; [|reflexivity].
  exfalso. units.
Qed.

Lemma cleaned_unit_plain c c' :
  In c' (lower_unit c) ->
  plain (let c1 := if negb (is_word c' || is_space c') then SPACE else c' in
         if ((c1 =? 45) || (c1 =? 95))%N then SPACE else c1).
Proof.
  unfold lower_unit. intros Hin.
  assert (Hup : ~ (65 <= c' <= 90)%N).
  { destruct ((65 <=? c) && (c <=? 90))%N eqn:E1.
    - destruct Hin as [<- | []]. units.
    - destruct (c =? 8490)%N eqn:E2; [destruct Hin as [<- | []]; lia|].
      destruct (c =? 304)%N eqn:E3; [destruct Hin as [<- | [<- | []]]; lia|].
      destruct Hin as [<- | []]. units. }
  cbv zeta.
  destruct (negb (is_word c' || is_space c')) eqn:E.
  - right. reflexivity.
  - destruct ((c' =? 45) || (c' =? 95))%N eqn:E'.
    + right. reflexivity.
    + units.
Qed.

Lemma cleaned_plain s :
  Forall plain
    (replace_hyphen_underscore (replace_non_word_non_space (toLowerCase s))).
Proof.
  unfold replace_hyphen_underscore, replace_non_word_non_space, toLowerCase.
  rewrite map_map. apply Forall_forall. intros x Hx.
  apply in_map_iff in Hx. destruct Hx as [c' [<- Hc']].
  apply in_flat_map in Hc'. destruct Hc' as [c [_ Hc]].
  exact (cleaned_unit_plain c c' Hc).
Qed.

(** *** Collapsing white space *)

Lemma replace_space_runs_tidy s :
  Forall plain s -> Forall tidy (replace_space_runs s).
Proof.
  induction 1 as [|c s Hc Hs IH]; [constructor|].
  simpl. destruct (is_space c) eqn:Ec.
  - destruct s as [|c' s']; [repeat constructor; now right|].
    destruct (is_space c'); [exact IH|].
    constructor; [now right | exact IH].
  - constructor; [|exact IH]. destruct Hc as [Hc | Hc]; [now left | congruence].
Qed.

Lemma replace_space_runs_no_run s : no_space_run (replace_space_runs s).
Proof.
  induction s as [|c s IH]; [exact I|].
  simpl. destruct (is_space c) eqn:Ec.
  - destruct s as [|c' s']; [exact I|].
    destruct (is_space c') eqn:Ec'; [exact IH|].
    simpl in *. rewrite Ec' in *.
    split; [intros [_ H]; congruence | exact IH].
  - destruct (replace_space_runs s) eqn:Er; [exact I|].
    split; [intros [H _]; congruence | exact IH].
Qed.

Lemma replace_space_runs_fixed s :
  Forall tidy s -> no_space_run s -> replace_space_runs s = s.
Proof.
  induction 1 as [|c s Hc Hs IH]; [reflexivity|].
  intros Hrun. simpl.
  assert (Hrest : no_space_run s) by (destruct s; [exact I | apply Hrun]).
  rewrite (IH Hrest).
  destruct (is_space c) eqn:Ec; [|reflexivity].
  rewrite (tidy_space Hc Ec).
  destruct s as [|c' s']; [reflexivity|].
  destruct (is_space c') eqn:Ec'; [|reflexivity].
  exfalso. apply (proj1 Hrun). auto.
Qed.

(** *** Trimming *)

Lemma trimStart_suffix s : exists pre, s = pre ++ trimStart s.
Proof.
  induction s as [|c s [pre IH]]; [now exists []|].
  simpl. destruct (is_space c).
  - exists (c :: pre). simpl. now f_equal.
  - now exists [].
Qed.

Lemma trimEnd_prefix s : exists post, s = trimEnd s ++ post.
Proof.
  induction s as [|c s [post IH]]; [now exists []|].
  simpl. destruct (trimEnd s) as [|d r] eqn:E.
  - destruct (is_space c).
    + now exists (c :: s).
    + exists s. reflexivity.
  - exists post. simpl. now f_equal.
Qed.

Lemma no_space_run_app_r pre s : no_space_run (pre ++ s) -> no_space_run s.
Proof.
  induction pre as [|c pre IH]; [auto|].
  intros H. apply IH. simpl in H. destruct (pre ++ s); [exact I | apply H].
Qed.

Lemma no_space_run_app_l s post : no_space_run (s ++ post) -> no_space_run s.
Proof.
  induction s as [|c s IH]; [intros; exact I|].
  intros H. destruct s as [|c' s']; [exact I|].
  simpl in *. split; [apply H | apply IH, H].
Qed.

Lemma trimStart_fixed s : trimStart (trimStart s) = trimStart s.
Proof.
  induction s as [|c s IH]; [reflexivity|].
  simpl. destruct (is_space c) eqn:E; [exact IH|].
  simpl. now rewrite E.
Qed.

Lemma trimEnd_fixed s : trimEnd (trimEnd s) = trimEnd s.
Proof.
  induction s as [|c s IH]; [reflexivity|].
  simpl. destruct (trimEnd s) as [|d r] eqn:E.
  - destruct (is_space c) eqn:Ec; [reflexivity|]. simpl. now rewrite Ec.
  - change (trimEnd (c :: d :: r)) with
      (match trimEnd (d :: r) with
       | [] => if is_space c then [] else [c]
       | r' => c :: r'
       end).
    rewrite IH. reflexivity.
Qed.

Lemma trimStart_trimEnd s :
  trimStart s = s -> trimStart (trimEnd s) = trimEnd s.
Proof.
  destruct s as [|c s]; [reflexivity|].
  simpl. destruct (is_space c) eqn:Ec.
  - intros H. exfalso.
    destruct (trimStart_suffix s) as [pre Hpre].
    rewrite H in Hpre. apply (f_equal (@List.length _)) in Hpre.
    rewrite length_app in Hpre. simpl in Hpre. lia.
  - intros _. destruct (trimEnd s); simpl; now rewrite Ec.
Qed.

Lemma trim_fixed s : trim (trim s) = trim s.
Proof.
  unfold trim.
  rewrite (trimStart_trimEnd (trimStart_fixed s)).
  apply trimEnd_fixed.
Qed.

Lemma trim_tidy s : Forall tidy s -> Forall tidy (trim s).
Proof.
  intros H. unfold trim.
  destruct (trimStart_suffix s) as [pre Hpre].
  destruct (trimEnd_prefix (trimStart s)) as [post Hpost].
  rewrite Hpre, Hpost in H.
  apply Forall_app in H. destruct H as [_ H].
  apply Forall_app in H. apply H.
Qed.

Lemma trim_no_run s : no_space_run s -> no_space_run (trim s).
Proof.
  intros H. unfold trim.
  destruct (trimStart_suffix s) as [pre Hpre].
  destruct (trimEnd_prefix (trimStart s)) as [post Hpost].
  rewrite Hpre in H. apply no_space_run_app_r in H.
  rewrite Hpost in H. now apply no_space_run_app_l in H.
Qed.

Lemma trimStart_spaces s :
  Forall (fun c => is_space c = true) s -> trimStart s = [].
Proof.
  induction 1 as [|c s Hc Hs IH]; [reflexivity|]. simpl. now rewrite Hc.
Qed.

(** *** Strings of white space *)

Lemma trimEnd_nil s : trimEnd s = [] -> Forall (fun c => is_space c = true) s.
Proof.
  induction s as [|c s IH]; [constructor|].
  simpl. destruct (trimEnd s) as [|d r]; [|discriminate].
  destruct (is_space c) eqn:E; [|discriminate].
  intros _. constructor; auto.
Qed.

Lemma trimStart_spaces_inv s :
  Forall (fun c => is_space c = true) (trimStart s) ->
  Forall (fun c => is_space c = true) s.
Proof.
  induction s as [|c s IH]; [auto|].
  simpl. destruct (is_space c) eqn:E; [|auto].
  intros H. constructor; auto.
Qed.

Lemma trim_nil s : trim s = [] -> Forall (fun c => is_space c = true) s.
Proof. intros H. apply trimStart_spaces_inv, trimEnd_nil, H. Qed.

Lemma spaces_trim s : Forall (fun c => is_space c = true) s -> trim s = [].
Proof. intros H. unfold trim. now rewrite trimStart_spaces. Qed.

Lemma lower_unit_space c : is_space c = true -> lower_unit c = [c].
Proof.
  intros H. unfold lower_unit.
  destruct ((65 <=? c) && (c <=? 90))%N eqn:E1; [exfalso; units|].
  destruct (c =? 8490)%N eqn:E2; [exfalso; units|].
  destruct (c =? 304)%N eqn:E3; [exfalso; units|].
  reflexivity.
Qed.

Lemma cleaned_spaces s :
  Forall (fun c => is_space c = true) s ->
  replace_hyphen_underscore (replace_non_word_non_space (toLowerCase s)) = s.
Proof.
  unfold replace_hyphen_underscore, replace_non_word_non_space, toLowerCase.
  induction 1 as [|c s Hc Hs IH]; [reflexivity|].
  simpl. rewrite (lower_unit_space c Hc). simpl. rewrite IH. f_equal.
  rewrite Hc, orb_true_r. simpl.
  destruct ((c =? 45) || (c =? 95))%N eqn:E; [|reflexivity].
  exfalso. units.
Qed.

Lemma replace_space_runs_spaces s :
  Forall (fun c => is_space c = true) s ->
  Forall (fun c => is_space c = true) (replace_space_runs s).
Proof.
  induction 1 as [|c s Hc Hs IH]; [constructor|].
  simpl. rewrite Hc. destruct s as [|c' s']; [repeat constructor|].
  destruct (is_space c'); [exact IH|]. constructor; [reflexivity | exact IH].
Qed.

End JsStringFacts.

(** ** The normalizer *)

Lemma blank_normalizeText (query : option jsstring) :
  blank query -> normalizeText query = [].
Proof.
  destruct query as [q|]; [|reflexivity]. simpl. intros H.
  unfold normalizeText. destruct (truthy (Some q)) as [s|] eqn:E; [|reflexivity].
  assert (s = q) by (destruct q; simpl in E; congruence). subst s.
  rewrite (JsStringFacts.cleaned_spaces H).
  apply JsStringFacts.spaces_trim, JsStringFacts.replace_space_runs_spaces, H.
Qed.

Lemma blank_tokenize (query : option jsstring) :
  blank query -> tokenize query = [].
Proof.
  intros H. unfold tokenize. destruct (truthy query); [|reflexivity].
  rewrite (blank_normalizeText query H). reflexivity.
Qed.

Lemma normalizeText_normal (text : option jsstring) :
  let n := normalizeText text in
  Forall tidy n /\ no_space_run n /\ JsString.trim n = n.
Proof.
  unfold normalizeText. destruct (truthy text) as [s|]; cbv zeta.
  - repeat split.
    + apply JsStringFacts.trim_tidy, JsStringFacts.replace_space_runs_tidy,
        JsStringFacts.cleaned_plain.
    + apply JsStringFacts.trim_no_run, JsStringFacts.replace_space_runs_no_run.
    + apply JsStringFacts.trim_fixed.
  - repeat split. constructor.
Qed.

(** C9. [normalizeText] is idempotent: normalizing a normalized text gives
    it back, for every input, [null] and the empty string included. *)
Theorem C9_normalizeText_idempotent (x : option jsstring) :
  normalizeText (Some (normalizeText x)) = normalizeText x.
Proof.
  destruct (normalizeText_normal x) as [Htidy [Hrun Htrim]].
  remember (normalizeText x) as n eqn:En. clear En.
  unfold normalizeText at 1.
  destruct n as [|c n]; [reflexivity|]. simpl truthy. cbv iota beta.
  rewrite JsStringFacts.toLowerCase_tidy by assumption.
  rewrite JsStringFacts.replace_non_word_non_space_tidy by assumption.
  rewrite JsStringFacts.replace_hyphen_underscore_tidy by assumption.
  rewrite JsStringFacts.replace_space_runs_fixed by assumption.
  exact Htrim.
Qed.

(** ** The edit-distance matrix *)

Unset Implicit Arguments.

Section Levenshtein.

Variables str1 str2 : jsstring.

Lemma nth_error_map_seq {B : Type} (f : nat -> B) (first len k : nat) :
  k < len -> nth_error (List.map f (seq first len)) k = Some (f (first + k)).
Proof.
  intros H. rewrite nth_error_map, nth_error_seq.
  destruct (Nat.ltb_spec k len); [reflexivity | lia].
Qed.

Lemma array_set_push {B : Type} (a : list B) (v : B) :
  array_set a (List.length a) v = Some (a ++ [v]).
Proof.
  unfold array_set. rewrite Nat.ltb_irrefl, Nat.eqb_refl. reflexivity.
Qed.

Lemma array_set_at {B : Type} (above : list B) (old : B) (below : list B) (v : B) :
  array_set (above ++ old :: below) (List.length above) v
  = Some (above ++ v :: below).
Proof.
  unfold array_set. rewrite length_app. simpl List.length.
  destruct (Nat.ltb_spec (List.length above) (List.length above + S (List.length below)));
    [|lia].
  do 2 f_equal.
  - induction above as [|x above IH]; [reflexivity|]. simpl. f_equal.
    apply IH. simpl in *. lia.
  - f_equal. induction above as [|x above IH]; [reflexivity|].
    apply IH. simpl in *. lia.
Qed.

Lemma matrix_get_at (above : Matrix) (row : list nat) (below : Matrix) (j : nat) :
  matrix_get (above ++ row :: below) (List.length above) j = nth_error row j.
Proof.
  unfold matrix_get. rewrite nth_error_app2, Nat.sub_diag by lia. reflexivity.
Qed.

Lemma matrix_get_above (above rest : Matrix) (i j : nat) (row : list nat) :
  nth_error above i = Some row ->
  matrix_get (above ++ rest) i j = nth_error row j.
Proof.
  intros H. unfold matrix_get.
  rewrite nth_error_app1 by (apply nth_error_Some; congruence).
  now rewrite H.
Qed.

Lemma matrix_set_push (above : Matrix) (row : list nat) (below : Matrix) (v : nat) :
  matrix_set (above ++ row :: below) (List.length above) (List.length row) v
  = Some (above ++ (row ++ [v]) :: below).
Proof.
  unfold matrix_set. rewrite nth_error_app2, Nat.sub_diag by lia. simpl.
  rewrite array_set_push. apply array_set_at.
Qed.

(** First loop: one row [[i]] for each [i] in [0 .. str2.length]. *)
Lemma first_loop (count first : nat) :
  for_loop first count (fun i matrix => array_set matrix i [i])
           (List.map (fun i => [i]) (seq 0 first))
  = Some (List.map (fun i => [i]) (seq 0 (first + count))).
Proof.
  revert first. induction count as [|count IH]; intros first.
  - simpl. now rewrite Nat.add_0_r.
  - simpl.
    replace (array_set (List.map (fun i => [i]) (seq 0 first)) first [first])
      with (Some (List.map (fun i => [i]) (seq 0 (S first)))).
    + rewrite IH. do 3 f_equal. lia.
    + rewrite seq_S, map_app. simpl.
      rewrite <- array_set_push. now rewrite length_map, length_seq.
Qed.

(** Second loop: row 0 becomes [0, 1, ..., str1.length]. *)
Lemma second_loop (below : Matrix) (count first : nat) :
  0 < first ->
  for_loop first count (fun j matrix => matrix_set matrix 0 j j)
           (seq 0 first :: below)
  = Some (seq 0 (first + count) :: below).
Proof.
  revert first. induction count as [|count IH]; intros first Hfirst.
  - simpl. now rewrite Nat.add_0_r.
  - simpl.
    pose proof (matrix_set_push [] (seq 0 first) below first) as Hset.
    simpl in Hset. rewrite length_seq in Hset. rewrite Hset.
    rewrite <- seq_S. rewrite IH by lia. do 3 f_equal. lia.
Qed.

Lemma cell_row_start (i : nat) : cell str1 str2 i 0 = i.
Proof. destruct i; reflexivity. Qed.

Lemma cell_step (i' j' : nat) :
  cell str1 str2 (S i') (S j')
  = if JsString.eqb (JsString.charAt str2 i') (JsString.charAt str1 j')
    then cell str1 str2 i' j'
    else Nat.min (cell str1 str2 i' j' + 1)
           (Nat.min (cell str1 str2 (S i') j' + 1) (cell str1 str2 i' (S j') + 1)).
Proof. reflexivity. Qed.

(** Third loop, inner part: row [i] is extended cell by cell. *)
Lemma inner_loop (above below : Matrix) (i' : nat) (count j : nat) :
  List.length above = S i' ->
  nth_error above i' = Some (full_row str1 str2 i') ->
  0 < j -> j + count = (List.length str1) + 1 ->
  for_loop j count
    (fun j matrix =>
       if JsString.eqb (JsString.charAt str2 (S i' - 1)) (JsString.charAt str1 (j - 1))
       then
         diag <- matrix_get matrix (S i' - 1) (j - 1) ;;
         matrix_set matrix (S i') j diag
       else
         substitution <- matrix_get matrix (S i' - 1) (j - 1) ;;
         insertion <- matrix_get matrix (S i') (j - 1) ;;
         deletion <- matrix_get matrix (S i' - 1) j ;;
         matrix_set matrix (S i') j
           (Nat.min (substitution + 1) (Nat.min (insertion + 1) (deletion + 1))))
    (above ++ List.map (cell str1 str2 (S i')) (seq 0 j) :: below)
  = Some (above ++ full_row str1 str2 (S i') :: below).
Proof.
  intros Hlen Hprev.
  match goal with |- _ -> _ -> for_loop _ _ ?b _ = _ => set (body := b) end.
  revert j.
  induction count as [|count IH]; intros j Hj Hsum.
  - simpl. unfold full_row. now replace ((List.length str1) + 1) with j by lia.
  - destruct j as [|j']; [lia|].
    cbn [for_loop]. unfold body at 1. cbv beta.
    replace (S i' - 1) with i' by lia. replace (S j' - 1) with j' by lia.
    assert (Hdiag : forall k rest, k <= (List.length str1) ->
               matrix_get (above ++ rest) i' k = Some (cell str1 str2 i' k)).
    { intros k rest Hk. rewrite (matrix_get_above above rest i' k _ Hprev).
      unfold full_row. now rewrite nth_error_map_seq by lia. }
    assert (Hcur : matrix_get
                     (above ++ List.map (cell str1 str2 (S i')) (seq 0 (S j')) :: below)
                     (S i') j' = Some (cell str1 str2 (S i') j')).
    { pose proof (matrix_get_at above
                    (List.map (cell str1 str2 (S i')) (seq 0 (S j'))) below j') as H.
      rewrite Hlen in H. rewrite H. now rewrite nth_error_map_seq by lia. }
    assert (Hset : forall v,
               matrix_set
                 (above ++ List.map (cell str1 str2 (S i')) (seq 0 (S j')) :: below)
                 (S i') (S j') v
               = Some (above ++ (List.map (cell str1 str2 (S i')) (seq 0 (S j')) ++ [v])
                         :: below)).
    { intros v.
      pose proof (matrix_set_push above
                    (List.map (cell str1 str2 (S i')) (seq 0 (S j'))) below v) as H.
      now rewrite length_map, length_seq, Hlen in H. }
    assert (Hnext : forall v, v = cell str1 str2 (S i') (S j') ->
               List.map (cell str1 str2 (S i')) (seq 0 (S j')) ++ [v]
               = List.map (cell str1 str2 (S i')) (seq 0 (S (S j')))).
    { intros v ->. rewrite (seq_S (S j') 0), map_app. reflexivity. }
    rewrite (cell_step i' j') in Hnext.
    destruct (JsString.eqb (JsString.charAt str2 i') (JsString.charAt str1 j')).
    + rewrite Hdiag by lia. rewrite Hset, Hnext by reflexivity.
      apply IH; lia.
    + rewrite Hdiag by lia. rewrite Hcur. rewrite Hdiag by lia.
      rewrite Hset, Hnext by reflexivity.
      apply IH; lia.
Qed.

(** Third loop, outer part: the rows are completed from top to bottom. *)
Lemma outer_loop (count i : nat) :
  0 < i -> i + count = (List.length str2) + 1 ->
  for_loop i count
    (fun i matrix =>
       for_loop 1 (List.length str1)
         (fun j matrix =>
            if JsString.eqb (JsString.charAt str2 (i - 1)) (JsString.charAt str1 (j - 1))
            then
              diag <- matrix_get matrix (i - 1) (j - 1) ;;
              matrix_set matrix i j diag
            else
              substitution <- matrix_get matrix (i - 1) (j - 1) ;;
              insertion <- matrix_get matrix i (j - 1) ;;
              deletion <- matrix_get matrix (i - 1) j ;;
              matrix_set matrix i j
                (Nat.min (substitution + 1) (Nat.min (insertion + 1) (deletion + 1))))
         matrix)
    (List.map (full_row str1 str2) (seq 0 i) ++ List.map (fun i => [i]) (seq i count))
  = Some (List.map (full_row str1 str2) (seq 0 ((List.length str2) + 1))).
Proof.
  revert i. induction count as [|count IH]; intros i Hi Hsum.
  - simpl. rewrite app_nil_r. now replace ((List.length str2) + 1) with i by lia.
  - destruct i as [|i']; [lia|].
    cbn [for_loop].
    change (seq (S i') (S count)) with (S i' :: seq (S (S i')) count).
    cbn [List.map].
    change [S i'] with (List.map (cell str1 str2 (S i')) (seq 0 1)).
   
    rewrite (@inner_loop (List.map (full_row str1 str2) (seq 0 (S i')))
               (List.map (fun i => [i]) (seq (S (S i')) count)) i' (List.length str1) 1).
    + specialize (IH (S (S i'))).
      rewrite (seq_S (S i') 0), map_app in IH. cbn [List.map] in IH.
      rewrite <- app_assoc in IH. cbn [app] in IH.
      apply IH; lia.
    + now rewrite length_map, length_seq.
    + rewrite (nth_error_map_seq (full_row str1 str2) 0 (S i') i') by lia.
      reflexivity.
    + lia.
    + lia.
Qed.

Lemma full_row_0 : full_row str1 str2 0 = seq 0 ((List.length str1) + 1).
Proof. unfold full_row. simpl. apply map_id. Qed.

(** The function returns, and what it returns is the recurrence at the two
    lengths. *)
Lemma levenshteinDistance_cell :
  levenshteinDistance str1 str2 = Some (cell str1 str2 (List.length str2) (List.length str1)).
Proof.
  unfold levenshteinDistance.
  pose proof (first_loop ((List.length str2) + 1) 0) as H1. simpl in H1. rewrite H1. clear H1.
  replace ((List.length str2) + 1) with (S (List.length str2)) by lia. cbn [seq List.map].
  replace ((List.length str1) + 1) with (S (List.length str1)) by lia.
  cbn [for_loop].
  change (matrix_set ([0] :: List.map (fun i => [i]) (seq 1 (List.length str2))) 0 0 0)
    with (Some ([0] :: List.map (fun i => [i]) (seq 1 (List.length str2)))).
  cbv beta iota.
  pose proof (@second_loop (List.map (fun i => [i]) (seq 1 (List.length str2))) (List.length str1) 1) as H2.
  cbn [seq] in H2. rewrite H2 by lia. clear H2.
  pose proof (outer_loop (List.length str2) 1) as H3. cbn [seq List.map] in H3.
  rewrite full_row_0 in H3. replace ((List.length str1) + 1) with (S (List.length str1)) in H3 by lia.
  cbn [app] in H3. change (1 + (List.length str1)) with (S (List.length str1)).
  rewrite H3 by lia. clear H3.
  unfold matrix_get.
  rewrite (nth_error_map_seq (full_row str1 str2) 0 ((List.length str2) + 1) (List.length str2)) by lia.
  unfold full_row.
  now rewrite nth_error_map_seq by lia.
Qed.

End Levenshtein.

Lemma cell_transpose (str1 str2 : jsstring) (i j : nat) :
  cell str1 str2 i j = cell str2 str1 j i.
Proof.
  revert j. induction i as [|i' IHi]; intros j.
  - simpl. now rewrite cell_row_start.
  - induction j as [|j' IHj]; [reflexivity|].
    rewrite !cell_step.
    rewrite (JsStringFacts.eqb_sym (JsString.charAt str2 i')).
    rewrite (IHi j'), (IHi (S j')), IHj.
    destruct (JsString.eqb (JsString.charAt str1 j') (JsString.charAt str2 i'));
      [reflexivity | lia].
Qed.

Lemma levenshteinDistance_sym (str1 str2 : jsstring) :
  levenshteinDistance str1 str2 = levenshteinDistance str2 str1.
Proof.
  rewrite !levenshteinDistance_cell. f_equal. apply cell_transpose.
Qed.

(** C6. [fuzzyMatch] gives the same answer when its two strings are swapped,
    for every threshold. *)
Theorem C6_fuzzyMatch_symmetric (a b : jsstring) (t : Q) :
  fuzzyMatch a b t = fuzzyMatch b a t.
Proof.
  unfold fuzzyMatch.
  rewrite (JsStringFacts.eqb_sym a b).
  rewrite (orb_comm (List.length a <? 3)).
  rewrite (orb_comm (JsString.includes a b)).
  rewrite (levenshteinDistance_sym a b).
  rewrite (Nat.max_comm (List.length a)).
  reflexivity.
Qed.

Example levenshtein_kitten_sitting :
  levenshteinDistance (JsString.lit "kitten") (JsString.lit "sitting") = Some 3.
Proof. vm_compute. reflexivity. Qed.

Example fuzzyMatch_typo :
  fuzzyMatch (JsString.lit "drss") (JsString.lit "dress") default_threshold = true
  /\ fuzzyMatch (JsString.lit "shoes") (JsString.lit "dress") default_threshold = false.
Proof. split; vm_compute; reflexivity. Qed.

Lemma fuzzyMatch_refl (a : jsstring) (t : Q) : fuzzyMatch a a t = true.
Proof. unfold fuzzyMatch. now rewrite JsStringFacts.eqb_refl. Qed.

(** ** Sorting *)

Section SortFacts.

Variable A : Type.
Variable comparefn : A -> A -> option Q.
(** [le a b]: [a] may stand before [b]; [same]: equal sort keys;
    [ok]: the elements on which [comparefn] is defined. *)
Variable le : A -> A -> Prop.
Variable same : A -> A -> bool.
Variable ok : A -> Prop.

Hypothesis comparefn_defined :
  forall a b, ok a -> ok b -> exists v, comparefn a b = Some v.
Hypothesis comparefn_positive :
  forall a b v, ok a -> ok b -> comparefn a b = Some v -> (0 < v)%Q ->
                le b a /\ forall z, same z a = true -> same z b = false.
Hypothesis comparefn_not_positive :
  forall a b v, ok a -> ok b -> comparefn a b = Some v -> (v <= 0)%Q -> le a b.
Hypothesis le_trans : forall a b c, le a b -> le b c -> le a c.

Lemma sort_insert_spec (x : A) (l : list A) :
  ok x -> Forall ok l -> StronglySorted le l ->
  exists l', sort_insert comparefn x l = Some l'
             /\ Permutation (x :: l) l'
             /\ StronglySorted le l'
             /\ forall z, filter (same z) l' = filter (same z) (x :: l).
Proof.
  intros Hx Hok Hsorted.
  induction l as [|y l IH].
  - exists [x]. repeat split; auto. constructor; constructor.
  - apply Forall_cons_iff in Hok. destruct Hok as [Hy Hok].
    apply StronglySorted_inv in Hsorted. destruct Hsorted as [Hsorted Hall].
    destruct (comparefn_defined x y Hx Hy) as [v Hv].
    cbn [sort_insert]. rewrite Hv.
    destruct (Qlt_le_dec 0 v) as [Hpos | Hneg].
    + destruct (IH Hok Hsorted) as [rest [Hrest [Hperm [Hsort Hstable]]]].
      rewrite Hrest. exists (y :: rest).
      destruct (comparefn_positive x y v Hx Hy Hv Hpos) as [Hle Hsame].
      repeat split.
      * rewrite perm_swap. now constructor.
      * constructor; [assumption|].
        eapply Permutation_Forall; [exact Hperm|].
        constructor; assumption.
      * intros z. cbn [filter]. rewrite Hstable. cbn [filter].
        destruct (same z x) eqn:Ezx; [|reflexivity].
        now rewrite (Hsame z Ezx).
    + exists (x :: y :: l).
      pose proof (comparefn_not_positive x y v Hx Hy Hv Hneg) as Hle.
      repeat split; auto.
      constructor; [constructor; assumption|].
      constructor; [assumption|].
      eapply Forall_impl; [|exact Hall]. intros z Hz. eapply le_trans; eauto.
Qed.

Lemma Array_sort_spec (l : list A) :
  Forall ok l ->
  exists l', Array_sort comparefn l = Some l'
             /\ Permutation l l'
             /\ StronglySorted le l'
             /\ forall z, filter (same z) l' = filter (same z) l.
Proof.
  induction 1 as [|x l Hx Hok IH].
  - exists []. repeat split; auto. constructor.
  - destruct IH as [sorted [Hsorted [Hperm [Hsort Hstable]]]].
    cbn [Array_sort]. rewrite Hsorted.
    assert (Hok' : Forall ok sorted) by (eapply Permutation_Forall; eauto).
    destruct (sort_insert_spec x sorted Hx Hok' Hsort)
      as [l' [Hl' [Hperm' [Hsort' Hstable']]]].
    exists l'. repeat split; auto.
    + etransitivity; [|exact Hperm']. now constructor.
    + intros z. rewrite Hstable'. cbn [filter]. now rewrite Hstable.
Qed.

End SortFacts.

(** *** The comparison function of [performAdvancedSearch] *)

Lemma compareResults_confidence (a b : SearchResult.t) :
  has_product a -> has_product b ->
  exists v, compareResults a b = Some v
    /\ ((0 < v)%Q -> ranks_no_lower b a /\ forall z, same_keys z a = true -> same_keys z b = false)
    /\ ((v <= 0)%Q -> ranks_no_lower a b).
Proof.
  unfold has_product, compareResults, ranks_no_lower, same_keys, confidence.
  intros Ha Hb.
  destruct (SearchResult.product a) as [pa|]; [|congruence].
  destruct (SearchResult.product b) as [pb|]; [|congruence].
  destruct (Qeq_bool (SearchResult.score b) (SearchResult.score a)) eqn:Es; cbn [negb].
  - apply Qeq_bool_iff in Es.
    destruct (Qeq_bool (SearchResult.coverage b) (SearchResult.coverage a)) eqn:Ec; cbn [negb].
    + apply Qeq_bool_iff in Ec.
      eexists. split; [reflexivity|]. split.
      * intros Hv. split; [right; split; [lra|]; right; split; lra|].
        intros z Hz. apply andb_prop in Hz. destruct Hz as [Hz1 Hz2].
        apply Qeq_bool_iff in Hz2.
        destruct (Qeq_bool (match SearchResult.product z with
                            | Some p => or_zero (Product.confidence_score p)
                            | None => 0%Q end)
                           (or_zero (Product.confidence_score pb))) eqn:E;
          [|now rewrite andb_false_r].
        apply Qeq_bool_iff in E. lra.
      * intros Hv. right; split; [lra|]. right; split; lra.
    + apply Qeq_bool_neq in Ec.
      eexists. split; [reflexivity|]. split.
      * intros Hv. split; [right; split; [lra|]; left; lra|].
        intros z Hz. apply andb_prop in Hz. destruct Hz as [Hz1 _].
        apply andb_prop in Hz1. destruct Hz1 as [_ Hz1].
        apply Qeq_bool_iff in Hz1.
        destruct (Qeq_bool (SearchResult.coverage z) (SearchResult.coverage b)) eqn:E;
          [|now rewrite andb_false_r].
        apply Qeq_bool_iff in E. lra.
      * intros Hv. right; split; [lra|]. left.
        destruct (Qlt_le_dec (SearchResult.coverage b) (SearchResult.coverage a)); [assumption|].
        exfalso. apply Ec. lra.
  - apply Qeq_bool_neq in Es.
    eexists. split; [reflexivity|]. split.
    + intros Hv. split; [left; lra|].
      intros z Hz. apply andb_prop in Hz. destruct Hz as [Hz1 _].
      apply andb_prop in Hz1. destruct Hz1 as [Hz1 _].
      apply Qeq_bool_iff in Hz1.
      destruct (Qeq_bool (SearchResult.score z) (SearchResult.score b)) eqn:E;
        [|reflexivity].
      apply Qeq_bool_iff in E. lra.
    + intros Hv. left.
      destruct (Qlt_le_dec (SearchResult.score b) (SearchResult.score a)); [assumption|].
      exfalso. apply Es. lra.
Qed.

Lemma ranks_no_lower_trans (a b c : SearchResult.t) :
  ranks_no_lower a b -> ranks_no_lower b c -> ranks_no_lower a c.
Proof.
  unfold ranks_no_lower.
  intros [H1 | [H1 [H2 | [H2 H3]]]] [G1 | [G1 [G2 | [G2 G3]]]];
    try (left; lra);
    try (right; split; [lra|]; left; lra);
    right; split; [lra|]; right; split; lra.
Qed.

Lemma sort_results (results : list SearchResult.t) :
  Forall has_product results ->
  exists sorted, Array_sort compareResults results = Some sorted
     /\ Permutation results sorted
     /\ StronglySorted ranks_no_lower sorted
     /\ forall z, filter (same_keys z) sorted = filter (same_keys z) results.
Proof.
  apply (Array_sort_spec SearchResult.t compareResults ranks_no_lower same_keys has_product).
  - intros a b Ha Hb.
    destruct (compareResults_confidence a b Ha Hb) as [v [Hv _]]. eauto.
  - intros a b v Ha Hb Hv Hpos.
    destruct (compareResults_confidence a b Ha Hb) as [v' [Hv' [H _]]].
    rewrite Hv in Hv'. injection Hv' as <-. auto.
  - intros a b v Ha Hb Hv Hneg.
    destruct (compareResults_confidence a b Ha Hb) as [v' [Hv' [_ H]]].
    rewrite Hv in Hv'. injection Hv' as <-. auto.
  - exact ranks_no_lower_trans.
Qed.

(** ** The index *)

Lemma length_map_indexed {A B : Type} (f : A -> nat -> B) (a : list A) (first : nat) :
  List.length (map_indexed f a first) = List.length a.
Proof.
  revert first. induction a as [|x a IH]; intros first; simpl; [reflexivity|].
  now rewrite IH.
Qed.

Lemma nth_error_map_indexed {A B : Type} (f : A -> nat -> B) (a : list A) (first i : nat) :
  nth_error (map_indexed f a first) i
  = option_map (fun x => f x (first + i)) (nth_error a i).
Proof.
  revert first i. induction a as [|x a IH]; intros first i.
  - destruct i; reflexivity.
  - destruct i as [|i]; simpl.
    + now rewrite Nat.add_0_r.
    + rewrite IH. now rewrite Nat.add_succ_r.
Qed.

Lemma tokenize_or_empty (text : option jsstring) :
  tokenize (Some (or_empty text)) = tokenize text.
Proof. destruct text as [[|c s]|]; reflexivity. Qed.

Lemma indexed_entry (this : FashionCatalogue) (i : nat) (entry : IndexEntry.t) :
  indexed this ->
  nth_error (searchIndex this) i = Some entry ->
  exists product, nth_error (allProducts this) i = Some product
                  /\ entry = indexEntry product i.
Proof.
  unfold indexed. intros -> H. simpl in H.
  rewrite nth_error_map_indexed in H.
  destruct (nth_error (allProducts this) i) as [product|]; [|discriminate].
  exists product. simpl in H. split; congruence.
Qed.

(** C7. [buildSearchIndex] makes one entry per product, at the product's
    position and carrying that position; the entry's tokens are those of the
    product's title and description, none when the field is missing; and
    [allTokens] is [titleTokens] followed by [descriptionTokens]. *)
Theorem C7_buildSearchIndex_positional (this : FashionCatalogue) :
  let index := searchIndex (buildSearchIndex this) in
  List.length index = List.length (allProducts this)
  /\ forall i,
      match nth_error (allProducts this) i with
      | Some product =>
          exists entry,
            nth_error index i = Some entry
            /\ IndexEntry.productIndex entry = i
            /\ IndexEntry.titleTokens entry
               = match title_of product with
                 | Some title => tokenize (Some title)
                 | None => []
                 end
            /\ IndexEntry.descriptionTokens entry
               = match description_of product with
                 | Some description => tokenize (Some description)
                 | None => []
                 end
            /\ IndexEntry.allTokens entry
               = IndexEntry.titleTokens entry ++ IndexEntry.descriptionTokens entry
      | None => nth_error index i = None
      end.
Proof.
  cbv zeta. unfold buildSearchIndex. cbn [searchIndex]. split.
  - apply length_map_indexed.
  - intros i. rewrite nth_error_map_indexed.
    destruct (nth_error (allProducts this) i) as [product|]; [|reflexivity].
    exists (indexEntry product i). cbn [option_map indexEntry IndexEntry.productIndex
      IndexEntry.titleTokens IndexEntry.descriptionTokens IndexEntry.allTokens].
    rewrite !tokenize_or_empty.
    repeat split.
    + destruct (title_of product); reflexivity.
    + destruct (description_of product); reflexivity.
Qed.
(** ** Rounding to binary64 *)

Lemma pow2_pos (k : Z) : (0 < pow2 k)%Q.
Proof. apply Qpower_0_lt. reflexivity. Qed.

Lemma pow2_add (a b : Z) : (pow2 (a + b) == pow2 a * pow2 b)%Q.
Proof. apply Qpower_plus. discriminate. Qed.

Lemma pow2_le (a b : Z) : (a <= b)%Z -> (pow2 a <= pow2 b)%Q.
Proof. intros H. apply Qpower_le_compat_l; [exact H | discriminate]. Qed.

Lemma pow2_lt_inv (a b : Z) : (pow2 a < pow2 b)%Q -> (a < b)%Z.
Proof. intros H. apply (Qpower_lt_compat_l_inv 2); [exact H | reflexivity]. Qed.

Lemma pow2_Z (k : Z) : (0 <= k)%Z -> (pow2 k == inject_Z (2 ^ k))%Q.
Proof. intros H. unfold pow2. now rewrite Zpower_Qpower. Qed.

Lemma pow2_succ (k : Z) : (pow2 (k + 1) == 2 * pow2 k)%Q.
Proof. rewrite pow2_add. change (pow2 1) with 2%Q. ring. Qed.

(** *** The nearest integer *)

Lemma round_half_even_near (q : Q) :
  (q - (1 # 2) <= inject_Z (round_half_even q) <= q + (1 # 2))%Q.
Proof.
  unfold round_half_even. cbv zeta.
  pose proof (Qfloor_le q) as Hlo. pose proof (Qlt_floor q) as Hhi.
  rewrite inject_Z_plus in Hhi. change (inject_Z 1) with 1%Q in Hhi.
  destruct (Qcompare_spec (q - inject_Z (Qfloor q)) (1 # 2)%Q) as [E | E | E].
  - destruct (Z.even (Qfloor q)).
    + split; lra.
    + rewrite inject_Z_plus. change (inject_Z 1) with 1%Q. split; lra.
  - split; lra.
  - rewrite inject_Z_plus. change (inject_Z 1) with 1%Q. split; lra.
Qed.

Lemma round_half_even_comp (q q' : Q) :
  (q == q')%Q -> round_half_even q = round_half_even q'.
Proof.
  intros H. unfold round_half_even. cbv zeta.
  rewrite (Qfloor_comp q q' H).
  assert (E : (q - inject_Z (Qfloor q') == q' - inject_Z (Qfloor q'))%Q) by (rewrite H; reflexivity).
  now rewrite (Qcompare_comp _ _ E (1 # 2)%Q (1 # 2)%Q (Qeq_refl _)).
Qed.

Lemma round_half_even_Z (q : Q) (n : Z) :
  (q == inject_Z n)%Q -> round_half_even q = n.
Proof.
  intros H. rewrite (round_half_even_comp q (inject_Z n) H).
  unfold round_half_even. cbv zeta. rewrite Qfloor_Z.
  destruct (Qcompare_spec (inject_Z n - inject_Z n) (1 # 2)%Q) as [E | E | E];
    [exfalso; lra | reflexivity | exfalso; lra].
Qed.

Lemma round_half_even_le (q q' : Q) :
  (q <= q')%Q -> (round_half_even q <= round_half_even q')%Z.
Proof.
  intros H. pose proof (Qfloor_resp_le q q' H) as Hf.
  assert (Hup : (round_half_even q <= Qfloor q + 1)%Z).
  { unfold round_half_even. cbv zeta.
    destruct (q - inject_Z (Qfloor q) ?= 1 # 2)%Q; [destruct (Z.even _)| |]; lia. }
  assert (Hdown : (Qfloor q' <= round_half_even q')%Z).
  { unfold round_half_even. cbv zeta.
    destruct (q' - inject_Z (Qfloor q') ?= 1 # 2)%Q; [destruct (Z.even _)| |]; lia. }
  destruct (Z.eq_dec (Qfloor q) (Qfloor q')) as [E | E]; [|lia].
  clear Hup Hdown. unfold round_half_even. cbv zeta. rewrite <- E.
  destruct (Qcompare_spec (q - inject_Z (Qfloor q)) (1 # 2)%Q) as [E1 | E1 | E1];
    destruct (Qcompare_spec (q' - inject_Z (Qfloor q)) (1 # 2)%Q) as [E2 | E2 | E2];
    try (exfalso; lra); try lia; destruct (Z.even (Qfloor q)); lia.
Qed.

(** *** The binade of a positive number *)

Lemma binade_spec (x : Q) :
  (0 < x)%Q -> (pow2 (binade x) <= x < pow2 (binade x + 1))%Q.
Proof.
  intros Hx. destruct x as [n d]. unfold binade. cbn [Qnum Qden].
  assert (Hn : (0 < n)%Z) by (unfold Qlt in Hx; simpl in Hx; lia).
  set (a := Z.log2 n). set (b := Z.log2 (Z.pos d)).
  assert (Ha : (0 <= a)%Z) by apply Z.log2_nonneg.
  assert (Hb : (0 <= b)%Z) by apply Z.log2_nonneg.
  destruct (Z.log2_spec n Hn) as [Ha1 Ha2]. fold a in Ha1, Ha2.
  destruct (Z.log2_spec (Z.pos d) (Pos2Z.is_pos d)) as [Hb1 Hb2]. fold b in Hb1, Hb2.
  rewrite <- Z.add_1_r in Ha2, Hb2.
  rewrite Zle_Qle, <- pow2_Z in Ha1, Hb1 by assumption.
  rewrite Zlt_Qlt, <- pow2_Z in Ha2, Hb2 by lia.
  set (N := inject_Z n) in *. set (D := inject_Z (Z.pos d)) in *.
  assert (HD : (0 < D)%Q) by (unfold D; change 0%Q with (inject_Z 0); rewrite <- Zlt_Qlt; lia).
  assert (Ex : (n # d == N / D)%Q) by apply Qmake_Qdiv.
  destruct (Qle_bool (pow2 (a - b)) (n # d)) eqn:Et.
  - apply Qle_bool_iff in Et. split; [exact Et|].
    rewrite Ex. apply Qlt_shift_div_r; [exact HD|].
    apply Qlt_le_trans with (pow2 (a + 1)); [exact Ha2|].
    replace (a + 1)%Z with ((a - b + 1) + b)%Z by lia. rewrite pow2_add.
    apply Qmult_le_l; [apply pow2_pos | exact Hb1].
  - assert (Hlt : (n # d < pow2 (a - b))%Q).
    { apply Qnot_le_lt. intros H. apply Qle_bool_iff in H. congruence. }
    replace (a - b - 1 + 1)%Z with (a - b)%Z by lia. split; [|exact Hlt].
    rewrite Ex. apply Qle_shift_div_l; [exact HD|].
    apply Qle_trans with (pow2 a); [|exact Ha1].
    replace a with ((a - b - 1) + (b + 1))%Z at 2 by lia. rewrite pow2_add.
    apply Qmult_le_l; [apply pow2_pos | apply Qlt_le_weak; exact Hb2].
Qed.

Lemma binade_unique (x : Q) (k : Z) :
  (pow2 k <= x < pow2 (k + 1))%Q -> binade x = k.
Proof.
  intros [Hlo Hhi].
  assert (Hx : (0 < x)%Q) by (pose proof (pow2_pos k); lra).
  destruct (binade_spec x Hx) as [Hlo' Hhi'].
  assert (H1 : (k < binade x + 1)%Z) by (apply pow2_lt_inv; lra).
  assert (H2 : (binade x < k + 1)%Z) by (apply pow2_lt_inv; lra).
  lia.
Qed.

Lemma binade_comp (x y : Q) : (0 < x)%Q -> (x == y)%Q -> binade x = binade y.
Proof.
  intros Hx E. symmetry. apply binade_unique. rewrite <- E. now apply binade_spec.
Qed.

Lemma binade_le (x y : Q) : (0 < x)%Q -> (x <= y)%Q -> (binade x <= binade y)%Z.
Proof.
  intros Hx Hxy.
  destruct (binade_spec x Hx) as [Hlo _].
  destruct (binade_spec y) as [_ Hhi]; [lra|].
  assert (H : (binade x < binade y + 1)%Z) by (apply pow2_lt_inv; lra).
  lia.
Qed.

(** *** The nearest binary64 number *)

Lemma binary64_0 (x : Q) : (x == 0)%Q -> binary64 x = 0%Q.
Proof.
  intros H. unfold binary64.
  destruct (Qcompare_spec x 0%Q) as [E | E | E]; [reflexivity | exfalso; lra | exfalso; lra].
Qed.

Lemma binary64_positive (x : Q) :
  (0 < x)%Q ->
  binary64 x
  = (inject_Z (round_half_even (x / pow2 (binade x - 52))) * pow2 (binade x - 52))%Q.
Proof.
  intros H. unfold binary64.
  destruct (Qcompare_spec x 0%Q) as [E | E | E]; [exfalso; lra | exfalso; lra | reflexivity].
Qed.

(** The significand of a positive number lies between [2 ** 52] and
    [2 ** 53]. *)
Lemma scaled_bounds (x : Q) :
  (0 < x)%Q ->
  (pow2 52 <= x / pow2 (binade x - 52) < pow2 53)%Q.
Proof.
  intros Hx. destruct (binade_spec x Hx) as [Hlo Hhi].
  pose proof (pow2_pos (binade x - 52)) as Hu.
  split.
  - apply Qle_shift_div_l; [exact Hu|]. rewrite <- pow2_add.
    now replace (52 + (binade x - 52))%Z with (binade x) by lia.
  - apply Qlt_shift_div_r; [exact Hu|]. rewrite <- pow2_add.
    now replace (53 + (binade x - 52))%Z with (binade x + 1)%Z by lia.
Qed.

Lemma significand_bounds (x : Q) :
  (0 < x)%Q ->
  (2 ^ 52 <= round_half_even (x / pow2 (binade x - 52)) <= 2 ^ 53)%Z.
Proof.
  intros Hx. destruct (scaled_bounds x Hx) as [Hlo Hhi].
  split.
  - rewrite <- (round_half_even_Z (pow2 52) (2 ^ 52)) by (apply pow2_Z; lia).
    now apply round_half_even_le.
  - rewrite <- (round_half_even_Z (pow2 53) (2 ^ 53)) by (apply pow2_Z; lia).
    apply round_half_even_le. lra.
Qed.

(** Rounding does not leave the binade. *)
Lemma binary64_binade (x : Q) :
  (0 < x)%Q -> (pow2 (binade x) <= binary64 x <= pow2 (binade x + 1))%Q.
Proof.
  intros Hx. rewrite (binary64_positive x Hx).
  destruct (significand_bounds x Hx) as [Hlo Hhi].
  rewrite Zle_Qle, <- pow2_Z in Hlo, Hhi by lia.
  pose proof (pow2_pos (binade x - 52)) as Hu.
  split.
  - replace (binade x) with (52 + (binade x - 52))%Z at 1 by lia. rewrite pow2_add.
    apply Qmult_le_r; assumption.
  - replace (binade x + 1)%Z with (53 + (binade x - 52))%Z by lia. rewrite pow2_add.
    apply Qmult_le_r; assumption.
Qed.

Lemma binary64_pos (x : Q) : (0 < x)%Q -> (0 < binary64 x)%Q.
Proof.
  intros Hx. destruct (binary64_binade x Hx) as [H _].
  pose proof (pow2_pos (binade x)). lra.
Qed.

Lemma binary64_nonneg (x : Q) : (0 <= x)%Q -> (0 <= binary64 x)%Q.
Proof.
  intros Hx. destruct (Qlt_le_dec 0%Q x) as [H | H].
  - apply Qlt_le_weak. now apply binary64_pos.
  - rewrite binary64_0 by lra. lra.
Qed.

#[global] Instance binary64_comp : Proper (Qeq ==> Qeq) binary64.
Proof.
  intros x y E. unfold binary64.
  rewrite (Qcompare_comp x y E 0%Q 0%Q (Qeq_refl 0%Q)).
  destruct (Qcompare_spec y 0%Q) as [H | H | H]; [reflexivity | |]; cbv zeta.
  - assert (Hx : (0 < - x)%Q) by lra.
    assert (E' : (- x == - y)%Q) by (rewrite E; reflexivity).
    rewrite (binade_comp (- x) (- y) Hx E').
    rewrite (round_half_even_comp (- x / pow2 (binade (- y) - 52))
                                  (- y / pow2 (binade (- y) - 52)));
      [reflexivity | now rewrite E].
  - assert (Hx : (0 < x)%Q) by lra.
    rewrite (binade_comp x y Hx E).
    rewrite (round_half_even_comp (x / pow2 (binade y - 52)) (y / pow2 (binade y - 52)));
      [reflexivity | now rewrite E].
Qed.

(** Rounding is monotone on the numbers that are not negative. *)
Lemma binary64_le (x y : Q) :
  (0 <= x)%Q -> (x <= y)%Q -> (binary64 x <= binary64 y)%Q.
Proof.
  intros Hx Hxy. destruct (Qlt_le_dec 0%Q x) as [Hpos | Hzero].
  - assert (Hy : (0 < y)%Q) by lra.
    pose proof (binade_le x y Hpos Hxy) as Hb.
    destruct (Z.eq_dec (binade x) (binade y)) as [E | E].
    + rewrite (binary64_positive x Hpos), (binary64_positive y Hy), E.
      pose proof (pow2_pos (binade y - 52)) as Hu.
      apply Qmult_le_r; [exact Hu|]. rewrite <- Zle_Qle.
      apply round_half_even_le. unfold Qdiv. apply Qmult_le_r; [|exact Hxy].
      now apply Qinv_lt_0_compat.
    + destruct (binary64_binade x Hpos) as [_ Hhi].
      destruct (binary64_binade y Hy) as [Hlo _].
      assert (Hp : (pow2 (binade x + 1) <= pow2 (binade y))%Q) by (apply pow2_le; lia).
      lra.
  - rewrite (binary64_0 x) by lra. apply binary64_nonneg. lra.
Qed.

(** The relative error of rounding is at most [2 ** -53]. *)
Lemma binary64_error (x : Q) :
  (0 <= x)%Q ->
  ((1 - pow2 (-53)) * x <= binary64 x <= (1 + pow2 (-53)) * x)%Q.
Proof.
  intros Hx. destruct (Qlt_le_dec 0%Q x) as [Hpos | Hzero].
  - rewrite (binary64_positive x Hpos).
    set (u := pow2 (binade x - 52)).
    assert (Hu : (0 < u)%Q) by apply pow2_pos.
    pose proof (round_half_even_near (x / u)) as [Hlo Hhi].
    destruct (scaled_bounds x Hpos) as [Hs _]. fold u in Hs.
    set (m := inject_Z (round_half_even (x / u))) in *.
    assert (Ex : (x == x / u * u)%Q) by (field; lra).
    set (q := (x / u)%Q) in *.
    assert (Hhalf : ((1 # 2) <= pow2 (-53) * q)%Q).
    { apply Qle_trans with (pow2 (-53) * pow2 52)%Q.
      - rewrite <- pow2_add. vm_compute. discriminate.
      - apply Qmult_le_l; [apply pow2_pos | exact Hs]. }
    rewrite Ex.
    split.
    + setoid_replace ((1 - pow2 (-53)) * (q * u))%Q with ((q - pow2 (-53) * q) * u)%Q by ring.
      apply Qmult_le_r; [exact Hu | lra].
    + setoid_replace ((1 + pow2 (-53)) * (q * u))%Q with ((q + pow2 (-53) * q) * u)%Q by ring.
      apply Qmult_le_r; [exact Hu | lra].
  - rewrite (binary64_0 x) by lra.
    assert (E : (x == 0)%Q) by lra. rewrite E. split; lra.
Qed.

(** A number with a significand of 53 bits is not changed. *)
Lemma binary64_exact (m e : Z) :
  (2 ^ 52 <= m < 2 ^ 53)%Z ->
  (binary64 (inject_Z m * pow2 e) == inject_Z m * pow2 e)%Q.
Proof.
  intros [Hlo Hhi].
  pose proof (pow2_pos e) as He.
  assert (Hlo' : (pow2 52 <= inject_Z m)%Q) by (rewrite pow2_Z, <- Zle_Qle by lia; exact Hlo).
  assert (Hhi' : (inject_Z m < pow2 53)%Q) by (rewrite pow2_Z, <- Zlt_Qlt by lia; exact Hhi).
  assert (Hm : (0 < inject_Z m)%Q) by (pose proof (pow2_pos 52); lra).
  assert (Hx : (0 < inject_Z m * pow2 e)%Q) by (apply Qmult_lt_0_compat; assumption).
  assert (Hb : binade (inject_Z m * pow2 e) = (52 + e)%Z).
  { apply binade_unique. split.
    - rewrite pow2_add. apply Qmult_le_r; assumption.
    - replace (52 + e + 1)%Z with (53 + e)%Z by lia. rewrite pow2_add.
      apply Qmult_lt_r; assumption. }
  rewrite (binary64_positive _ Hx), Hb.
  replace (52 + e - 52)%Z with e by lia.
  rewrite (round_half_even_Z (inject_Z m * pow2 e / pow2 e) m); [reflexivity|].
  field. lra.
Qed.

Lemma binary64_idempotent (x : Q) : (0 <= x)%Q -> (binary64 (binary64 x) == binary64 x)%Q.
Proof.
  intros Hx. destruct (Qlt_le_dec 0%Q x) as [Hpos | Hzero].
  - rewrite (binary64_positive x Hpos).
    destruct (significand_bounds x Hpos) as [Hlo Hhi].
    set (m := round_half_even (x / pow2 (binade x - 52))) in *.
    set (e := (binade x - 52)%Z).
    destruct (Z.eq_dec m (2 ^ 53)) as [E | E].
    + assert (Eq : (inject_Z m * pow2 e == inject_Z (2 ^ 52) * pow2 (e + 1))%Q).
      { rewrite E, pow2_succ. rewrite <- !pow2_Z by lia.
        setoid_replace (pow2 53) with (2 * pow2 52)%Q by (symmetry; apply (pow2_succ 52)).
        ring. }
      rewrite Eq. apply binary64_exact. lia.
    + apply binary64_exact. lia.
  - rewrite (binary64_0 x) by lra. now rewrite binary64_0.
Qed.

(** Doubling is exact. *)
Lemma binary64_double (x : Q) : (0 <= x)%Q -> (binary64 (x * 2) == binary64 x * 2)%Q.
Proof.
  intros Hx. destruct (Qlt_le_dec 0%Q x) as [Hpos | Hzero].
  - assert (Hpos' : (0 < x * 2)%Q) by lra.
    destruct (binade_spec x Hpos) as [Hlo Hhi].
    assert (Hb : binade (x * 2) = (binade x + 1)%Z).
    { apply binade_unique. rewrite !pow2_succ in *. split; lra. }
    rewrite (binary64_positive _ Hpos'), (binary64_positive _ Hpos), Hb.
    replace (binade x + 1 - 52)%Z with (binade x - 52 + 1)%Z by lia.
    pose proof (pow2_pos (binade x - 52)) as Hu.
    rewrite (round_half_even_comp (x * 2 / pow2 (binade x - 52 + 1))
                                  (x / pow2 (binade x - 52))).
    + rewrite pow2_succ. ring.
    + rewrite pow2_succ. field. lra.
  - rewrite (binary64_0 x), (binary64_0 (x * 2)) by lra. reflexivity.
Qed.

(** ** The scorer *)

Lemma Q_of_nat_S (n : nat) : (Q_of_nat (S n) == Q_of_nat n + 1)%Q.
Proof.
  unfold Q_of_nat. rewrite Nat2Z.inj_succ, <- Z.add_1_r, inject_Z_plus. reflexivity.
Qed.

Lemma Q_of_nat_0 : Q_of_nat 0 = 0%Q.
Proof. reflexivity. Qed.

Lemma Q_of_nat_nonneg (n : nat) : (0 <= Q_of_nat n)%Q.
Proof.
  unfold Q_of_nat. change 0%Q with (inject_Z 0). rewrite <- Zle_Qle. lia.
Qed.

Lemma Q_of_nat_pos (n : nat) : 0 < n -> (1 <= Q_of_nat n)%Q.
Proof.
  intros H. unfold Q_of_nat. change 1%Q with (inject_Z 1). rewrite <- Zle_Qle. lia.
Qed.

Lemma forEach_invariant {A S : Type} (P : S -> Prop) (body : S -> A -> S)
      (a : list A) (s : S) :
  P s -> (forall s x, In x a -> P s -> P (body s x)) -> P (forEach body a s).
Proof.
  unfold forEach. revert s. induction a as [|x a IH]; intros s Hs Hstep; [exact Hs|].
  simpl. apply IH.
  - apply Hstep; [now left | exact Hs].
  - intros s' y Hy. apply Hstep. now right.
Qed.

Lemma award_fst (cond : bool) (w : Q) (term : Q * bool) :
  (fst (award cond w term) == fst term + bonus cond w)%Q.
Proof. destruct cond; simpl; lra. Qed.

Lemma award_snd (cond : bool) (w : Q) (term : Q * bool) :
  snd (award cond w term) = snd term || cond.
Proof. destruct cond; simpl; [now rewrite orb_true_r | now rewrite orb_false_r]. Qed.

Lemma forEach_award (f : jsstring -> bool) (w : Q) (tokens : list jsstring)
      (term : Q * bool) :
  let r := forEach (fun term token => award (f token) w term) tokens term in
  (fst r == fst term + w * Q_of_nat (List.length (filter f tokens)))%Q
  /\ snd r = snd term || existsb f tokens.
Proof.
  cbv zeta. unfold forEach. revert term.
  induction tokens as [|token tokens IH]; intros term.
  - cbn [fold_left filter existsb List.length]. rewrite Q_of_nat_0.
    split; [lra | now rewrite orb_false_r].
  - cbn [fold_left filter existsb].
    destruct (IH (award (f token) w term)) as [IH1 IH2].
    rewrite IH1, IH2, award_fst, award_snd.
    destruct (f token); cbn [bonus List.length].
    + rewrite Q_of_nat_S. split; [lra | now rewrite orb_assoc].
    + split; [lra | now rewrite orb_assoc].
Qed.

Lemma existsb_filter_length {A : Type} (f : A -> bool) (l : list A) :
  existsb f l = true -> 0 < List.length (filter f l).
Proof.
  induction l as [|x l IH]; simpl; [discriminate|].
  destruct (f x); simpl; [lia | exact IH].
Qed.

Lemma Array_includes_In (a : list jsstring) (x : jsstring) :
  Array_includes a x = true <-> In x a.
Proof.
  unfold Array_includes. rewrite existsb_exists. split.
  - intros [y [Hy E]]. apply JsStringFacts.eqb_eq in E. now subst.
  - intros H. exists x. split; [exact H | apply JsStringFacts.eqb_refl].
Qed.

(** The per-term score is the sum of the six bonuses, and the term is matched
    as soon as one of them is awarded. *)
Lemma termContribution_sum (product : IndexEntry.t) (searchToken : jsstring) :
  (fst (termContribution product searchToken)
   == bonus (Array_includes (IndexEntry.titleTokens product) searchToken) 3
      + 2 * Q_of_nat (fuzzyCount searchToken (IndexEntry.titleTokens product))
      + otherBonuses product searchToken)%Q
  /\ termMatched product searchToken
     = Array_includes (IndexEntry.titleTokens product) searchToken
       || existsb (fun t => fuzzyMatch searchToken t default_threshold)
                  (IndexEntry.titleTokens product)
       || Array_includes (IndexEntry.descriptionTokens product) searchToken
       || existsb (fun t => fuzzyMatch searchToken t default_threshold)
                  (IndexEntry.descriptionTokens product)
       || JsString.includes (IndexEntry.normalizedTitle product) searchToken
       || JsString.includes (IndexEntry.normalizedDescription product) searchToken.
Proof.
  unfold termMatched, termContribution, otherBonuses, fuzzyCount. cbv zeta.
  set (t0 := (0%Q, false)).
  set (t1 := award _ 3 t0).
  set (t2 := forEach _ (IndexEntry.titleTokens product) t1).
  set (t3 := award _ 1 t2).
  set (t4 := forEach _ (IndexEntry.descriptionTokens product) t3).
  set (t5 := award _ 1 t4).
  pose proof (award_fst (Array_includes (IndexEntry.titleTokens product) searchToken) 3 t0) as F1.
  pose proof (award_snd (Array_includes (IndexEntry.titleTokens product) searchToken) 3 t0) as S1.
  destruct (forEach_award (fun t => fuzzyMatch searchToken t default_threshold) 2
              (IndexEntry.titleTokens product) t1) as [F2 S2].
  pose proof (award_fst (Array_includes (IndexEntry.descriptionTokens product) searchToken) 1 t2) as F3.
  pose proof (award_snd (Array_includes (IndexEntry.descriptionTokens product) searchToken) 1 t2) as S3.
  destruct (forEach_award (fun t => fuzzyMatch searchToken t default_threshold) (1 # 2)
              (IndexEntry.descriptionTokens product) t3) as [F4 S4].
  pose proof (award_fst (JsString.includes (IndexEntry.normalizedTitle product) searchToken) 1 t4) as F5.
  pose proof (award_snd (JsString.includes (IndexEntry.normalizedTitle product) searchToken) 1 t4) as S5.
  rewrite award_fst, award_snd.
  fold t1 in F1, S1. fold t2 in F2, S2. fold t3 in F3, S3. fold t4 in F4, S4.
  fold t5 in F5, S5.
  split.
  - rewrite F5, F4, F3, F2, F1. simpl fst. lra.
  - rewrite S5, S4, S3, S2, S1. reflexivity.
Qed.

Lemma bonus_nonneg (cond : bool) (w : Q) : (0 <= w)%Q -> (0 <= bonus cond w)%Q.
Proof. destruct cond; simpl; lra. Qed.

Lemma otherBonuses_nonneg (product : IndexEntry.t) (searchToken : jsstring) :
  (0 <= otherBonuses product searchToken)%Q.
Proof.
  unfold otherBonuses.
  pose proof (bonus_nonneg (Array_includes (IndexEntry.descriptionTokens product) searchToken) 1).
  pose proof (bonus_nonneg (JsString.includes (IndexEntry.normalizedTitle product) searchToken) 1).
  pose proof (bonus_nonneg (JsString.includes (IndexEntry.normalizedDescription product) searchToken) (1 # 2)).
  pose proof (Q_of_nat_nonneg (fuzzyCount searchToken (IndexEntry.descriptionTokens product))).
  lra.
Qed.

(** A matched term scores at least one half. *)
Lemma termContribution_matched (product : IndexEntry.t) (searchToken : jsstring) :
  termMatched product searchToken = true ->
  (1 # 2 <= fst (termContribution product searchToken))%Q.
Proof.
  destruct (termContribution_sum product searchToken) as [F S].
  rewrite F, S. unfold otherBonuses, fuzzyCount.
  set (ft := List.length (filter _ (IndexEntry.titleTokens product))).
  set (fd := List.length (filter _ (IndexEntry.descriptionTokens product))).
  pose proof (Q_of_nat_nonneg ft) as Hft. pose proof (Q_of_nat_nonneg fd) as Hfd.
  intros H.
  pose proof (@existsb_filter_length _ (fun t => fuzzyMatch searchToken t default_threshold)
                (IndexEntry.titleTokens product)) as Et.
  pose proof (@existsb_filter_length _ (fun t => fuzzyMatch searchToken t default_threshold)
                (IndexEntry.descriptionTokens product)) as Ed.
  fold ft in Et. fold fd in Ed.
  destruct (Array_includes (IndexEntry.titleTokens product) searchToken);
    destruct (Array_includes (IndexEntry.descriptionTokens product) searchToken);
    destruct (JsString.includes (IndexEntry.normalizedTitle product) searchToken);
    destruct (JsString.includes (IndexEntry.normalizedDescription product) searchToken);
    cbn [bonus]; try lra.
  cbn [orb] in H. rewrite !orb_false_r in H.
  apply orb_prop in H. destruct H as [H | H].
  - pose proof (Q_of_nat_pos ft (Et H)). lra.
  - pose proof (Q_of_nat_pos fd (Ed H)). lra.
Qed.

(** [scoreTerms] counts the matched terms and adds up their scores. *)
Lemma scoreTerms_fold (product : IndexEntry.t) (searchTokens : list jsstring)
      (score : Q) (matchedTerms : nat) :
  let r := forEach (fun '(score, matchedTerms) searchToken =>
                      let '(termScore, termMatched) := termContribution product searchToken in
                      if termMatched then ((score + termScore)%Q, matchedTerms + 1)
                      else (score, matchedTerms))
                   searchTokens (score, matchedTerms) in
  snd r = matchedTerms + List.length (filter (termMatched product) searchTokens)
  /\ (score + (1 # 2) * Q_of_nat (List.length (filter (termMatched product) searchTokens))
      <= fst r)%Q.
Proof.
  cbv zeta. unfold forEach. revert score matchedTerms.
  induction searchTokens as [|searchToken searchTokens IH]; intros score matchedTerms.
  - cbn [fold_left filter List.length fst snd]. rewrite Q_of_nat_0.
    split; [lia | lra].
  - cbn [fold_left filter].
    pose proof (termContribution_matched product searchToken) as Hm.
    unfold termMatched in *.
    destruct (termContribution product searchToken) as [termScore matched].
    cbn [fst snd] in *. destruct matched.
    + destruct (IH (score + termScore)%Q (matchedTerms + 1)) as [IH1 IH2].
      rewrite IH1. cbn [List.length]. split; [lia|].
      rewrite Q_of_nat_S. specialize (Hm eq_refl). lra.
    + apply IH.
Qed.

Lemma relevanceOf_matchedTerms (product : IndexEntry.t) (searchTokens : list jsstring) :
  Relevance.matchedTerms (relevanceOf product searchTokens)
  = List.length (filter (termMatched product) searchTokens).
Proof.
  unfold relevanceOf, scoreTerms.
  destruct (scoreTerms_fold product searchTokens 0 0) as [H _].
  destruct (forEach _ searchTokens (0%Q, 0)) as [score matchedTerms].
  exact H.
Qed.

Lemma scoreTerms_unmatched (product : IndexEntry.t) (searchTokens : list jsstring)
      (score : Q) (matchedTerms : nat) :
  (forall searchToken, In searchToken searchTokens ->
                       termMatched product searchToken = false) ->
  forEach (fun '(score, matchedTerms) searchToken =>
             let '(termScore, termMatched) := termContribution product searchToken in
             if termMatched then ((score + termScore)%Q, matchedTerms + 1)
             else (score, matchedTerms))
          searchTokens (score, matchedTerms)
  = (score, matchedTerms).
Proof.
  unfold forEach. induction searchTokens as [|t searchTokens IH]; intros H; [reflexivity|].
  cbn [fold_left]. pose proof (H t (or_introl eq_refl)) as Ht.
  unfold termMatched in Ht.
  destruct (termContribution product t) as [termScore matched].
  cbn [snd] in Ht. subst matched. apply IH. intros s Hs. apply H. now right.
Qed.

Lemma filter_nil_all_false {A : Type} (f : A -> bool) (l : list A) :
  filter f l = [] -> forall x, In x l -> f x = false.
Proof.
  induction l as [|y l IH]; intros H x Hx; [destruct Hx|].
  cbn [filter] in H. destruct (f y) eqn:E; [discriminate|].
  destruct Hx as [<- | Hx]; [exact E | now apply IH].
Qed.

Lemma Q_of_nat_le (m n : nat) : m <= n -> (Q_of_nat m <= Q_of_nat n)%Q.
Proof. intros H. unfold Q_of_nat. rewrite <- Zle_Qle. lia. Qed.

Lemma Q_of_nat_lt_0 (n : nat) : 0 < n -> (0 < Q_of_nat n)%Q.
Proof.
  intros H. unfold Q_of_nat. change 0%Q with (inject_Z 0). rewrite <- Zlt_Qlt. lia.
Qed.

(** The fields of a relevance record.  [base] is the sum of the scores of
    the matched terms, to which the rounded coverage bonus is added. *)
Lemma relevanceOf_fields (product : IndexEntry.t) (searchTokens : list jsstring) :
  let relevance := relevanceOf product searchTokens in
  let matched := List.length (filter (termMatched product) searchTokens) in
  exists base : Q,
    Relevance.matchedTerms relevance = matched
    /\ Relevance.totalTerms relevance = List.length searchTokens
    /\ Relevance.coverage relevance
       = binary64 (Q_of_nat matched / Q_of_nat (List.length searchTokens))%Q
    /\ Relevance.score relevance
       = binary64 (base + binary64 (Relevance.coverage relevance * 2))%Q
    /\ ((1 # 2) * Q_of_nat matched <= base)%Q
    /\ (matched = 0 -> base = 0%Q).
Proof.
  cbv zeta. unfold relevanceOf, scoreTerms.
  destruct (scoreTerms_fold product searchTokens 0 0) as [H1 H2].
  pose proof (scoreTerms_unmatched product searchTokens 0 0) as H3.
  destruct (forEach _ searchTokens (0%Q, 0)) as [score matchedTerms].
  cbn [fst snd Relevance.matchedTerms Relevance.totalTerms Relevance.coverage
       Relevance.score] in *.
  rewrite Nat.add_0_l in H1. subst matchedTerms.
  exists score.
  split; [reflexivity|]. split; [reflexivity|]. split; [reflexivity|].
  split; [reflexivity|]. split; [lra|].
  intros Hzero.
  assert (Hnone : forall t, In t searchTokens -> termMatched product t = false).
  { apply filter_nil_all_false. now apply length_zero_iff_nil. }
  specialize (H3 Hnone). now injection H3.
Qed.

(** The coverage is the rounded quotient of the two counts: between 0 and
    1, positive as soon as a term matched, and within a relative error of
    [2 ** -53] of the quotient. *)
Lemma coverage_spec (matched total : nat) :
  matched <= total -> 0 < total ->
  let coverage := binary64 (Q_of_nat matched / Q_of_nat total)%Q in
  (0 <= coverage <= 1)%Q
  /\ (0 < matched -> (0 < coverage)%Q)
  /\ (matched = 0 -> coverage = 0%Q)
  /\ (matched = total -> (coverage == 1)%Q)
  /\ ((1 - pow2 (-53)) * Q_of_nat matched <= coverage * Q_of_nat total
      <= (1 + pow2 (-53)) * Q_of_nat matched)%Q.
Proof.
  intros Hle Htotal. cbv zeta.
  pose proof (Q_of_nat_lt_0 total Htotal) as Hn.
  pose proof (Q_of_nat_nonneg matched) as Hm.
  pose proof (Q_of_nat_le _ _ Hle) as Hmn.
  assert (Hq0 : (0 <= Q_of_nat matched / Q_of_nat total)%Q)
    by (apply Qle_shift_div_l; [exact Hn | lra]).
  assert (Hq1 : (Q_of_nat matched / Q_of_nat total <= 1)%Q)
    by (apply Qle_shift_div_r; [exact Hn | lra]).
  split; [|split; [|split; [|split]]].
  - split; [now apply binary64_nonneg|].
    setoid_replace 1%Q with (binary64 1) by (vm_compute; reflexivity).
    now apply binary64_le.
  - intros Hpos. apply binary64_pos.
    apply Qlt_shift_div_l; [exact Hn|]. pose proof (Q_of_nat_lt_0 matched Hpos). lra.
  - intros ->. apply binary64_0. rewrite Q_of_nat_0. unfold Qdiv. lra.
  - intros ->.
    setoid_replace (Q_of_nat total / Q_of_nat total)%Q with 1%Q by (field; lra).
    vm_compute. reflexivity.
  - destruct (binary64_error _ Hq0) as [Hlo Hhi].
    set (c := binary64 (Q_of_nat matched / Q_of_nat total)) in *.
    assert (E : (Q_of_nat matched == Q_of_nat matched / Q_of_nat total * Q_of_nat total)%Q)
      by (field; lra).
    set (q := (Q_of_nat matched / Q_of_nat total)%Q) in *.
    split.
    + rewrite E. rewrite Qmult_assoc. apply Qmult_le_r; [exact Hn | exact Hlo].
    + rewrite E. rewrite Qmult_assoc. apply Qmult_le_r; [exact Hn | exact Hhi].
Qed.

(** The coverage bonus is twice the coverage: doubling does not round. *)
Lemma coverageBonus_exact (x : Q) :
  (0 <= x)%Q -> (binary64 (binary64 x * 2) == binary64 x * 2)%Q.
Proof.
  intros Hx. rewrite binary64_double by now apply binary64_nonneg.
  now rewrite binary64_idempotent.
Qed.

(** The score: 0 when no term matched; otherwise at least 1/2, and at least
    the rounded sum of half a point for each matched term and twice the
    coverage. *)
Lemma relevanceOf_score (product : IndexEntry.t) (searchTokens : list jsstring) :
  searchTokens <> [] ->
  let relevance := relevanceOf product searchTokens in
  (Relevance.matchedTerms relevance = 0 -> Relevance.score relevance = 0%Q)
  /\ (0 < Relevance.matchedTerms relevance ->
      (1 # 2 <= Relevance.score relevance)%Q
      /\ (binary64 ((1 # 2) * Q_of_nat (Relevance.matchedTerms relevance)
                    + 2 * Relevance.coverage relevance)
          <= Relevance.score relevance)%Q
      /\ (binary64 ((1 # 2) + binary64 (2 / Q_of_nat (List.length searchTokens)))
          <= Relevance.score relevance)%Q
      /\ ((1 - pow2 (-52)) * ((1 # 2) + 2 / Q_of_nat (List.length searchTokens))
          <= Relevance.score relevance)%Q).
Proof.
  intros Hne. cbv zeta.
  destruct (relevanceOf_fields product searchTokens)
    as [base [Hm [Ht [Hc [Hs [Hbase Hzero]]]]]].
  set (matched := List.length (filter (termMatched product) searchTokens)) in *.
  set (total := List.length searchTokens) in *.
  assert (Htotal : 0 < total)
    by (unfold total; destruct searchTokens; [congruence | simpl; lia]).
  assert (Hle : matched <= total) by apply filter_length_le.
  destruct (coverage_spec matched total Hle Htotal) as [Hrange [Hpos [Hnone [_ Herr]]]].
  cbv zeta in Hrange, Hpos, Hnone, Herr.
  pose proof (Q_of_nat_lt_0 total Htotal) as Hn.
  assert (Hq0 : (0 <= Q_of_nat matched / Q_of_nat total)%Q).
  { apply Qle_shift_div_l; [exact Hn|]. pose proof (Q_of_nat_nonneg matched). lra. }
  pose proof (coverageBonus_exact _ Hq0) as Hbonus.
  rewrite Hm, Hs, Hc. split.
  - intros H0. rewrite (Hzero H0), (Hnone H0).
    rewrite (binary64_0 (0 * 2)) by lra. apply binary64_0. lra.
  - intros Hmatched. specialize (Hpos Hmatched).
    set (c := binary64 (Q_of_nat matched / Q_of_nat total)) in *.
    pose proof (Q_of_nat_pos matched Hmatched) as Hm1.
    assert (Hsum : ((1 # 2) <= base + binary64 (c * 2))%Q) by lra.
    assert (Hinv : (0 < / Q_of_nat total)%Q) by now apply Qinv_lt_0_compat.
    assert (Hone : (1 / Q_of_nat total <= Q_of_nat matched / Q_of_nat total)%Q).
    { unfold Qdiv. apply Qmult_le_r; assumption. }
    assert (Hone0 : (0 <= 1 / Q_of_nat total)%Q) by (unfold Qdiv; lra).
    split; [|split; [|split]].
    + setoid_replace (1 # 2)%Q with (binary64 (1 # 2)) by (vm_compute; reflexivity).
      apply binary64_le; lra.
    + apply binary64_le; [lra | lra].
    + assert (Hc1 : (binary64 (1 / Q_of_nat total) <= c)%Q) by now apply binary64_le.
      assert (E : (binary64 (2 / Q_of_nat total) == binary64 (1 / Q_of_nat total) * 2)%Q).
      { rewrite <- binary64_double by exact Hone0.
        apply binary64_comp. unfold Qdiv. ring. }
      assert (H2 : (0 <= binary64 (2 / Q_of_nat total))%Q).
      { apply binary64_nonneg. unfold Qdiv. lra. }
      apply binary64_le; lra.
    + destruct (binary64_error (base + binary64 (c * 2))) as [Hlo _]; [lra|].
      destruct (binary64_error _ Hq0) as [Hclo _]. fold c in Hclo.
      unfold Qdiv in *.
      set (t := (/ Q_of_nat total)%Q) in *.
      set (x := (Q_of_nat matched * t)%Q) in *.
      set (r := binary64 (base + binary64 (c * 2))) in *.
      set (b := binary64 (c * 2)) in *.
      change (pow2 (-53)) with (1 # 9007199254740992)%Q in *.
      change (pow2 (-52)) with (1 # 4503599627370496)%Q.
      lra.
Qed.

(** C2. A search token that is a member of [titleTokens] gets the exact-title
    bonus 3 and, because [fuzzyMatch] accepts equal strings and the fuzzy loop
    skips no token, the fuzzy-title bonus 2 for that same title token: it is
    among the fuzzy matches, and the per-term score is 3 plus 2 for each fuzzy
    title match plus the other bonuses, hence at least 5. *)
Theorem C2_exact_title_token_also_fuzzy (product : IndexEntry.t) (searchToken : jsstring) :
  In searchToken (IndexEntry.titleTokens product) ->
  fuzzyMatch searchToken searchToken default_threshold = true
  /\ In searchToken
        (filter (fun titleToken => fuzzyMatch searchToken titleToken default_threshold)
                (IndexEntry.titleTokens product))
  /\ (fst (termContribution product searchToken)
      == 3 + 2 * Q_of_nat (fuzzyCount searchToken (IndexEntry.titleTokens product))
         + otherBonuses product searchToken)%Q
  /\ (3 + 2 <= fst (termContribution product searchToken))%Q
  /\ termMatched product searchToken = true.
Proof.
  intros Hin.
  assert (Hself : fuzzyMatch searchToken searchToken default_threshold = true)
    by apply fuzzyMatch_refl.
  assert (Hfilter : In searchToken
            (filter (fun titleToken => fuzzyMatch searchToken titleToken default_threshold)
                    (IndexEntry.titleTokens product)))
    by (apply filter_In; now split).
  destruct (termContribution_sum product searchToken) as [F S].
  assert (Hexact : Array_includes (IndexEntry.titleTokens product) searchToken = true)
    by now apply Array_includes_In.
  rewrite Hexact in F, S. cbn [bonus orb] in F, S.
  assert (Hcount : (1 <= Q_of_nat (fuzzyCount searchToken (IndexEntry.titleTokens product)))%Q).
  { apply Q_of_nat_pos. unfold fuzzyCount.
    destruct (filter _ (IndexEntry.titleTokens product)); [destruct Hfilter | simpl; lia]. }
  pose proof (otherBonuses_nonneg product searchToken) as Hother.
  repeat split; try assumption.
  rewrite F. lra.
Qed.

Lemma C2_witness :
  In (JsString.lit "floral") (IndexEntry.titleTokens floral_entry)
  /\ (3 + 2 <= fst (termContribution floral_entry (JsString.lit "floral")))%Q.
Proof.
  split.
  - left. reflexivity.
  - apply (C2_exact_title_token_also_fuzzy floral_entry (JsString.lit "floral")).
    left. reflexivity.
Defined.

(** The scenario with title tokens "floral", "dress" and description tokens
    "summer", "floral", "pattern": the query token "floral" collects
    3 + 2 + 1 + 0.5 + 1 + 0.5 and the coverage bonus 2. *)
Example floral_scenario :
  IndexEntry.titleTokens floral_entry = [JsString.lit "floral"; JsString.lit "dress"]
  /\ IndexEntry.descriptionTokens floral_entry
     = [JsString.lit "summer"; JsString.lit "floral"; JsString.lit "pattern"]
  /\ (fst (termContribution floral_entry (JsString.lit "floral")) == 8)%Q
  /\ (Relevance.score (relevanceOf floral_entry [JsString.lit "floral"]) == 10)%Q.
Proof. repeat split; vm_compute; reflexivity. Qed.

(** ** Tokens stand in the normalized text *)

Lemma startsWith_app (w post : jsstring) : JsString.startsWith (w ++ post) w = true.
Proof.
  induction w as [|c w IH]; [destruct post; reflexivity|].
  simpl. now rewrite N.eqb_refl.
Qed.

Lemma startsWith_nil (s : jsstring) : JsString.startsWith s [] = true.
Proof. destruct s; reflexivity. Qed.

Lemma includes_startsWith (s w : jsstring) :
  JsString.startsWith s w = true -> JsString.includes s w = true.
Proof. intros H. destruct s; simpl in *; now rewrite H. Qed.

Lemma includes_cons (c : JsString.code_unit) (s w : jsstring) :
  JsString.includes s w = true -> JsString.includes (c :: s) w = true.
Proof. intros H. simpl. rewrite H. apply orb_true_r. Qed.

Lemma split_head (sep : JsString.code_unit) (s w : jsstring) (ws : list jsstring) :
  JsString.split sep s = w :: ws -> JsString.startsWith s w = true.
Proof.
  revert w ws. induction s as [|c s IH]; intros w ws H; simpl in H.
  - injection H as <- <-. reflexivity.
  - destruct (c =? sep)%N.
    + injection H as <- <-. reflexivity.
    + destruct (JsString.split sep s) as [|w0 ws0] eqn:E.
      * injection H as <- <-. simpl. rewrite N.eqb_refl. apply startsWith_nil.
      * injection H as <- <-. simpl. rewrite N.eqb_refl. eapply IH. reflexivity.
Qed.

Lemma split_includes (sep : JsString.code_unit) (s w : jsstring) :
  In w (JsString.split sep s) -> JsString.includes s w = true.
Proof.
  induction s as [|c s IH]; simpl JsString.split.
  - intros [<- | []]. reflexivity.
  - destruct (c =? sep)%N.
    + intros [<- | H].
      * apply includes_startsWith. reflexivity.
      * apply includes_cons, IH, H.
    + destruct (JsString.split sep s) as [|w0 ws0] eqn:E.
      * intros [<- | []]. apply includes_startsWith. simpl.
        rewrite N.eqb_refl. apply startsWith_nil.
      * intros [<- | H].
        -- apply includes_startsWith. simpl. rewrite N.eqb_refl.
           eapply split_head. exact E.
        -- apply includes_cons, IH. now right.
Qed.

Lemma tokenize_includes (text : option jsstring) (token : jsstring) :
  In token (tokenize text) -> JsString.includes (normalizeText text) token = true.
Proof.
  unfold tokenize. destruct (truthy text) as [s|] eqn:E; [|intros []].
  intros H. apply filter_In in H. destruct H as [H _].
  apply filter_In in H. destruct H as [H _].
  eapply split_includes. exact H.
Qed.

Lemma occurrences_In (token : jsstring) (tokens : list jsstring) :
  0 < occurrences token tokens -> In token tokens.
Proof.
  unfold occurrences. induction tokens as [|x tokens IH]; simpl; [lia|].
  destruct (JsString.eqb token x) eqn:E.
  - apply JsStringFacts.eqb_eq in E. subst. now left.
  - intros H. right. now apply IH.
Qed.

Lemma fuzzyCount_occurrences (searchToken : jsstring) (tokens : list jsstring) :
  (forall token, In token tokens -> token <> searchToken ->
                 fuzzyMatch searchToken token default_threshold = false) ->
  fuzzyCount searchToken tokens = occurrences searchToken tokens.
Proof.
  unfold fuzzyCount, occurrences.
  induction tokens as [|x tokens IH]; intros H; [reflexivity|].
  cbn [filter].
  destruct (JsString.eqb searchToken x) eqn:E.
  - apply JsStringFacts.eqb_eq in E. subst x. rewrite fuzzyMatch_refl.
    cbn [List.length]. f_equal. apply IH. intros t Ht. apply H. now right.
  - apply JsStringFacts.eqb_neq in E. rewrite (H x) by (simpl; auto; congruence).
    apply IH. intros t Ht. apply H. now right.
Qed.

Lemma occurrences_absent (token : jsstring) (tokens : list jsstring) :
  ~ In token tokens -> occurrences token tokens = 0.
Proof.
  unfold occurrences. induction tokens as [|x tokens IH]; intros H; [reflexivity|].
  cbn [filter]. destruct (JsString.eqb token x) eqn:E.
  - apply JsStringFacts.eqb_eq in E. subst. exfalso. apply H. now left.
  - apply IH. intros Hin. apply H. now right.
Qed.

Lemma relevanceOf_single (product : IndexEntry.t) (searchToken : jsstring) :
  termMatched product searchToken = true ->
  let relevance := relevanceOf product [searchToken] in
  (Relevance.score relevance
   == binary64 (fst (termContribution product searchToken) + 2))%Q
  /\ Relevance.matchedTerms relevance = 1
  /\ (Relevance.coverage relevance == 1)%Q.
Proof.
  unfold termMatched, relevanceOf, scoreTerms, forEach. cbn [fold_left].
  destruct (termContribution product searchToken) as [termScore matched].
  cbn [fst snd]. intros ->. cbv zeta.
  cbn [Relevance.score Relevance.matchedTerms Relevance.coverage List.length Nat.add].
  assert (H : (binary64 (Q_of_nat 1 / Q_of_nat 1) == 1)%Q) by (vm_compute; reflexivity).
  assert (Hbonus : (binary64 (binary64 (Q_of_nat 1 / Q_of_nat 1) * 2) == 2)%Q)
    by (vm_compute; reflexivity).
  split; [|split; [reflexivity | exact H]].
  apply binary64_comp. rewrite Hbonus. lra.
Qed.

(** C1, as the code has it.  For a single-term query whose token is one title
    token of an indexed product, stands nowhere else in the product and is
    within fuzzy reach of no other token of it, the scorer returns the score
    8: 3 for the exact title match, 2 for the fuzzy match of the title token
    with itself, 1 because the normalized title contains it, and the coverage
    bonus 1 * 2; [matchedTerms] is 1. *)
Theorem C1_sole_title_token_scores_8
        (this : FashionCatalogue) (productIndex : nat)
        (product : IndexEntry.t) (searchToken : jsstring) :
  indexed this ->
  nth_error (searchIndex this) productIndex = Some product ->
  only_one_title_token product searchToken ->
  no_other_fuzzy_match product searchToken ->
  exists relevance,
    calculateRelevanceScore this [searchToken] productIndex = Some relevance
    /\ (Relevance.score relevance == 8)%Q
    /\ Relevance.matchedTerms relevance = 1
    /\ (Relevance.coverage relevance == 1)%Q.
Proof.
  intros Hindexed Hentry [Hone [Hdesc Hnd]] [Hft Hfd].
  unfold calculateRelevanceScore. rewrite Hentry.
  exists (relevanceOf product [searchToken]). split; [reflexivity|].
  assert (Hin : In searchToken (IndexEntry.titleTokens product))
    by (apply occurrences_In; lia).
  assert (Hnt : JsString.includes (IndexEntry.normalizedTitle product) searchToken = true).
  { destruct (indexed_entry this productIndex product Hindexed Hentry) as [p [_ ->]].
    apply tokenize_includes. exact Hin. }
  destruct (termContribution_sum product searchToken) as [F S].
  assert (Hexact : Array_includes (IndexEntry.titleTokens product) searchToken = true)
    by now apply Array_includes_In.
  assert (Hnodesc : Array_includes (IndexEntry.descriptionTokens product) searchToken = false).
  { destruct (Array_includes (IndexEntry.descriptionTokens product) searchToken) eqn:E;
      [|reflexivity].
    apply Array_includes_In in E. contradiction. }
  unfold otherBonuses in F.
  rewrite (fuzzyCount_occurrences searchToken _ Hft), Hone in F.
  rewrite (fuzzyCount_occurrences searchToken _ Hfd) in F.
  rewrite (occurrences_absent _ _ Hdesc) in F.
  rewrite Hexact, Hnodesc, Hnt, Hnd in F. rewrite Hexact in S.
  cbn [bonus orb] in F, S.
  destruct (relevanceOf_single product searchToken S) as [Hscore [Hm Hc]].
  repeat split; try assumption.
  rewrite Hscore, F. vm_compute. reflexivity.
Qed.

Lemma C1_witness :
  indexed dress_only
  /\ nth_error (searchIndex dress_only) 0 = Some dress_entry
  /\ only_one_title_token dress_entry dress
  /\ no_other_fuzzy_match dress_entry dress
  /\ exists relevance,
      calculateRelevanceScore dress_only [dress] 0 = Some relevance
      /\ (Relevance.score relevance == 8)%Q
      /\ Relevance.matchedTerms relevance = 1
      /\ (Relevance.coverage relevance == 1)%Q.
Proof.
  assert (Hone : only_one_title_token dress_entry dress).
  { split; [reflexivity|]. split; [intros []|reflexivity]. }
  assert (Hfar : no_other_fuzzy_match dress_entry dress).
  { split.
    - intros token [<- | []] H. exfalso. apply H. reflexivity.
    - intros token []. }
  split; [reflexivity|]. split; [reflexivity|].
  split; [exact Hone|]. split; [exact Hfar|].
  apply (C1_sole_title_token_scores_8 dress_only 0 dress_entry dress).
  - reflexivity.
  - reflexivity.
  - exact Hone.
  - exact Hfar.
Defined.

(** C1, as stated, fails: the product titled "Dress" has the single title
    token "dress", which stands nowhere else in it, and the query token
    "dress" scores 8 on it, not 5. *)
Lemma C1_counterexample :
  nth_error (searchIndex dress_only) 0 = Some dress_entry
  /\ only_one_title_token dress_entry dress
  /\ exists relevance,
      calculateRelevanceScore dress_only [dress] 0 = Some relevance
      /\ Relevance.matchedTerms relevance = 1
      /\ (Relevance.score relevance == 8)%Q
      /\ ~ (Relevance.score relevance == 5)%Q.
Proof.
  split; [reflexivity|].
  split; [split; [reflexivity|]; split; [intros []|reflexivity]|].
  exists (relevanceOf dress_entry [dress]).
  split; [reflexivity|].
  split; [reflexivity|].
  split; [vm_compute; reflexivity|].
  vm_compute. discriminate.
Qed.

(** Even on an entry whose normalized title would not contain the title
    token, the token scores 7: the exact and the fuzzy bonus both count. *)
Lemma sole_title_token_without_phrase :
  only_one_title_token loose_entry dress
  /\ JsString.includes (IndexEntry.normalizedTitle loose_entry) dress = false
  /\ (Relevance.score (relevanceOf loose_entry [dress]) == 7)%Q.
Proof.
  split; [split; [reflexivity|]; split; [intros []|reflexivity]|].
  split; [reflexivity | vm_compute; reflexivity].
Qed.

(** A second title token within fuzzy reach adds its own bonus: on
    "Dress dresses" the query token "dress" scores 10. *)
Lemma fuzzy_neighbour_adds :
  only_one_title_token (indexEntry (product_of "Dress dresses" "" None) 0) dress
  /\ (Relevance.score
        (relevanceOf (indexEntry (product_of "Dress dresses" "" None) 0) [dress])
      == 10)%Q.
Proof.
  split; [split; [reflexivity|]; split; [intros []|reflexivity]|].
  vm_compute. reflexivity.
Qed.

(** ** The search *)

Lemma allProductsUnranked_map (this : FashionCatalogue) :
  allProductsUnranked this
  = List.map (fun product => Unranked (Some product) 0) (allProducts this).
Proof.
  unfold allProductsUnranked.
  assert (H : forall l pre,
             map_indexed (fun (_ : Product.t) index => Unranked (nth_error (pre ++ l) index) 0)
                         l (List.length pre)
             = List.map (fun product => Unranked (Some product) 0) l).
  { induction l as [|x l IH]; intros pre; [reflexivity|].
    cbn [map_indexed List.map]. f_equal.
    - now rewrite nth_error_app2, Nat.sub_diag by lia.
    - specialize (IH (pre ++ [x])).
      rewrite <- app_assoc, length_app, Nat.add_1_r in IH. exact IH. }
  exact (H (allProducts this) []).
Qed.

(** The queries that take one of the two early returns are those without
    tokens. *)
Lemma tokenizable (query : option jsstring) :
  tokenize query <> [] ->
  exists q, truthy query = Some q
            /\ (List.length (JsString.trim q) =? 0) = false
            /\ (List.length (tokenize query) =? 0) = false.
Proof.
  intros H.
  destruct (truthy query) as [q|] eqn:E.
  - exists q. split; [reflexivity|]. split.
    + apply Nat.eqb_neq. intros Hlen. apply H.
      apply blank_tokenize.
      assert (query = Some q) by (destruct query as [[|c s]|]; simpl in E; congruence).
      subst query. simpl. apply JsStringFacts.trim_nil.
      now apply length_zero_iff_nil.
    + apply Nat.eqb_neq. intros Hlen. apply H. now apply length_zero_iff_nil.
  - exfalso. apply H. unfold tokenize. now rewrite E.
Qed.

Lemma performAdvancedSearch_no_tokens (this : FashionCatalogue) (query : option jsstring) :
  tokenize query = [] ->
  performAdvancedSearch this query = Some (allProductsUnranked this).
Proof.
  intros H. unfold performAdvancedSearch.
  destruct (truthy query) as [q|]; [|reflexivity].
  destruct (List.length (JsString.trim q) =? 0); [reflexivity|].
  now rewrite H.
Qed.

(** The scoring loop succeeds: it pushes, in index order, one result for
    each entry with a matched term. *)
Lemma scoreAllProducts_pushed (this : FashionCatalogue) (searchTokens : list jsstring) :
  scoreAllProducts this searchTokens
  = Some (flat_map (pushed this searchTokens) (searchIndex this)).
Proof.
  unfold scoreAllProducts.
  assert (H : forall l first results,
             (forall n, nth_error (searchIndex this) (first + n) = nth_error l n) ->
             forEach_indexed
               (fun indexedProduct searchIndex results =>
                  relevance <- calculateRelevanceScore this searchTokens searchIndex ;;
                  if 0 <? Relevance.matchedTerms relevance
                  then Some (results ++ [rankedResult this indexedProduct relevance])
                  else Some results)
               l first results
             = Some (results ++ flat_map (pushed this searchTokens) l)).
  { induction l as [|x l IH]; intros first results Hl.
    - simpl. now rewrite app_nil_r.
    - cbn [forEach_indexed flat_map]. unfold calculateRelevanceScore.
      pose proof (Hl 0) as H0. rewrite Nat.add_0_r in H0. cbn [nth_error] in H0.
      rewrite H0. unfold pushed at 1. cbv zeta.
      assert (Hl' : forall n, nth_error (searchIndex this) (S first + n) = nth_error l n).
      { intros n. specialize (Hl (S n)). now rewrite Nat.add_succ_r in Hl. }
      destruct (0 <? Relevance.matchedTerms (relevanceOf x searchTokens)).
      + rewrite (IH (S first) _ Hl'). now rewrite <- app_assoc.
      + rewrite (IH (S first) _ Hl'). reflexivity. }
  exact (H (searchIndex this) 0 [] (fun n => eq_refl)).
Qed.

Lemma pushed_inv (this : FashionCatalogue) (searchTokens : list jsstring)
      (product : IndexEntry.t) (r : SearchResult.t) :
  In r (pushed this searchTokens product) <->
  0 < Relevance.matchedTerms (relevanceOf product searchTokens)
  /\ r = rankedResult this product (relevanceOf product searchTokens).
Proof.
  unfold pushed. cbv zeta.
  destruct (Nat.ltb_spec 0 (Relevance.matchedTerms (relevanceOf product searchTokens))).
  - split.
    + intros [<- | []]. now split.
    + intros [_ ->]. now left.
  - split; [intros [] | intros [Hpos _]; lia].
Qed.

Lemma pushed_has_product (this : FashionCatalogue) (searchTokens : list jsstring) :
  indexed this ->
  Forall has_product (flat_map (pushed this searchTokens) (searchIndex this)).
Proof.
  intros Hindexed. apply Forall_forall. intros r Hr.
  apply in_flat_map in Hr. destruct Hr as [entry [Hentry Hr]].
  apply pushed_inv in Hr. destruct Hr as [_ ->].
  apply In_nth_error in Hentry. destruct Hentry as [i Hi].
  destruct (indexed_entry this i entry Hindexed Hi) as [p [Hp ->]].
  unfold has_product, rankedResult. cbn [SearchResult.product indexEntry IndexEntry.productIndex].
  rewrite Hp. discriminate.
Qed.

(** With tokens in the query and the index built, the search returns the
    pushed results, sorted. *)
Lemma search_ranked (this : FashionCatalogue) (query : option jsstring) :
  indexed this ->
  tokenize query <> [] ->
  exists sorted,
    performAdvancedSearch this query = Some (List.map Ranked sorted)
    /\ Permutation (flat_map (pushed this (tokenize query)) (searchIndex this)) sorted
    /\ StronglySorted ranks_no_lower sorted
    /\ forall z, filter (same_keys z) sorted
                 = filter (same_keys z)
                          (flat_map (pushed this (tokenize query)) (searchIndex this)).
Proof.
  intros Hindexed Htokens.
  destruct (tokenizable query Htokens) as [q [Hq [Htrim Hlen]]].
  destruct (sort_results _ (pushed_has_product this (tokenize query) Hindexed))
    as [sorted [Hsort Hspec]].
  exists sorted. split; [|exact Hspec].
  unfold performAdvancedSearch. rewrite Hq, Htrim. cbv zeta. rewrite Hlen.
  rewrite scoreAllProducts_pushed, Hsort. reflexivity.
Qed.

(** C3. A query that is [null], empty, made of white space only, or without
    tokens (stop words, single characters) makes the search return one result
    per product, in the order of [allProducts], each with score 0: as many
    results as there are products. *)
Theorem C3_no_tokens_pass_through (this : FashionCatalogue) (query : option jsstring) :
  blank query \/ tokenize query = [] ->
  exists results,
    performAdvancedSearch this query = Some results
    /\ results = List.map (fun product => Unranked (Some product) 0) (allProducts this)
    /\ List.length results = List.length (allProducts this)
    /\ (forall i, option_map result_product (nth_error results i)
                  = option_map Some (nth_error (allProducts this) i))
    /\ Forall (fun r => result_score r = 0%Q) results.
Proof.
  intros H.
  assert (Htok : tokenize query = [])
    by (destruct H as [H | H]; [now apply blank_tokenize | exact H]).
  exists (List.map (fun product => Unranked (Some product) 0) (allProducts this)).
  split; [|split; [reflexivity|]; split; [|split]].
  - rewrite (performAdvancedSearch_no_tokens this query Htok).
    now rewrite allProductsUnranked_map.
  - apply length_map.
  - intros i. rewrite nth_error_map.
    destruct (nth_error (allProducts this) i); reflexivity.
  - apply Forall_forall. intros r Hr. apply in_map_iff in Hr.
    destruct Hr as [p [<- _]]. reflexivity.
Qed.

Lemma C3_witness :
  (blank (Some (JsString.lit "The a ")) \/ tokenize (Some (JsString.lit "The a ")) = [])
  /\ exists results,
      performAdvancedSearch boutique (Some (JsString.lit "The a ")) = Some results
      /\ results = List.map (fun product => Unranked (Some product) 0) (allProducts boutique)
      /\ List.length results = List.length (allProducts boutique)
      /\ (forall i, option_map result_product (nth_error results i)
                    = option_map Some (nth_error (allProducts boutique) i))
      /\ Forall (fun r => result_score r = 0%Q) results.
Proof.
  split.
  - right. reflexivity.
  - apply (C3_no_tokens_pass_through boutique (Some (JsString.lit "The a "))).
    right. reflexivity.
Defined.

(** *** The ranking and the positions of the products *)

Lemma sort_insert_map {A B : Type} (f : A -> B) (comparefn : B -> B -> option Q)
      (x : A) (l : list A) :
  sort_insert comparefn (f x) (List.map f l)
  = option_map (List.map f) (sort_insert (fun a b => comparefn (f a) (f b)) x l).
Proof.
  induction l as [|y l IH]; [reflexivity|].
  cbn [List.map sort_insert].
  destruct (comparefn (f x) (f y)) as [v|]; [|reflexivity].
  destruct (Qlt_le_dec 0 v); [|reflexivity].
  rewrite IH. now destruct (sort_insert _ x l).
Qed.

Lemma Array_sort_map {A B : Type} (f : A -> B) (comparefn : B -> B -> option Q)
      (l : list A) :
  Array_sort comparefn (List.map f l)
  = option_map (List.map f) (Array_sort (fun a b => comparefn (f a) (f b)) l).
Proof.
  induction l as [|x l IH]; [reflexivity|].
  cbn [List.map Array_sort]. rewrite IH.
  destruct (Array_sort _ l) as [sorted|]; [|reflexivity].
  cbn [option_map]. apply sort_insert_map.
Qed.

Lemma nth_error_two {A : Type} (l : list A) (p q : nat) (x y : A) :
  p < q -> nth_error l p = Some x -> nth_error l q = Some y ->
  exists l1 l2 l3, l = l1 ++ x :: l2 ++ y :: l3.
Proof.
  intros Hpq Hp Hq.
  destruct (nth_error_split l p Hp) as [l1 [rest [-> Hlen]]].
  rewrite nth_error_app2 in Hq by lia.
  replace (q - List.length l1) with (S (q - p - 1)) in Hq by lia.
  cbn [nth_error] in Hq.
  destruct (nth_error_split rest _ Hq) as [l2 [l3 [-> _]]].
  now exists l1, l2, l3.
Qed.

Lemma StronglySorted_between {A : Type} (R : A -> A -> Prop) (l1 l2 l3 : list A) (x y : A) :
  StronglySorted R (l1 ++ x :: l2 ++ y :: l3) -> R x y.
Proof.
  induction l1 as [|z l1 IH]; cbn [app]; intros H.
  - apply StronglySorted_inv in H. destruct H as [_ H].
    apply Forall_app in H. destruct H as [_ H].
    now apply Forall_cons_iff in H.
  - apply StronglySorted_inv in H. now apply IH.
Qed.

Lemma StronglySorted_filter {A : Type} (R : A -> A -> Prop) (f : A -> bool) (l : list A) :
  StronglySorted R l -> StronglySorted R (filter f l).
Proof.
  induction 1 as [|x l Hs IH Hall]; [constructor|].
  cbn [filter]. destruct (f x); [|exact IH].
  constructor; [exact IH|].
  apply Forall_forall. intros y Hy. apply filter_In in Hy.
  rewrite Forall_forall in Hall. now apply Hall.
Qed.

(** In a stable rearrangement of a list that stands in the order of a key,
    elements that are the same for the sort stand in the order of the
    key. *)
Lemma stable_ties {A : Type} (same : A -> A -> bool) (key : A -> nat) (l l' : list A) :
  (forall z, filter (same z) l' = filter (same z) l) ->
  StronglySorted (fun x y => key x < key y) l ->
  (forall x, same x x = true) ->
  forall l1 l2 l3 x y,
    l' = l1 ++ x :: l2 ++ y :: l3 -> same x y = true -> key x < key y.
Proof.
  intros Hstable Hsorted Hrefl l1 l2 l3 x y -> Hxy.
  pose proof (Hstable x) as H.
  rewrite filter_app in H. cbn [filter] in H. rewrite Hrefl in H.
  rewrite filter_app in H. cbn [filter] in H. rewrite Hxy in H.
  pose proof (StronglySorted_filter _ (same x) l Hsorted) as Hf.
  rewrite <- H in Hf.
  exact (StronglySorted_between _ _ _ _ x y Hf).
Qed.

Lemma same_keys_refl (a : SearchResult.t) : same_keys a a = true.
Proof.
  unfold same_keys. rewrite !andb_true_iff. repeat split; apply Qeq_bool_iff; reflexivity.
Qed.

Lemma sort_ranking (l : list (nat * SearchResult.t)) :
  Forall (fun x => has_product (snd x)) l ->
  exists sorted,
    Array_sort compareResults (List.map snd l) = Some (List.map snd sorted)
    /\ Permutation l sorted
    /\ StronglySorted (fun x y => ranks_no_lower (snd x) (snd y)) sorted
    /\ forall z : nat * SearchResult.t,
         filter (fun x => same_keys (snd z) (snd x)) sorted
         = filter (fun x => same_keys (snd z) (snd x)) l.
Proof.
  intros Hok.
  destruct (Array_sort_spec (nat * SearchResult.t)
              (fun x y => compareResults (snd x) (snd y))
              (fun x y => ranks_no_lower (snd x) (snd y))
              (fun z x => same_keys (snd z) (snd x))
              (fun x => has_product (snd x)))
    with (l := l) as [sorted [Hsorted Hspec]].
  - intros a b Ha Hb.
    destruct (compareResults_confidence (snd a) (snd b) Ha Hb) as [v [Hv _]]. eauto.
  - intros a b v Ha Hb Hv Hpos.
    destruct (compareResults_confidence (snd a) (snd b) Ha Hb) as [v' [Hv' [H _]]].
    rewrite Hv in Hv'. injection Hv' as <-.
    destruct (H Hpos) as [H1 H2]. split; [exact H1|]. intros z. apply H2.
  - intros a b v Ha Hb Hv Hneg.
    destruct (compareResults_confidence (snd a) (snd b) Ha Hb) as [v' [Hv' [_ H]]].
    rewrite Hv in Hv'. injection Hv' as <-. auto.
  - intros a b c. apply ranks_no_lower_trans.
  - exact Hok.
  - exists sorted. split; [|exact Hspec].
    rewrite Array_sort_map, Hsorted. reflexivity.
Qed.

Lemma pushedFrom_results (this : FashionCatalogue) (searchTokens : list jsstring)
      (index : list IndexEntry.t) (first : nat) :
  List.map snd (pushedFrom this searchTokens index first)
  = flat_map (pushed this searchTokens) index.
Proof.
  revert first. induction index as [|e index IH]; intros first; [reflexivity|].
  cbn [pushedFrom flat_map]. rewrite map_app, map_map, IH. cbn [snd].
  now rewrite map_id.
Qed.

Lemma pushedFrom_In (this : FashionCatalogue) (searchTokens : list jsstring)
      (index : list IndexEntry.t) (first i : nat) (r : SearchResult.t) :
  In (i, r) (pushedFrom this searchTokens index first) <->
  first <= i
  /\ exists e, nth_error index (i - first) = Some e /\ In r (pushed this searchTokens e).
Proof.
  revert first. induction index as [|e index IH]; intros first.
  - cbn [pushedFrom]. split; [intros [] | intros [_ [e [H _]]]].
    destruct (i - first); discriminate.
  - cbn [pushedFrom]. rewrite in_app_iff, IH, in_map_iff. split.
    + intros [[r' [E Hr]] | [Hle [e' [He Hr]]]].
      * injection E as <- <-. split; [lia|]. exists e.
        now rewrite Nat.sub_diag.
      * split; [lia|]. exists e'. split; [|exact Hr].
        replace (i - first) with (S (i - S first)) by lia. exact He.
    + intros [Hle [e' [He Hr]]].
      destruct (Nat.eq_dec i first) as [-> | Hne].
      * left. rewrite Nat.sub_diag in He. injection He as <-. now exists r.
      * right. split; [lia|]. exists e'. split; [|exact Hr].
        replace (i - first) with (S (i - S first)) in He by lia. exact He.
Qed.

Lemma pushedFrom_sorted (this : FashionCatalogue) (searchTokens : list jsstring)
      (index : list IndexEntry.t) (first : nat) :
  StronglySorted (fun x y : nat * SearchResult.t => fst x < fst y)
                 (pushedFrom this searchTokens index first).
Proof.
  revert first. induction index as [|e index IH]; intros first; [constructor|].
  cbn [pushedFrom]. unfold pushed at 1. cbv zeta.
  destruct (0 <? Relevance.matchedTerms (relevanceOf e searchTokens)); [|apply IH].
  cbn [List.map app]. constructor; [apply IH|].
  apply Forall_forall. intros [i r] Hin. apply pushedFrom_In in Hin. cbn [fst]. lia.
Qed.

Lemma StronglySorted_lt_NoDup {A : Type} (key : A -> nat) (l : list A) :
  StronglySorted (fun x y => key x < key y) l -> NoDup (List.map key l).
Proof.
  induction 1 as [|x l Hs IH Hall]; [constructor|].
  cbn [List.map]. constructor; [|exact IH].
  intros Hin. apply in_map_iff in Hin. destruct Hin as [y [E Hy]].
  rewrite Forall_forall in Hall. specialize (Hall y Hy). lia.
Qed.

(** With the index built, the pushed results are the results of the
    products, each at the position of its product. *)
Lemma pushedFrom_result_of (this : FashionCatalogue) (searchTokens : list jsstring)
      (i : nat) (r : SearchResult.t) :
  indexed this ->
  In (i, r) (pushedFrom this searchTokens (searchIndex this) 0)
  <-> result_of this searchTokens i r.
Proof.
  intros Hindexed. rewrite pushedFrom_In, Nat.sub_0_r. unfold result_of. split.
  - intros [_ [e [He Hr]]].
    apply pushed_inv in Hr. destruct Hr as [Hpos ->].
    destruct (indexed_entry this i e Hindexed He) as [p [Hp ->]].
    exists p, (relevanceOf (indexEntry p i) searchTokens).
    unfold calculateRelevanceScore. rewrite He.
    split; [exact Hp|]. split; [reflexivity|]. split; [exact Hpos|].
    unfold rankedResult. cbn [indexEntry IndexEntry.productIndex]. now rewrite Hp.
  - intros [p [relevance [Hp [Hrel [Hpos ->]]]]].
    split; [lia|].
    unfold calculateRelevanceScore in Hrel.
    destruct (nth_error (searchIndex this) i) as [e|] eqn:He; [|discriminate].
    injection Hrel as <-.
    exists e. split; [reflexivity|].
    apply pushed_inv. split; [exact Hpos|].
    destruct (indexed_entry this i e Hindexed He) as [p' [Hp' ->]].
    unfold rankedResult. cbn [indexEntry IndexEntry.productIndex].
    now rewrite Hp.
Qed.

(** With tokens in the query and the index built, the search returns the
    pushed results rearranged: by the three keys, and by position where the
    keys are the same. *)
Lemma search_ranking (this : FashionCatalogue) (query : option jsstring) :
  indexed this ->
  tokenize query <> [] ->
  exists ranking,
    performAdvancedSearch this query
    = Some (List.map (fun x => Ranked (snd x)) ranking)
    /\ Permutation (pushedFrom this (tokenize query) (searchIndex this) 0) ranking
    /\ forall p q x y,
         p < q -> nth_error ranking p = Some x -> nth_error ranking q = Some y ->
         ranks_no_lower (snd x) (snd y)
         /\ (same_keys (snd x) (snd y) = true -> fst x < fst y).
Proof.
  intros Hindexed Htokens.
  destruct (tokenizable query Htokens) as [q [Hq [Htrim Hlen]]].
  set (l := pushedFrom this (tokenize query) (searchIndex this) 0).
  assert (Hok : Forall (fun x => has_product (snd x)) l).
  { apply Forall_forall. intros x Hx.
    pose proof (pushed_has_product this (tokenize query) Hindexed) as H.
    rewrite Forall_forall in H. apply H.
    rewrite <- (pushedFrom_results this (tokenize query) (searchIndex this) 0).
    now apply in_map. }
  destruct (sort_ranking l Hok) as [ranking [Hsort [Hperm [Hsorted Hstable]]]].
  exists ranking. split; [|split; [exact Hperm|]].
  - unfold performAdvancedSearch. rewrite Hq, Htrim. cbv zeta. rewrite Hlen.
    rewrite scoreAllProducts_pushed.
    rewrite <- (pushedFrom_results this (tokenize query) (searchIndex this) 0).
    fold l. rewrite Hsort. now rewrite map_map.
  - intros p q' x y Hpq Hp Hq'.
    destruct (nth_error_two ranking p q' x y Hpq Hp Hq') as [l1 [l2 [l3 E]]].
    split.
    + rewrite E in Hsorted. exact (StronglySorted_between _ _ _ _ x y Hsorted).
    + intros Hsame.
      apply (stable_ties (fun z x => same_keys (snd z) (snd x)) fst l ranking Hstable
               (pushedFrom_sorted this (tokenize query) (searchIndex this) 0)
               (fun x => same_keys_refl (snd x)) l1 l2 l3 x y E Hsame).
Qed.



(** On that catalogue the two scores are 3.333333333333333 for "Kimono"
    and 3.3333333333333335 for "Dresses": the second product is returned
    first. *)
Lemma rounded_scores_order :
  exists kimono dresses,
    performAdvancedSearch kimono_and_dresses (Some (JsString.lit "dress ab cd ef gh zz"))
    = Some [Ranked dresses; Ranked kimono]
    /\ SearchResult.product kimono = nth_error (allProducts kimono_and_dresses) 0
    /\ SearchResult.product dresses = nth_error (allProducts kimono_and_dresses) 1
    /\ (SearchResult.score kimono == 3752999689475413 # 1125899906842624)%Q
    /\ (SearchResult.score dresses == 7505999378950827 # 2251799813685248)%Q
    /\ (SearchResult.score kimono < SearchResult.score dresses)%Q.
Proof.
  eexists. eexists. split; [vm_compute; reflexivity|].
  cbn [SearchResult.product SearchResult.score].
  split; [reflexivity|]. split; [reflexivity|].
  split; [vm_compute; reflexivity|]. split; [vm_compute; reflexivity|].
  vm_compute. reflexivity.
Qed.

Lemma pushed_length (this : FashionCatalogue) (searchTokens : list jsstring)
      (index : list IndexEntry.t) :
  List.length (flat_map (pushed this searchTokens) index)
  = List.length
      (filter (fun product => 0 <? Relevance.matchedTerms (relevanceOf product searchTokens))
              index).
Proof.
  induction index as [|x index IH]; [reflexivity|].
  cbn [flat_map filter]. rewrite length_app, IH. unfold pushed. cbv zeta.
  destruct (0 <? Relevance.matchedTerms (relevanceOf x searchTokens)); reflexivity.
Qed.

Lemma filter_none {A : Type} (f : A -> bool) (l : list A) :
  (forall x, In x l -> f x = false) -> filter f l = [].
Proof.
  induction l as [|x l IH]; intros H; [reflexivity|].
  cbn [filter]. rewrite (H x) by now left.
  apply IH. intros y Hy. apply H. now right.
Qed.

Lemma nothing_matches_unmatched (this : FashionCatalogue) (searchTokens : list jsstring)
      (product : IndexEntry.t) (searchToken : jsstring) :
  nothing_matches this searchTokens ->
  In product (searchIndex this) -> In searchToken searchTokens ->
  termMatched product searchToken = false.
Proof.
  intros Hnone Hp Ht.
  destruct (Hnone product searchToken Hp Ht) as [Hfuzzy [Hnt Hnd]].
  destruct (termContribution_sum product searchToken) as [_ ->].
  rewrite Hnt, Hnd, !orb_false_r.
  assert (Hex : forall tokens,
             (forall token, In token tokens ->
                            fuzzyMatch searchToken token default_threshold = false) ->
             Array_includes tokens searchToken = false
             /\ existsb (fun t => fuzzyMatch searchToken t default_threshold) tokens = false).
  { intros tokens Hall. split.
    - destruct (Array_includes tokens searchToken) eqn:E; [|reflexivity].
      apply Array_includes_In in E. apply Hall in E.
      now rewrite fuzzyMatch_refl in E.
    - destruct (existsb _ tokens) eqn:E; [|reflexivity].
      apply existsb_exists in E. destruct E as [t [Hin Hm]].
      now rewrite (Hall t Hin) in Hm. }
  destruct (Hex (IndexEntry.titleTokens product)) as [-> ->].
  { intros token Hin. apply Hfuzzy, in_or_app. now left. }
  destruct (Hex (IndexEntry.descriptionTokens product)) as [-> ->].
  { intros token Hin. apply Hfuzzy, in_or_app. now right. }
  reflexivity.
Qed.

Lemma nothing_matches_nothing_pushed (this : FashionCatalogue) (searchTokens : list jsstring) :
  nothing_matches this searchTokens ->
  flat_map (pushed this searchTokens) (searchIndex this) = [].
Proof.
  intros Hnone.
  assert (H : forall index, incl index (searchIndex this) ->
                            flat_map (pushed this searchTokens) index = []).
  { induction index as [|x index IH]; intros Hincl; [reflexivity|].
    cbn [flat_map]. rewrite IH by (intros y Hy; apply Hincl; now right).
    rewrite app_nil_r. unfold pushed. cbv zeta.
    rewrite relevanceOf_matchedTerms.
    rewrite filter_none; [reflexivity|].
    intros t Ht. apply (nothing_matches_unmatched this searchTokens x t Hnone); auto.
    apply Hincl. now left. }
  apply H, incl_refl.
Qed.

Lemma pushedFrom_length (this : FashionCatalogue) (searchTokens : list jsstring) :
  List.length (pushedFrom this searchTokens (searchIndex this) 0)
  = List.length
      (filter (fun product => 0 <? Relevance.matchedTerms (relevanceOf product searchTokens))
              (searchIndex this)).
Proof.
  rewrite <- (length_map snd), pushedFrom_results. apply pushed_length.
Qed.

(** C5. With tokens in the query, the search returns one result for each
    position of the catalogue whose relevance has [matchedTerms > 0] and
    none for the others; the result carries the product at that position
    with the score, the matched terms and the coverage computed for it.
    When no token and no normalized text of any product matches any search
    token, the search returns the empty array. *)
Theorem C5_retains_matched_only (this : FashionCatalogue) (query : option jsstring) :
  indexed this ->
  tokenize query <> [] ->
  exists ranking : list (nat * SearchResult.t),
    performAdvancedSearch this query
    = Some (List.map (fun x => Ranked (snd x)) ranking)
    /\ NoDup (List.map fst ranking)
    /\ (forall i r,
           In (i, r) ranking <->
           exists product relevance,
             nth_error (allProducts this) i = Some product
             /\ calculateRelevanceScore this (tokenize query) i = Some relevance
             /\ 0 < Relevance.matchedTerms relevance
             /\ r = {| SearchResult.product := Some product;
                       SearchResult.score := Relevance.score relevance;
                       SearchResult.matchedTerms := Relevance.matchedTerms relevance;
                       SearchResult.coverage := Relevance.coverage relevance |})
    /\ List.length ranking
       = List.length
           (filter (fun product =>
                      0 <? Relevance.matchedTerms (relevanceOf product (tokenize query)))
                   (searchIndex this))
    /\ (nothing_matches this (tokenize query) ->
        ranking = [] /\ performAdvancedSearch this query = Some []).
Proof.
  intros Hindexed Htokens.
  destruct (search_ranking this query Hindexed Htokens)
    as [ranking [Hsearch [Hperm _]]].
  exists ranking. split; [exact Hsearch|]. split; [|split; [|split]].
  - eapply Permutation_NoDup; [apply Permutation_map; exact Hperm|].
    apply StronglySorted_lt_NoDup, pushedFrom_sorted.
  - intros i r.
    change (In (i, r) ranking <-> result_of this (tokenize query) i r).
    rewrite <- (pushedFrom_result_of this (tokenize query) i r Hindexed).
    split; apply Permutation_in; [now apply Permutation_sym | exact Hperm].
  - rewrite <- (Permutation_length Hperm). apply pushedFrom_length.
  - intros Hnone.
    assert (E : ranking = []).
    { apply length_zero_iff_nil.
      rewrite <- (Permutation_length Hperm), <- (length_map snd), pushedFrom_results.
      now rewrite (nothing_matches_nothing_pushed this _ Hnone). }
    split; [exact E|]. rewrite Hsearch, E. reflexivity.
Qed.

Lemma C5_witness :
  indexed boutique /\ tokenize (Some dress) <> []
  /\ exists ranking : list (nat * SearchResult.t),
      performAdvancedSearch boutique (Some dress)
      = Some (List.map (fun x => Ranked (snd x)) ranking)
      /\ NoDup (List.map fst ranking)
      /\ List.length ranking = 3.
Proof.
  split; [reflexivity|]. split; [discriminate|].
  destruct (C5_retains_matched_only boutique (Some dress))
    as [ranking [Hsearch [Hnodup [_ [Hlen _]]]]].
  - reflexivity.
  - discriminate.
  - exists ranking. split; [exact Hsearch|]. split; [exact Hnodup|].
    rewrite Hlen. vm_compute. reflexivity.
Defined.

(** C10, as the code has it.  With tokens in the query, every result of
    the search has a positive score: at least 1/2; at least the sum of 1/2
    and the coverage bonus of one matched term, 2/totalTerms, as the
    arithmetic of the program gives it; and at least the exact sum less a
    relative error of [2 ** -52].  Without tokens every result has score 0.
    So score 0 is seen only on the pass-through. *)
Theorem C10_ranked_scores_positive (this : FashionCatalogue) (query : option jsstring) :
  indexed this ->
  exists results,
    performAdvancedSearch this query = Some results
    /\ (tokenize query <> [] ->
        Forall (fun r =>
                  (0 < result_score r
                   /\ 1 # 2 <= result_score r
                   /\ binary64 ((1 # 2)
                                + binary64 (2 / Q_of_nat (List.length (tokenize query))))
                      <= result_score r
                   /\ (1 - pow2 (-52))
                      * ((1 # 2) + 2 / Q_of_nat (List.length (tokenize query)))
                      <= result_score r)%Q)
               results)
    /\ (tokenize query = [] -> Forall (fun r => result_score r = 0%Q) results).
Proof.
  intros Hindexed.
  destruct (list_eq_dec (list_eq_dec N.eq_dec) (tokenize query) []) as [Hnil | Htokens].
  - exists (allProductsUnranked this).
    split; [now apply performAdvancedSearch_no_tokens|].
    split; [intros H; contradiction|]. intros _.
    rewrite allProductsUnranked_map. apply Forall_forall. intros r Hr.
    apply in_map_iff in Hr. destruct Hr as [p [<- _]]. reflexivity.
  - destruct (search_ranked this query Hindexed Htokens)
      as [sorted [Hsearch [Hperm _]]].
    exists (List.map Ranked sorted). split; [exact Hsearch|].
    split; [|intros H; contradiction]. intros _.
    apply Forall_forall. intros r Hr. apply in_map_iff in Hr.
    destruct Hr as [s [<- Hs]]. cbn [result_score].
    apply (Permutation_in _ (Permutation_sym Hperm)) in Hs.
    apply in_flat_map in Hs. destruct Hs as [product [_ Hs]].
    apply pushed_inv in Hs. destruct Hs as [Hpos ->].
    cbn [rankedResult SearchResult.score].
    destruct (relevanceOf_score product (tokenize query) Htokens) as [_ Hscore].
    destruct (Hscore Hpos) as [Hhalf [_ [Hsum Hexact]]].
    split; [lra|]. split; [exact Hhalf|]. split; [exact Hsum | exact Hexact].
Qed.

Lemma C10_witness :
  indexed boutique
  /\ exists results,
      performAdvancedSearch boutique (Some (JsString.lit "floral dress")) = Some results
      /\ results <> []
      /\ Forall (fun r => (0 < result_score r)%Q) results.
Proof.
  split; [reflexivity|].
  destruct (C10_ranked_scores_positive boutique (Some (JsString.lit "floral dress")))
    as [results [Hsearch [Hpos _]]].
  - reflexivity.
  - exists results. split; [exact Hsearch|]. split.
    + intros E. rewrite E in Hsearch. vm_compute in Hsearch. discriminate Hsearch.
    + eapply Forall_impl; [|apply Hpos; discriminate].
      intros r [H _]. exact H.
Defined.

(** C10, as stated, fails in the last place: on the product "Kimono" with
    the description "xabx", the query "ab cd ef" matches one term of three
    and the score is 1.1666666666666665, the binary64 number below
    1/2 + 2/3. *)
Lemma C10_counterexample :
  indexed kimono_only
  /\ List.length (tokenize (Some (JsString.lit "ab cd ef"))) = 3
  /\ exists r,
      performAdvancedSearch kimono_only (Some (JsString.lit "ab cd ef")) = Some [Ranked r]
      /\ SearchResult.matchedTerms r = 1
      /\ (SearchResult.score r == 2627099782632789 # 2251799813685248)%Q
      /\ (0 < SearchResult.score r)%Q
      /\ ~ ((1 # 2) + 2 / Q_of_nat 3 <= SearchResult.score r)%Q.
Proof.
  split; [reflexivity|]. split; [reflexivity|].
  eexists. split; [vm_compute; reflexivity|].
  cbn [SearchResult.matchedTerms SearchResult.score].
  split; [reflexivity|]. split; [vm_compute; reflexivity|].
  split; [vm_compute; reflexivity|].
  vm_compute. intros H. apply H. reflexivity.
Qed.

(** ** Suggestions *)

Lemma Set_add_In (set : list jsstring) (x y : jsstring) :
  In y (Set_add set x) -> In y set \/ y = x.
Proof.
  unfold Set_add. destruct (Array_includes set x); [auto|].
  intros H. apply in_app_or in H. destruct H as [H | [<- | []]]; auto.
Qed.

(** C8. For a query with a single token, no suggestion is that token: the
    fuzzy branch adds a candidate only if it differs from the query token,
    the containment branch only if it is longer. *)
Theorem C8_suggestions_exclude_query_token
        (this : FashionCatalogue) (query : option jsstring) (queryToken : jsstring) :
  tokenize query = [queryToken] ->
  Forall (fun suggestion => suggestion <> queryToken)
         (generateSearchSuggestions this query).
Proof.
  intros Hquery. unfold generateSearchSuggestions. rewrite Hquery. cbv zeta.
  apply Forall_forall. intros suggestion Hin Heq. subst suggestion.
  revert Hin.
  match goal with
  | |- In _ (firstn 5 ?l) -> False => cut (~ In queryToken l)
  end.
  { intros Hnot Hin. apply Hnot.
    rewrite <- (firstn_skipn 5). apply in_or_app. now left. }
  apply (forEach_invariant (fun set => ~ In queryToken set)); [intros []|].
  intros set product _ Hset.
  apply (forEach_invariant (fun set => ~ In queryToken set)); [exact Hset|].
  clear set Hset. intros set token _ Hset.
  unfold forEach. cbn [fold_left].
  assert (Hadd : token <> queryToken -> ~ In queryToken (Set_add set token)).
  { intros Hne Hin. apply Set_add_In in Hin. destruct Hin as [Hin | Hin]; auto. }
  destruct (negb (JsString.eqb token queryToken)
            && fuzzyMatch queryToken token (7 # 10)) eqn:Efuzzy.
  - apply andb_prop in Efuzzy. destruct Efuzzy as [Ene _].
    apply negb_true_iff, JsStringFacts.eqb_neq in Ene.
    destruct ((List.length queryToken <? List.length token)
              && JsString.includes token queryToken) eqn:Econtains.
    + intros Hin. apply Set_add_In in Hin. destruct Hin as [Hin | Hin]; [|auto].
      now apply Hadd in Hin.
    + now apply Hadd.
  - destruct ((List.length queryToken <? List.length token)
              && JsString.includes token queryToken) eqn:Econtains; [|exact Hset].
    apply andb_prop in Econtains. destruct Econtains as [Elen _].
    apply Nat.ltb_lt in Elen.
    intros Hin. apply Set_add_In in Hin. destruct Hin as [Hin | Hin]; [auto|].
    rewrite Hin in Elen. lia.
Qed.

Lemma C8_witness :
  tokenize (Some (JsString.lit "drss")) = [JsString.lit "drss"]
  /\ generateSearchSuggestions boutique (Some (JsString.lit "drss")) <> []
  /\ Forall (fun suggestion => suggestion <> JsString.lit "drss")
            (generateSearchSuggestions boutique (Some (JsString.lit "drss"))).
Proof.
  split; [reflexivity|]. split; [vm_compute; discriminate|].
  apply (C8_suggestions_exclude_query_token boutique (Some (JsString.lit "drss"))
           (JsString.lit "drss")).
  reflexivity.
Defined.

(* ================================================================== *)
(** * Further properties of the search engine *)

(** ** What the normalizer and the tokenizer return *)

Lemma trimStart_length (s : jsstring) :
  List.length (JsString.trimStart s) <= List.length s.
Proof.
  destruct (JsStringFacts.trimStart_suffix s) as [pre H].
  rewrite H at 2. rewrite length_app. lia.
Qed.

Lemma trimEnd_length (s : jsstring) :
  List.length (JsString.trimEnd s) <= List.length s.
Proof.
  destruct (JsStringFacts.trimEnd_prefix s) as [post H].
  rewrite H at 2. rewrite length_app. lia.
Qed.

Lemma trimEnd_snoc_space (s : jsstring) (c : JsString.code_unit) :
  JsString.is_space c = true -> JsString.trimEnd (s ++ [c]) = JsString.trimEnd s.
Proof.
  intros Hc. induction s as [|d s IH]; simpl.
  - now rewrite Hc.
  - now rewrite IH.
Qed.

Lemma trim_fixed_ends (s : jsstring) :
  JsString.trim s = s ->
  (forall rest, s <> JsString.SPACE :: rest)
  /\ (forall front, s <> front ++ [JsString.SPACE]).
Proof.
  intros H. unfold JsString.trim in H.
  pose proof (trimStart_length s) as Hs.
  pose proof (trimEnd_length (JsString.trimStart s)) as He.
  assert (Hlen : List.length (JsString.trimStart s) = List.length s)
    by (rewrite H in He; lia).
  split.
  - intros rest ->. simpl in Hlen.
    pose proof (trimStart_length rest). lia.
  - intros front ->.
    assert (Hstart : JsString.trimStart (front ++ [JsString.SPACE])
                     = front ++ [JsString.SPACE]).
    { destruct (JsStringFacts.trimStart_suffix (front ++ [JsString.SPACE])) as [pre Hpre].
      destruct pre as [|p pre]; [simpl in Hpre; now symmetry|].
      apply (f_equal (@List.length _)) in Hpre.
      rewrite (length_app (p :: pre)) in Hpre. simpl in Hpre. lia. }
    rewrite Hstart, trimEnd_snoc_space in H by reflexivity.
    pose proof (trimEnd_length front) as Hf. rewrite H in Hf.
    rewrite length_app in Hf. simpl in Hf. lia.
Qed.

Lemma no_space_run_no_pair (s : jsstring) :
  no_space_run s ->
  forall front rest, s <> front ++ JsString.SPACE :: JsString.SPACE :: rest.
Proof.
  intros H front rest ->.
  apply JsStringFacts.no_space_run_app_r in H.
  simpl in H. apply (proj1 H). split; reflexivity.
Qed.

(** X1. Whatever the input, the text that [normalizeText] returns is made of
    lower-case ASCII letters, digits and spaces only, does not begin or end
    with a space, and has no two spaces in a row. *)
Theorem X1_normalizeText_shape (text : option jsstring) :
  Forall (fun c => is_lower_alnum c = true \/ c = JsString.SPACE) (normalizeText text)
  /\ (forall rest, normalizeText text <> JsString.SPACE :: rest)
  /\ (forall front, normalizeText text <> front ++ [JsString.SPACE])
  /\ (forall front rest,
         normalizeText text <> front ++ JsString.SPACE :: JsString.SPACE :: rest).
Proof.
  destruct (normalizeText_normal text) as [Htidy [Hrun Htrim]].
  destruct (trim_fixed_ends _ Htrim) as [Hstart Hend].
  split; [exact Htidy|]. split; [exact Hstart|]. split; [exact Hend|].
  now apply no_space_run_no_pair.
Qed.

Lemma split_pieces (sep : JsString.code_unit) (s w : jsstring) :
  In w (JsString.split sep s) -> Forall (fun c => In c s /\ c <> sep) w.
Proof.
  revert w. induction s as [|c s IH]; intros w; simpl JsString.split.
  - intros [<- | []]. constructor.
  - destruct (N.eqb_spec c sep) as [-> | Hne].
    + intros [<- | H]; [constructor|].
      eapply Forall_impl; [|apply IH, H]. intros d [Hd Hs]. split; [now right | exact Hs].
    + destruct (JsString.split sep s) as [|w0 ws0] eqn:E.
      * intros [<- | []]. constructor; [split; [now left | exact Hne] | constructor].
      * intros [<- | H].
        -- constructor; [split; [now left | exact Hne]|].
           eapply Forall_impl; [|apply IH; now left].
           intros d [Hd Hs]. split; [now right | exact Hs].
        -- eapply Forall_impl; [|apply IH; now right].
           intros d [Hd Hs]. split; [now right | exact Hs].
Qed.

Lemma tokens_well_formed (text : option jsstring) :
  Forall (fun token =>
            2 <= List.length token
            /\ ~ In token stopWords
            /\ Forall (fun c => is_lower_alnum c = true) token)
         (tokenize text).
Proof.
  apply Forall_forall. intros token Hin.
  unfold tokenize in Hin. destruct (truthy text) as [s|]; [|destruct Hin].
  apply filter_In in Hin. destruct Hin as [Hin Hstop].
  apply filter_In in Hin. destruct Hin as [Hin Hlen].
  split; [apply Nat.ltb_lt in Hlen; lia|]. split.
  - intros Hs. apply Array_includes_In in Hs. now rewrite Hs in Hstop.
  - destruct (normalizeText_normal text) as [Htidy _].
    apply Forall_forall. intros c Hc.
    pose proof (split_pieces _ _ _ Hin) as Hpieces.
    rewrite Forall_forall in Hpieces, Htidy.
    destruct (Hpieces c Hc) as [Hcs Hne].
    destruct (Htidy c Hcs) as [H | H]; [exact H | contradiction].
Qed.

(** X2. Every token that [tokenize] returns has at least two code units, is
    not a stop word, and is made of lower-case ASCII letters and digits only
    (so it contains no space and no punctuation). *)
Theorem X2_tokens_well_formed (text : option jsstring) :
  Forall (fun token =>
            2 <= List.length token
            /\ ~ In token stopWords
            /\ Forall (fun c => is_lower_alnum c = true) token)
         (tokenize text).
Proof. apply tokens_well_formed. Qed.

Lemma normalizeText_twice (x : option jsstring) :
  normalizeText (Some (normalizeText x)) = normalizeText x.
Proof.
  destruct (normalizeText_normal x) as [Htidy [Hrun Htrim]].
  remember (normalizeText x) as n eqn:En. clear En.
  unfold normalizeText at 1.
  destruct n as [|c n]; [reflexivity|]. simpl truthy. cbv iota beta.
  rewrite JsStringFacts.toLowerCase_tidy by assumption.
  rewrite JsStringFacts.replace_non_word_non_space_tidy by assumption.
  rewrite JsStringFacts.replace_hyphen_underscore_tidy by assumption.
  rewrite JsStringFacts.replace_space_runs_fixed by assumption.
  exact Htrim.
Qed.

Lemma tokenize_of_normalizeText (text : option jsstring) :
  tokenize text
  = filter (fun token => negb (Array_includes stopWords token))
      (filter (fun token => 1 <? List.length token)
         (JsString.split JsString.SPACE (normalizeText text))).
Proof.
  unfold tokenize. destruct (truthy text) eqn:E; [reflexivity|].
  unfold normalizeText. rewrite E. reflexivity.
Qed.

(** Two texts with the same normalized text have the same tokens. *)
Lemma tokenize_ext (text1 text2 : option jsstring) :
  normalizeText text1 = normalizeText text2 -> tokenize text1 = tokenize text2.
Proof. intros H. now rewrite !tokenize_of_normalizeText, H. Qed.

(** X3. Tokenizing a text that was normalized first gives the same tokens as
    tokenizing the text itself. *)
Theorem X3_tokenize_after_normalizeText (text : option jsstring) :
  tokenize (Some (normalizeText text)) = tokenize text.
Proof. apply tokenize_ext, normalizeText_twice. Qed.

(** X4. In the index that [buildSearchIndex] makes, every title token of an
    entry occurs in the entry's normalized title, every description token in
    its normalized description, and [allTokens] holds no other tokens: an
    exact title or description match always comes with the phrase bonus of
    the same field. *)
Theorem X4_index_tokens_in_normalized_text (this : FashionCatalogue) :
  Forall (fun entry =>
            Forall (fun token =>
                      JsString.includes (IndexEntry.normalizedTitle entry) token = true)
                   (IndexEntry.titleTokens entry)
            /\ Forall (fun token =>
                         JsString.includes (IndexEntry.normalizedDescription entry) token
                         = true)
                      (IndexEntry.descriptionTokens entry)
            /\ Forall (fun token =>
                         JsString.includes (IndexEntry.normalizedTitle entry) token = true
                         \/ JsString.includes (IndexEntry.normalizedDescription entry) token
                            = true)
                      (IndexEntry.allTokens entry))
         (searchIndex (buildSearchIndex this)).
Proof.
  apply Forall_forall. intros entry Hentry.
  apply In_nth_error in Hentry. destruct Hentry as [i Hi].
  unfold buildSearchIndex in Hi. cbn [searchIndex] in Hi.
  rewrite nth_error_map_indexed in Hi.
  destruct (nth_error (allProducts this) i) as [product|]; [|discriminate].
  injection Hi as <-.
  cbn [indexEntry IndexEntry.titleTokens IndexEntry.descriptionTokens
       IndexEntry.normalizedTitle IndexEntry.normalizedDescription IndexEntry.allTokens].
  rewrite !tokenize_or_empty.
  split; [|split].
  - apply Forall_forall. intros token. apply tokenize_includes.
  - apply Forall_forall. intros token. apply tokenize_includes.
  - apply Forall_forall. intros token Hin. apply in_app_or in Hin.
    destruct Hin as [Hin | Hin]; [left | right]; now apply tokenize_includes.
Qed.

(** ** Queries with the same tokens *)

Lemma performAdvancedSearch_tokens (this : FashionCatalogue) (query : option jsstring) :
  tokenize query <> [] ->
  performAdvancedSearch this query
  = (results <- scoreAllProducts this (tokenize query) ;;
     results <- Array_sort compareResults results ;;
     Some (List.map Ranked results)).
Proof.
  intros H. destruct (tokenizable query H) as [q [Hq [Htrim Hlen]]].
  unfold performAdvancedSearch. rewrite Hq, Htrim. cbv zeta. now rewrite Hlen.
Qed.

Lemma performAdvancedSearch_ext
      (this : FashionCatalogue) (query1 query2 : option jsstring) :
  tokenize query1 = tokenize query2 ->
  performAdvancedSearch this query1 = performAdvancedSearch this query2.
Proof.
  intros H.
  destruct (list_eq_dec (list_eq_dec N.eq_dec) (tokenize query1) []) as [Hnil | Htokens].
  - rewrite (performAdvancedSearch_no_tokens this query1 Hnil).
    rewrite H in Hnil. now rewrite (performAdvancedSearch_no_tokens this query2 Hnil).
  - rewrite (performAdvancedSearch_tokens this query1 Htokens).
    rewrite H in Htokens. rewrite (performAdvancedSearch_tokens this query2 Htokens).
    now rewrite H.
Qed.

(** X5. The search depends on the query only through its tokens: two queries
    with the same tokens get the same answer, whatever the catalogue. *)
Theorem X5_search_depends_on_tokens
        (this : FashionCatalogue) (query1 query2 : option jsstring) :
  tokenize query1 = tokenize query2 ->
  performAdvancedSearch this query1 = performAdvancedSearch this query2.
Proof.
  intros H.
  destruct (list_eq_dec (list_eq_dec N.eq_dec) (tokenize query1) []) as [Hnil | Htokens].
  - rewrite (performAdvancedSearch_no_tokens this query1 Hnil).
    rewrite H in Hnil. now rewrite (performAdvancedSearch_no_tokens this query2 Hnil).
  - rewrite (performAdvancedSearch_tokens this query1 Htokens).
    rewrite H in Htokens. rewrite (performAdvancedSearch_tokens this query2 Htokens).
    now rewrite H.
Qed.

Lemma X5_witness :
  tokenize (Some (JsString.lit "The DRESS!")) = tokenize (Some (JsString.lit "dress a"))
  /\ performAdvancedSearch boutique (Some (JsString.lit "The DRESS!"))
     = performAdvancedSearch boutique (Some (JsString.lit "dress a")).
Proof.
  split; [reflexivity|].
  apply (X5_search_depends_on_tokens boutique
           (Some (JsString.lit "The DRESS!")) (Some (JsString.lit "dress a"))).
  reflexivity.
Defined.

(** ** The query that [handleSearch] stores *)

Lemma lower_unit_again (c c' : JsString.code_unit) :
  In c' (JsString.lower_unit c) -> JsString.lower_unit c' = [c'].
Proof.
  unfold JsString.lower_unit at 1.
  destruct ((65 <=? c) && (c <=? 90))%N eqn:E1.
  - intros [<- | []]. unfold JsString.lower_unit.
    apply andb_prop in E1. destruct E1 as [E1 E2].
    apply N.leb_le in E1. apply N.leb_le in E2.
    destruct (N.leb_spec 65 (c + 32)); destruct (N.leb_spec (c + 32) 90);
      cbn [andb]; try lia.
    destruct (N.eqb_spec (c + 32) 8490); [lia|].
    destruct (N.eqb_spec (c + 32) 304); [lia|]. reflexivity.
  - destruct (c =? 8490)%N eqn:E2; [intros [<- | []]; reflexivity|].
    destruct (c =? 304)%N eqn:E3; [intros [<- | [<- | []]]; reflexivity|].
    intros [<- | []]. unfold JsString.lower_unit. now rewrite E1, E2, E3.
Qed.

Lemma toLowerCase_lowered (s : jsstring) :
  Forall (fun c => JsString.lower_unit c = [c]) (JsString.toLowerCase s).
Proof.
  apply Forall_forall. intros c' H. unfold JsString.toLowerCase in H.
  apply in_flat_map in H. destruct H as [c [_ H]]. eapply lower_unit_again; eauto.
Qed.

Lemma toLowerCase_fixed (s : jsstring) :
  Forall (fun c => JsString.lower_unit c = [c]) s -> JsString.toLowerCase s = s.
Proof.
  induction 1 as [|c s Hc Hs IH]; [reflexivity|].
  unfold JsString.toLowerCase in *. simpl. now rewrite Hc, IH.
Qed.

Lemma lower_unit_keeps_non_space (c c' : JsString.code_unit) :
  In c' (JsString.lower_unit c) -> JsString.is_space c' = true ->
  JsString.is_space c = true.
Proof.
  unfold JsString.lower_unit.
  destruct ((65 <=? c) && (c <=? 90))%N eqn:E1.
  - intros [<- | []] H. exfalso.
    apply andb_prop in E1. destruct E1 as [E1 E2].
    apply N.leb_le in E1. apply N.leb_le in E2.
    JsStringFacts.units.
  - destruct (c =? 8490)%N eqn:E2; [intros [<- | []]; discriminate|].
    destruct (c =? 304)%N eqn:E3; [intros [<- | [<- | []]]; discriminate|].
    intros [<- | []] H. exact H.
Qed.

Lemma toLowerCase_spaces_inv (s : jsstring) :
  Forall (fun c => JsString.is_space c = true) (JsString.toLowerCase s) ->
  Forall (fun c => JsString.is_space c = true) s.
Proof.
  unfold JsString.toLowerCase. induction s as [|c s IH]; [constructor|].
  simpl. intros H. apply Forall_app in H. destruct H as [Hc Hs].
  constructor; [|now apply IH].
  assert (Hne : exists c', In c' (JsString.lower_unit c)).
  { unfold JsString.lower_unit.
    destruct ((65 <=? c) && (c <=? 90))%N; [eexists; now left|].
    destruct (c =? 8490)%N; [eexists; now left|].
    destruct (c =? 304)%N; eexists; now left. }
  destruct Hne as [c' Hc'].
  eapply lower_unit_keeps_non_space; [exact Hc'|].
  rewrite Forall_forall in Hc. now apply Hc.
Qed.

Lemma trimStart_decompose (s : jsstring) :
  exists pre, s = pre ++ JsString.trimStart s
              /\ Forall (fun c => JsString.is_space c = true) pre.
Proof.
  induction s as [|c s [pre [IH Hpre]]]; [exists []; split; [reflexivity | constructor]|].
  simpl. destruct (JsString.is_space c) eqn:E.
  - exists (c :: pre). split; [simpl; now f_equal | now constructor].
  - exists []. split; [reflexivity | constructor].
Qed.

Lemma trimEnd_decompose (s : jsstring) :
  exists post, s = JsString.trimEnd s ++ post
               /\ Forall (fun c => JsString.is_space c = true) post.
Proof.
  induction s as [|c s [post [IH Hpost]]]; [exists []; split; [reflexivity | constructor]|].
  simpl. destruct (JsString.trimEnd s) as [|d r] eqn:E.
  - simpl in IH. subst post. destruct (JsString.is_space c) eqn:Ec.
    + exists (c :: s). split; [reflexivity | now constructor].
    + exists s. split; [reflexivity | assumption].
  - exists post. split; [simpl; now f_equal | assumption].
Qed.

Lemma trim_decompose (s : jsstring) :
  exists pre post,
    s = pre ++ JsString.trim s ++ post
    /\ Forall (fun c => JsString.is_space c = true) pre
    /\ Forall (fun c => JsString.is_space c = true) post.
Proof.
  destruct (trimStart_decompose s) as [pre [H1 Hpre]].
  destruct (trimEnd_decompose (JsString.trimStart s)) as [post [H2 Hpost]].
  exists pre, post. unfold JsString.trim. rewrite <- H2. auto.
Qed.

Lemma trimStart_app_spaces (ws s : jsstring) :
  Forall (fun c => JsString.is_space c = true) ws ->
  JsString.trimStart (ws ++ s) = JsString.trimStart s.
Proof. induction 1 as [|c ws Hc Hws IH]; [reflexivity|]. simpl. now rewrite Hc. Qed.

Lemma trimStart_app_end (s ws : jsstring) :
  (JsString.trimStart s = [] ->
   Forall (fun c => JsString.is_space c = true) ws ->
   JsString.trimStart (s ++ ws) = [])
  /\ (JsString.trimStart s <> [] ->
      JsString.trimStart (s ++ ws) = JsString.trimStart s ++ ws).
Proof.
  induction s as [|c s [IH1 IH2]]; simpl.
  - split; [intros _ H; now apply JsStringFacts.trimStart_spaces | congruence].
  - destruct (JsString.is_space c); [now split|].
    split; [discriminate | reflexivity].
Qed.

Lemma trimEnd_spaces (s : jsstring) :
  Forall (fun c => JsString.is_space c = true) s -> JsString.trimEnd s = [].
Proof. induction 1 as [|c s Hc Hs IH]; [reflexivity|]. simpl. now rewrite IH, Hc. Qed.

Lemma replace_space_runs_cons_space (c : JsString.code_unit) (s : jsstring) :
  JsString.is_space c = true ->
  JsString.trimStart (JsString.replace_space_runs (c :: s))
  = JsString.trimStart (JsString.replace_space_runs s).
Proof.
  intros Hc. cbn [JsString.replace_space_runs]. rewrite Hc.
  destruct s as [|c' s']; [reflexivity|].
  destruct (JsString.is_space c'); reflexivity.
Qed.

Lemma trimStart_replace_space_runs (s : jsstring) :
  JsString.trimStart (JsString.replace_space_runs s)
  = JsString.replace_space_runs (JsString.trimStart s).
Proof.
  induction s as [|c s IH]; [reflexivity|].
  destruct (JsString.is_space c) eqn:Ec.
  - rewrite (replace_space_runs_cons_space c s Ec), IH.
    cbn [JsString.trimStart]. now rewrite Ec.
  - repeat (cbn [JsString.trimStart JsString.replace_space_runs]; rewrite Ec).
    reflexivity.
Qed.

Lemma trimEnd_cons (c : JsString.code_unit) (s t : jsstring) :
  JsString.trimEnd s = JsString.trimEnd t ->
  JsString.trimEnd (c :: s) = JsString.trimEnd (c :: t).
Proof. intros H. simpl. now rewrite H. Qed.

Lemma trimEnd_replace_space_runs_app (s ws : jsstring) :
  Forall (fun c => JsString.is_space c = true) ws ->
  JsString.trimEnd (JsString.replace_space_runs (s ++ ws))
  = JsString.trimEnd (JsString.replace_space_runs s).
Proof.
  intros Hws. induction s as [|c s IH].
  - simpl. apply trimEnd_spaces, JsStringFacts.replace_space_runs_spaces, Hws.
  - cbn [app JsString.replace_space_runs].
    destruct (JsString.is_space c) eqn:Ec.
    + destruct s as [|c' s'].
      * cbn [app]. destruct ws as [|w ws'].
        -- reflexivity.
        -- apply Forall_cons_iff in Hws. destruct Hws as [Hw Hws'].
           rewrite Hw. cbn [JsString.trimEnd].
           rewrite (trimEnd_spaces (JsString.replace_space_runs (w :: ws'))).
           ++ reflexivity.
           ++ apply JsStringFacts.replace_space_runs_spaces. now constructor.
      * cbn [app]. destruct (JsString.is_space c'); [exact IH|].
        apply trimEnd_cons, IH.
    + apply trimEnd_cons, IH.
Qed.

Lemma trim_replace_space_runs_pad (ws1 s ws2 : jsstring) :
  Forall (fun c => JsString.is_space c = true) ws1 ->
  Forall (fun c => JsString.is_space c = true) ws2 ->
  JsString.trim (JsString.replace_space_runs (ws1 ++ s ++ ws2))
  = JsString.trim (JsString.replace_space_runs s).
Proof.
  intros H1 H2. unfold JsString.trim.
  rewrite !trimStart_replace_space_runs, (trimStart_app_spaces ws1 _ H1).
  destruct (trimStart_app_end s ws2) as [Hnil Hcons].
  destruct (JsString.trimStart s) as [|c t] eqn:E.
  - now rewrite (Hnil eq_refl H2).
  - rewrite Hcons by discriminate. now apply trimEnd_replace_space_runs_app.
Qed.

Lemma cleaned_app (s t : jsstring) :
  JsString.replace_hyphen_underscore (JsString.replace_non_word_non_space (s ++ t))
  = JsString.replace_hyphen_underscore (JsString.replace_non_word_non_space s)
    ++ JsString.replace_hyphen_underscore (JsString.replace_non_word_non_space t).
Proof.
  unfold JsString.replace_hyphen_underscore, JsString.replace_non_word_non_space.
  now rewrite !map_app.
Qed.

Lemma cleaned_spaces_only (s : jsstring) :
  Forall (fun c => JsString.is_space c = true) s ->
  JsString.replace_hyphen_underscore (JsString.replace_non_word_non_space s) = s.
Proof.
  intros H. rewrite <- (JsStringFacts.cleaned_spaces H) at 2.
  f_equal. f_equal. symmetry. apply toLowerCase_fixed.
  eapply Forall_impl; [|exact H]. intros c Hc. now apply JsStringFacts.lower_unit_space.
Qed.

Lemma normalizeText_trim_toLowerCase (query : jsstring) :
  normalizeText (Some (JsString.trim (JsString.toLowerCase query)))
  = normalizeText (Some query).
Proof.
  destruct (trim_decompose (JsString.toLowerCase query)) as [pre [post [HL [Hpre Hpost]]]].
  set (M := JsString.trim (JsString.toLowerCase query)) in *.
  assert (HM : JsString.toLowerCase M = M).
  { apply toLowerCase_fixed.
    pose proof (toLowerCase_lowered query) as H. rewrite HL in H.
    apply Forall_app in H. destruct H as [_ H].
    apply Forall_app in H. apply H. }
  destruct M as [|m M'] eqn:EM.
  - (* the stored query is empty: the query is blank *)
    symmetry. apply blank_normalizeText. simpl.
    apply toLowerCase_spaces_inv. rewrite HL. simpl.
    apply Forall_app. now split.
  - destruct query as [|q query']; [discriminate EM|].
    unfold normalizeText. cbn [truthy]. rewrite HM.
    rewrite HL. rewrite !cleaned_app.
    rewrite (cleaned_spaces_only pre Hpre), (cleaned_spaces_only post Hpost).
    symmetry. now apply trim_replace_space_runs_pad.
Qed.

(** X6. For a query of ASCII code units, the text that [handleSearch]
    stores, lower-cased and trimmed, has the same normalized text and the
    same tokens as the text that was typed, and searching for it gives the
    same answer. *)
Theorem X6_stored_query_searches_alike (this : FashionCatalogue) (query : jsstring) :
  forallb is_ascii query = true ->
  exists stored,
    storedSearchQuery query = Some stored
    /\ normalizeText (Some stored) = normalizeText (Some query)
    /\ tokenize (Some stored) = tokenize (Some query)
    /\ performAdvancedSearch this (Some stored) = performAdvancedSearch this (Some query).
Proof.
  intros Hascii. exists (JsString.trim (JsString.toLowerCase query)).
  split; [unfold storedSearchQuery; now rewrite Hascii|].
  pose proof (normalizeText_trim_toLowerCase query) as H.
  pose proof (tokenize_ext _ _ H) as Ht.
  split; [exact H|]. split; [exact Ht|].
  apply performAdvancedSearch_ext. exact Ht.
Qed.

Lemma X6_witness :
  forallb is_ascii (JsString.lit "  Floral DRESS ") = true
  /\ storedSearchQuery (JsString.lit "  Floral DRESS ") = Some (JsString.lit "floral dress")
  /\ performAdvancedSearch boutique (Some (JsString.lit "floral dress"))
     = performAdvancedSearch boutique (Some (JsString.lit "  Floral DRESS ")).
Proof.
  split; [reflexivity|]. split; [reflexivity|].
  destruct (X6_stored_query_searches_alike boutique (JsString.lit "  Floral DRESS "))
    as [stored [Hstored [_ [_ Hsearch]]]].
  - reflexivity.
  - assert (E : stored = JsString.lit "floral dress")
      by (vm_compute in Hstored; now injection Hstored).
    now rewrite <- E.
Defined.

(** ** The edit distance *)

Lemma cell_local (s1 s2 t1 t2 : jsstring) (i j : nat) :
  (forall k, k < j -> JsString.charAt s1 k = JsString.charAt t1 k) ->
  (forall k, k < i -> JsString.charAt s2 k = JsString.charAt t2 k) ->
  cell s1 s2 i j = cell t1 t2 i j.
Proof.
  revert j. induction i as [|i IHi]; intros j H1 H2; [reflexivity|].
  induction j as [|j IHj]; [reflexivity|].
  rewrite !cell_step.
  rewrite (H1 j), (H2 i) by lia.
  rewrite (IHi j), (IHi (S j)), IHj; auto.
Qed.

Lemma charAt_app (s t : jsstring) (k : nat) :
  k < List.length s -> JsString.charAt (s ++ t) k = JsString.charAt s k.
Proof. intros H. unfold JsString.charAt. now rewrite nth_error_app1. Qed.

Lemma charAt_last (s : jsstring) (x : JsString.code_unit) :
  JsString.charAt (s ++ [x]) (List.length s) = [x].
Proof.
  unfold JsString.charAt. now rewrite nth_error_app2, Nat.sub_diag by lia.
Qed.

Lemma cell_upper (s1 s2 : jsstring) (i j : nat) :
  cell s1 s2 i j <= Nat.max i j.
Proof.
  revert j. induction i as [|i IHi]; intros j; [simpl; lia|].
  induction j as [|j IHj]; [simpl; lia|].
  rewrite cell_step. specialize (IHi j).
  destruct (JsString.eqb _ _); lia.
Qed.

Lemma cell_lower (s1 s2 : jsstring) (i j : nat) :
  i - j <= cell s1 s2 i j /\ j - i <= cell s1 s2 i j.
Proof.
  revert j. induction i as [|i IHi]; intros j; [simpl; lia|].
  induction j as [|j IHj]; [simpl; lia|].
  rewrite cell_step.
  pose proof (IHi j). pose proof (IHi (S j)).
  destruct (JsString.eqb _ _); lia.
Qed.

(** Neighbouring cells of the matrix differ by at most one. *)
Lemma cell_neighbours (s1 s2 : jsstring) (i j : nat) :
  (cell s1 s2 i (S j) <= cell s1 s2 i j + 1 /\ cell s1 s2 i j <= cell s1 s2 i (S j) + 1)
  /\ (cell s1 s2 (S i) j <= cell s1 s2 i j + 1 /\ cell s1 s2 i j <= cell s1 s2 (S i) j + 1).
Proof.
  assert (Hdown : forall i j,
             (cell s1 s2 i (S j) <= cell s1 s2 i j + 1
              /\ cell s1 s2 i j <= cell s1 s2 i (S j) + 1) ->
             (cell s1 s2 (S i) j <= cell s1 s2 i j + 1
              /\ cell s1 s2 i j <= cell s1 s2 (S i) j + 1) ->
             cell s1 s2 (S i) (S j) <= cell s1 s2 i (S j) + 1
             /\ cell s1 s2 i (S j) <= cell s1 s2 (S i) (S j) + 1).
  { intros i0 j0 Hh Hv. rewrite cell_step. destruct (JsString.eqb _ _); lia. }
  assert (Hright : forall i j,
             (cell s1 s2 i (S j) <= cell s1 s2 i j + 1
              /\ cell s1 s2 i j <= cell s1 s2 i (S j) + 1) ->
             (cell s1 s2 (S i) j <= cell s1 s2 i j + 1
              /\ cell s1 s2 i j <= cell s1 s2 (S i) j + 1) ->
             cell s1 s2 (S i) (S j) <= cell s1 s2 (S i) j + 1
             /\ cell s1 s2 (S i) j <= cell s1 s2 (S i) (S j) + 1).
  { intros i0 j0 Hh Hv. rewrite cell_step. destruct (JsString.eqb _ _); lia. }
  revert j. induction i as [|i IHi].
  - assert (Hh : forall j, cell s1 s2 0 (S j) <= cell s1 s2 0 j + 1
                           /\ cell s1 s2 0 j <= cell s1 s2 0 (S j) + 1)
      by (intros j; simpl; lia).
    intros j. split; [apply Hh|].
    induction j as [|j IHj]; [simpl; lia|].
    apply Hdown; [apply Hh | exact IHj].
  - assert (Hh : forall j, cell s1 s2 (S i) (S j) <= cell s1 s2 (S i) j + 1
                           /\ cell s1 s2 (S i) j <= cell s1 s2 (S i) (S j) + 1)
      by (intros j; apply Hright; apply IHi).
    intros j. split; [apply Hh|].
    induction j as [|j IHj]; [simpl; lia|].
    apply Hdown; [apply Hh | exact IHj].
Qed.

(** The cell in its textbook form: also on equal characters it is the least
    of the three neighbours' costs. *)
Lemma cell_textbook (s1 s2 : jsstring) (i j : nat) :
  cell s1 s2 (S i) (S j)
  = Nat.min (cell s1 s2 i j
             + (if JsString.eqb (JsString.charAt s2 i) (JsString.charAt s1 j) then 0 else 1))
      (Nat.min (cell s1 s2 (S i) j + 1) (cell s1 s2 i (S j) + 1)).
Proof.
  rewrite cell_step. pose proof (cell_neighbours s1 s2 i j).
  destruct (JsString.eqb _ _); lia.
Qed.

Lemma levenshteinDistance_bounds (str1 str2 : jsstring) :
  exists distance,
    levenshteinDistance str1 str2 = Some distance
    /\ List.length str1 - List.length str2 <= distance
    /\ List.length str2 - List.length str1 <= distance
    /\ distance <= Nat.max (List.length str1) (List.length str2).
Proof.
  exists (cell str1 str2 (List.length str2) (List.length str1)).
  split; [apply levenshteinDistance_cell|].
  pose proof (cell_lower str1 str2 (List.length str2) (List.length str1)).
  pose proof (cell_upper str1 str2 (List.length str2) (List.length str1)).
  lia.
Qed.

(** X7. [levenshteinDistance] always returns a number; the number is the
    same when the two strings are swapped, is at least the difference of the
    two lengths and at most the greater length. *)
Theorem X7_levenshteinDistance_bounds (str1 str2 : jsstring) :
  exists distance,
    levenshteinDistance str1 str2 = Some distance
    /\ levenshteinDistance str2 str1 = Some distance
    /\ List.length str1 - List.length str2 <= distance
    /\ List.length str2 - List.length str1 <= distance
    /\ distance <= Nat.max (List.length str1) (List.length str2).
Proof.
  exists (cell str1 str2 (List.length str2) (List.length str1)).
  split; [apply levenshteinDistance_cell|].
  split; [rewrite levenshteinDistance_sym; apply levenshteinDistance_cell|].
  pose proof (cell_lower str1 str2 (List.length str2) (List.length str1)).
  pose proof (cell_upper str1 str2 (List.length str2) (List.length str1)).
  lia.
Qed.

Lemma firstn_succ_nth {A : Type} (l : list A) (i : nat) (x : A) :
  nth_error l i = Some x -> firstn (S i) l = firstn i l ++ [x].
Proof.
  revert i. induction l as [|y l IH]; intros [|i] H; try discriminate.
  - simpl in H. injection H as ->. reflexivity.
  - simpl in *. f_equal. now apply IH.
Qed.

Lemma cell_diagonal_zero (s1 s2 : jsstring) (i : nat) :
  i <= List.length s1 -> i <= List.length s2 ->
  (cell s1 s2 i i = 0 <-> firstn i s1 = firstn i s2).
Proof.
  induction i as [|i IH]; intros H1 H2; [simpl; tauto|].
  destruct (nth_error s1 i) as [c1|] eqn:E1;
    [|apply nth_error_None in E1; lia].
  destruct (nth_error s2 i) as [c2|] eqn:E2;
    [|apply nth_error_None in E2; lia].
  rewrite (firstn_succ_nth s1 i c1 E1), (firstn_succ_nth s2 i c2 E2).
  rewrite cell_step. unfold JsString.charAt. rewrite E1, E2.
  destruct (JsString.eqb [c2] [c1]) eqn:E.
  - apply JsStringFacts.eqb_eq in E. injection E as ->.
    rewrite IH by lia. split; [intros ->; reflexivity|].
    intros H. now apply app_inj_tail in H.
  - apply JsStringFacts.eqb_neq in E. split; [lia|].
    intros H. apply app_inj_tail in H. destruct H as [_ ->]. now destruct E.
Qed.

(** X8. The distance between two strings is 0 exactly when they are equal. *)
Theorem X8_levenshteinDistance_zero (str1 str2 : jsstring) :
  levenshteinDistance str1 str2 = Some 0 <-> str1 = str2.
Proof.
  rewrite levenshteinDistance_cell. split.
  - intros H. injection H as H.
    pose proof (cell_lower str1 str2 (List.length str2) (List.length str1)) as Hl.
    assert (Hlen : List.length str2 = List.length str1) by lia.
    rewrite Hlen in H.
    apply cell_diagonal_zero in H; [|lia|lia].
    rewrite firstn_all in H. rewrite <- Hlen, firstn_all in H. exact H.
  - intros ->. f_equal. apply cell_diagonal_zero; auto.
Qed.

(** X9. [levenshteinDistance] satisfies the equations of the edit distance:
    against the empty string it is the length of the other string; and when
    each string gets one more character, it is the least of the distance
    without the two characters (plus one if they differ), and of one more
    than the distance with either character left out. *)
Theorem X9_levenshteinDistance_equations (str1 str2 : jsstring) :
  levenshteinDistance str1 [] = Some (List.length str1)
  /\ levenshteinDistance [] str2 = Some (List.length str2)
  /\ forall x y,
      exists both_out second_out first_out,
        levenshteinDistance str1 str2 = Some both_out
        /\ levenshteinDistance (str1 ++ [x]) str2 = Some second_out
        /\ levenshteinDistance str1 (str2 ++ [y]) = Some first_out
        /\ levenshteinDistance (str1 ++ [x]) (str2 ++ [y])
           = Some (Nat.min (both_out + (if (x =? y)%N then 0 else 1))
                     (Nat.min (second_out + 1) (first_out + 1))).
Proof.
  split; [rewrite levenshteinDistance_cell; reflexivity|].
  split; [rewrite levenshteinDistance_cell; simpl; now rewrite cell_row_start|].
  intros x y.
  exists (cell str1 str2 (List.length str2) (List.length str1)),
         (cell (str1 ++ [x]) str2 (List.length str2) (List.length (str1 ++ [x]))),
         (cell str1 (str2 ++ [y]) (List.length (str2 ++ [y])) (List.length str1)).
  repeat split; try apply levenshteinDistance_cell.
  rewrite levenshteinDistance_cell. f_equal.
  rewrite !length_app. cbn [List.length]. rewrite !Nat.add_1_r.
  rewrite cell_textbook, !charAt_last.
  assert (Heq : JsString.eqb [y] [x] = (x =? y)%N).
  { destruct (N.eqb_spec x y) as [-> | Hne].
    - apply JsStringFacts.eqb_refl.
    - apply JsStringFacts.eqb_neq. congruence. }
  rewrite Heq.
  rewrite (cell_local (str1 ++ [x]) (str2 ++ [y]) str1 str2
             (List.length str2) (List.length str1))
    by (intros; now apply charAt_app).
  rewrite (cell_local (str1 ++ [x]) (str2 ++ [y]) str1 (str2 ++ [y])
             (S (List.length str2)) (List.length str1))
    by (intros; auto; now apply charAt_app).
  rewrite (cell_local (str1 ++ [x]) (str2 ++ [y]) (str1 ++ [x]) str2
             (List.length str2) (S (List.length str1)))
    by (intros; auto; now apply charAt_app).
  lia.
Qed.

(** X10. One more character at the end of either string changes the
    distance by at most one. *)
Theorem X10_levenshteinDistance_one_more (str1 str2 : jsstring) (x : JsString.code_unit) :
  exists distance longer1 longer2,
    levenshteinDistance str1 str2 = Some distance
    /\ levenshteinDistance (str1 ++ [x]) str2 = Some longer1
    /\ levenshteinDistance str1 (str2 ++ [x]) = Some longer2
    /\ distance <= longer1 + 1 /\ longer1 <= distance + 1
    /\ distance <= longer2 + 1 /\ longer2 <= distance + 1.
Proof.
  exists (cell str1 str2 (List.length str2) (List.length str1)),
         (cell (str1 ++ [x]) str2 (List.length str2) (List.length (str1 ++ [x]))),
         (cell str1 (str2 ++ [x]) (List.length (str2 ++ [x])) (List.length str1)).
  split; [apply levenshteinDistance_cell|].
  split; [apply levenshteinDistance_cell|].
  split; [apply levenshteinDistance_cell|].
  rewrite !length_app. cbn [List.length]. rewrite !Nat.add_1_r.
  pose proof (cell_neighbours (str1 ++ [x]) str2 (List.length str2) (List.length str1)) as H1.
  rewrite (cell_local (str1 ++ [x]) str2 str1 str2
             (List.length str2) (List.length str1)) in H1
    by (intros; auto; now apply charAt_app).
  pose proof (cell_neighbours str1 (str2 ++ [x]) (List.length str2) (List.length str1)) as H2.
  rewrite (cell_local str1 (str2 ++ [x]) str1 str2
             (List.length str2) (List.length str1)) in H2
    by (intros; auto; now apply charAt_app).
  lia.
Qed.

(** ** The fuzzy matcher *)

(** X11. Lowering the threshold never loses a match: what matches at the
    default 0.8 of the scorer also matches at the 0.7 of the suggestions. *)
Theorem X11_fuzzyMatch_threshold_monotone
        (term1 term2 : jsstring) (looser stricter : Q) :
  (looser <= stricter)%Q ->
  fuzzyMatch term1 term2 stricter = true ->
  fuzzyMatch term1 term2 looser = true.
Proof.
  intros Hle. unfold fuzzyMatch.
  destruct (JsString.eqb term1 term2); [auto|].
  destruct ((List.length term1 <? 3) || (List.length term2 <? 3)); [auto|].
  destruct (JsString.includes term1 term2 || JsString.includes term2 term1); [auto|].
  destruct (levenshteinDistance term1 term2) as [distance|]; [|auto].
  cbv zeta. intros H. apply Qle_bool_iff in H. apply Qle_bool_iff.
  eapply Qle_trans; eauto.
Qed.

Lemma X11_witness :
  (7 # 10 <= default_threshold)%Q
  /\ fuzzyMatch (JsString.lit "drss") (JsString.lit "dress") default_threshold = true
  /\ fuzzyMatch (JsString.lit "drss") (JsString.lit "dress") (7 # 10) = true.
Proof.
  assert (Hle : (7 # 10 <= default_threshold)%Q) by (vm_compute; discriminate).
  assert (Hm : fuzzyMatch (JsString.lit "drss") (JsString.lit "dress") default_threshold = true)
    by (vm_compute; reflexivity).
  split; [exact Hle|]. split; [exact Hm|].
  exact (X11_fuzzyMatch_threshold_monotone
           (JsString.lit "drss") (JsString.lit "dress") (7 # 10) default_threshold Hle Hm).
Defined.

(** X12. At the default threshold, two tokens match only if they are equal,
    or both have at least three code units and either one contains the other
    or their distance is at most a fifth of the greater length; in that last
    case their lengths differ by at most a fifth of the greater length. *)
Theorem X12_fuzzyMatch_default (term1 term2 : jsstring) :
  fuzzyMatch term1 term2 default_threshold = true ->
  term1 = term2
  \/ (3 <= List.length term1 /\ 3 <= List.length term2
      /\ (JsString.includes term1 term2 = true
          \/ JsString.includes term2 term1 = true
          \/ exists distance,
              levenshteinDistance term1 term2 = Some distance
              /\ 5 * distance <= Nat.max (List.length term1) (List.length term2)
              /\ 5 * (List.length term1 - List.length term2)
                 <= Nat.max (List.length term1) (List.length term2)
              /\ 5 * (List.length term2 - List.length term1)
                 <= Nat.max (List.length term1) (List.length term2))).
Proof.
  unfold fuzzyMatch.
  destruct (JsString.eqb term1 term2) eqn:Eeq.
  { intros _. left. now apply JsStringFacts.eqb_eq. }
  destruct (Nat.ltb_spec (List.length term1) 3) as [|H1]; [discriminate|].
  destruct (Nat.ltb_spec (List.length term2) 3) as [|H2]; [discriminate|].
  cbn [orb]. intros H. right. split; [exact H1|]. split; [exact H2|].
  destruct (JsString.includes term1 term2); [now left|].
  destruct (JsString.includes term2 term1); [right; now left|].
  cbn [orb] in H. right. right.
  destruct (levenshteinDistance_bounds term1 term2) as [distance [Hd [Hlo1 [Hlo2 _]]]].
  rewrite Hd in H. cbv zeta in H. exists distance. split; [exact Hd|].
  apply Qle_bool_iff in H.
  set (m := Nat.max (List.length term1) (List.length term2)) in *.
  assert (Hm : (0 < Q_of_nat m)%Q).
  { unfold Q_of_nat. change 0%Q with (inject_Z 0). rewrite <- Zlt_Qlt. lia. }
  assert (Hfive : 5 * distance <= m).
  { unfold default_threshold in H.
    assert (Hq : (Q_of_nat distance / Q_of_nat m <= 2 # 10)%Q) by lra.
    apply (Qmult_le_compat_r _ _ (Q_of_nat m)) in Hq; [|lra].
    unfold Qdiv in Hq. rewrite <- Qmult_assoc, (Qmult_comm (/ _)), Qmult_inv_r in Hq by lra.
    rewrite Qmult_1_r in Hq.
    assert (Hz : (inject_Z (Z.of_nat (5 * distance)) <= inject_Z (Z.of_nat m))%Q).
    { rewrite Nat2Z.inj_mul, inject_Z_mult. unfold Q_of_nat in *.
      change (inject_Z (Z.of_nat 5)) with 5%Q. lra. }
    rewrite <- Zle_Qle in Hz. lia. }
  lia.
Qed.

Lemma X12_witness :
  fuzzyMatch (JsString.lit "drss") (JsString.lit "dress") default_threshold = true
  /\ JsString.lit "drss" <> JsString.lit "dress".
Proof.
  assert (Hm : fuzzyMatch (JsString.lit "drss") (JsString.lit "dress") default_threshold = true)
    by (vm_compute; reflexivity).
  split; [exact Hm|].
  destruct (X12_fuzzyMatch_default (JsString.lit "drss") (JsString.lit "dress") Hm)
    as [H | H]; [discriminate H | discriminate].
Defined.

(** ** The relevance record *)

(** X13. For at least one search token and an index position that exists,
    [calculateRelevanceScore] returns a record in which [totalTerms] is the
    number of search tokens, [matchedTerms] is the number of search tokens
    that triggered a bonus and is at most [totalTerms], and [coverage] is
    their quotient rounded to binary64: between 0 and 1, 0 exactly when no
    term matched, 1 when all did, and within a relative error of
    [2 ** -53] of the quotient. *)
Theorem X13_relevance_counts
        (this : FashionCatalogue) (searchTokens : list jsstring) (productIndex : nat)
        (product : IndexEntry.t) :
  searchTokens <> [] ->
  nth_error (searchIndex this) productIndex = Some product ->
  exists relevance,
    calculateRelevanceScore this searchTokens productIndex = Some relevance
    /\ Relevance.totalTerms relevance = List.length searchTokens
    /\ Relevance.matchedTerms relevance
       = List.length (filter (termMatched product) searchTokens)
    /\ Relevance.matchedTerms relevance <= Relevance.totalTerms relevance
    /\ (0 <= Relevance.coverage relevance <= 1)%Q
    /\ (Relevance.matchedTerms relevance = 0 <-> (Relevance.coverage relevance == 0)%Q)
    /\ (Relevance.matchedTerms relevance = Relevance.totalTerms relevance ->
        (Relevance.coverage relevance == 1)%Q)
    /\ ((1 - pow2 (-53)) * Q_of_nat (Relevance.matchedTerms relevance)
        <= Relevance.coverage relevance * Q_of_nat (Relevance.totalTerms relevance)
        <= (1 + pow2 (-53)) * Q_of_nat (Relevance.matchedTerms relevance))%Q.
Proof.
  intros Hne Hentry. unfold calculateRelevanceScore. rewrite Hentry.
  exists (relevanceOf product searchTokens). split; [reflexivity|].
  destruct (relevanceOf_fields product searchTokens) as [base [Hm [Ht [Hc _]]]].
  rewrite Hm, Ht, Hc.
  pose proof (filter_length_le (termMatched product) searchTokens) as Hle.
  assert (Htotal : 0 < List.length searchTokens)
    by (destruct searchTokens; [congruence | simpl; lia]).
  destruct (coverage_spec _ _ Hle Htotal) as [Hrange [Hpos [Hzero [Hall Herr]]]].
  cbv zeta in Hrange, Hpos, Hzero, Hall, Herr.
  split; [reflexivity|]. split; [reflexivity|]. split; [exact Hle|].
  split; [exact Hrange|]. split; [|split; [exact Hall | exact Herr]].
  split.
  - intros H0. rewrite (Hzero H0). reflexivity.
  - intros H0.
    destruct (List.length (filter (termMatched product) searchTokens)) as [|m];
      [reflexivity|].
    exfalso. specialize (Hpos ltac:(lia)). lra.
Qed.

Lemma X13_witness :
  [JsString.lit "floral"; JsString.lit "shoes"; JsString.lit "hat"] <> []
  /\ nth_error (searchIndex boutique) 0 = Some floral_entry
  /\ exists relevance,
      calculateRelevanceScore boutique
        [JsString.lit "floral"; JsString.lit "shoes"; JsString.lit "hat"] 0
      = Some relevance
      /\ Relevance.totalTerms relevance = 3
      /\ Relevance.matchedTerms relevance = 1
      /\ (Relevance.coverage relevance == 6004799503160661 # 18014398509481984)%Q.
Proof.
  split; [discriminate|]. split; [reflexivity|].
  destruct (X13_relevance_counts boutique
              [JsString.lit "floral"; JsString.lit "shoes"; JsString.lit "hat"] 0
              floral_entry)
    as [relevance [Hcalc [Htotal [Hmatched _]]]].
  - discriminate.
  - reflexivity.
  - exists relevance. split; [exact Hcalc|]. split; [exact Htotal|].
    split; [rewrite Hmatched; vm_compute; reflexivity|].
    vm_compute in Hcalc. injection Hcalc as <-. vm_compute. reflexivity.
Defined.

(** X14. The score of a relevance record is 0 exactly when no term matched;
    otherwise it is at least 1/2, and at least the binary64 number nearest
    to half a point for each matched term plus twice the coverage. *)
Theorem X14_score_zero_iff_unmatched
        (this : FashionCatalogue) (searchTokens : list jsstring) (productIndex : nat)
        (product : IndexEntry.t) :
  searchTokens <> [] ->
  nth_error (searchIndex this) productIndex = Some product ->
  exists relevance,
    calculateRelevanceScore this searchTokens productIndex = Some relevance
    /\ (Relevance.matchedTerms relevance = 0 <-> (Relevance.score relevance == 0)%Q)
    /\ (0 < Relevance.matchedTerms relevance ->
        (1 # 2 <= Relevance.score relevance)%Q
        /\ (binary64 ((1 # 2) * Q_of_nat (Relevance.matchedTerms relevance)
                      + 2 * Relevance.coverage relevance)
            <= Relevance.score relevance)%Q).
Proof.
  intros Hne Hentry. unfold calculateRelevanceScore. rewrite Hentry.
  exists (relevanceOf product searchTokens). split; [reflexivity|].
  destruct (relevanceOf_score product searchTokens Hne) as [Hzero Hpos].
  split; [split|].
  - intros H0. rewrite (Hzero H0). reflexivity.
  - intros Hscore.
    destruct (Relevance.matchedTerms (relevanceOf product searchTokens)) as [|m];
      [reflexivity|].
    exfalso. destruct (Hpos ltac:(lia)) as [Hhalf _]. lra.
  - intros Hmatched. destruct (Hpos Hmatched) as [Hhalf [Hsum _]]. now split.
Qed.

Lemma X14_witness :
  [JsString.lit "floral"; JsString.lit "shoes"; JsString.lit "hat"] <> []
  /\ nth_error (searchIndex boutique) 0 = Some floral_entry
  /\ exists relevance,
      calculateRelevanceScore boutique
        [JsString.lit "floral"; JsString.lit "shoes"; JsString.lit "hat"] 0
      = Some relevance
      /\ Relevance.matchedTerms relevance = 1
      /\ (1 # 2 <= Relevance.score relevance)%Q.
Proof.
  split; [discriminate|]. split; [reflexivity|].
  destruct (X14_score_zero_iff_unmatched boutique
              [JsString.lit "floral"; JsString.lit "shoes"; JsString.lit "hat"] 0
              floral_entry)
    as [relevance [Hcalc [_ Hpos]]].
  - discriminate.
  - reflexivity.
  - exists relevance. split; [exact Hcalc|].
    assert (Hm : Relevance.matchedTerms relevance = 1).
    { vm_compute in Hcalc. injection Hcalc as <-. reflexivity. }
    split; [exact Hm|]. apply Hpos. rewrite Hm. lia.
Defined.

(** ** What the search returns *)

(** X15. With tokens in the query and the index built, every result of the
    search carries a product of the catalogue together with the relevance of
    the index entry at that product's position, which has a matched term;
    there are at most as many results as products. *)
Theorem X15_results_are_catalogue_products
        (this : FashionCatalogue) (query : option jsstring) :
  indexed this ->
  tokenize query <> [] ->
  exists sorted,
    performAdvancedSearch this query = Some (List.map Ranked sorted)
    /\ List.length sorted <= List.length (allProducts this)
    /\ Forall (fun r =>
                 exists i product,
                   nth_error (allProducts this) i = Some product
                   /\ SearchResult.product r = Some product
                   /\ r = rankedResult this (indexEntry product i)
                            (relevanceOf (indexEntry product i) (tokenize query))
                   /\ 0 < SearchResult.matchedTerms r
                   /\ (0 < SearchResult.coverage r)%Q)
              sorted.
Proof.
  intros Hindexed Htokens.
  destruct (search_ranked this query Hindexed Htokens) as [sorted [Hsearch [Hperm _]]].
  exists sorted. split; [exact Hsearch|]. split.
  - rewrite <- (Permutation_length Hperm), pushed_length.
    etransitivity; [apply filter_length_le|].
    rewrite Hindexed. cbn [buildSearchIndex searchIndex].
    now rewrite length_map_indexed.
  - apply Forall_forall. intros r Hr.
    apply (Permutation_in _ (Permutation_sym Hperm)) in Hr.
    apply in_flat_map in Hr. destruct Hr as [entry [Hentry Hr]].
    apply pushed_inv in Hr. destruct Hr as [Hpos ->].
    apply In_nth_error in Hentry. destruct Hentry as [i Hi].
    destruct (indexed_entry this i entry Hindexed Hi) as [p [Hp ->]].
    exists i, p. split; [exact Hp|].
    cbn [rankedResult SearchResult.product SearchResult.matchedTerms
         SearchResult.coverage indexEntry IndexEntry.productIndex].
    split; [exact Hp|]. split; [reflexivity|]. split; [exact Hpos|].
    destruct (relevanceOf_fields (indexEntry p i) (tokenize query))
      as [base [Hm [_ [Hc _]]]].
    rewrite Hc. rewrite Hm in Hpos.
    assert (Htotal : 0 < List.length (tokenize query))
      by (destruct (tokenize query); [congruence | simpl; lia]).
    destruct (coverage_spec _ _
                (filter_length_le (termMatched (indexEntry p i)) (tokenize query)) Htotal)
      as [_ [Hcov _]].
    exact (Hcov Hpos).
Qed.

Lemma X15_witness :
  indexed boutique /\ tokenize (Some dress) <> []
  /\ exists sorted,
      performAdvancedSearch boutique (Some dress) = Some (List.map Ranked sorted)
      /\ List.length sorted <= List.length (allProducts boutique).
Proof.
  split; [reflexivity|]. split; [discriminate|].
  destruct (X15_results_are_catalogue_products boutique (Some dress))
    as [sorted [Hsearch [Hlen _]]].
  - reflexivity.
  - discriminate.
  - exists sorted. split; [exact Hsearch | exact Hlen].
Defined.

(** ** The suggestions *)

Lemma Set_add_NoDup (set : list jsstring) (x : jsstring) :
  NoDup set -> NoDup (Set_add set x).
Proof.
  intros H. unfold Set_add.
  destruct (Array_includes set x) eqn:E; [exact H|].
  apply NoDup_app; [exact H | repeat constructor; intros [] |].
  intros y Hy [<- | []].
  apply Array_includes_In in Hy. congruence.
Qed.

Lemma Set_add_Forall (P : jsstring -> Prop) (set : list jsstring) (x : jsstring) :
  Forall P set -> P x -> Forall P (Set_add set x).
Proof.
  intros H Hx. unfold Set_add. destruct (Array_includes set x); [exact H|].
  apply Forall_app. split; [exact H | now constructor].
Qed.

Lemma firstn_NoDup {A : Type} (n : nat) (l : list A) : NoDup l -> NoDup (firstn n l).
Proof.
  intros H. rewrite <- (firstn_skipn n l) in H. now apply NoDup_app_remove_r in H.
Qed.

Lemma firstn_Forall {A : Type} (P : A -> Prop) (n : nat) (l : list A) :
  Forall P l -> Forall P (firstn n l).
Proof.
  intros H. rewrite <- (firstn_skipn n l) in H. apply Forall_app in H. apply H.
Qed.

(** X16. [generateSearchSuggestions] returns at most five suggestions, all
    different.  Each one is a token of some index entry and comes with a
    query token different from it that it fuzzy-matches at threshold 0.7 or
    that it contains while being longer.  A query without tokens, or an
    empty index, gets no suggestion. *)
Theorem X16_suggestions_come_from_the_index
        (this : FashionCatalogue) (query : option jsstring) :
  List.length (generateSearchSuggestions this query) <= 5
  /\ NoDup (generateSearchSuggestions this query)
  /\ Forall (fun suggestion =>
               exists product queryToken,
                 In product (searchIndex this)
                 /\ In suggestion (IndexEntry.allTokens product)
                 /\ In queryToken (tokenize query)
                 /\ suggestion <> queryToken
                 /\ (fuzzyMatch queryToken suggestion (7 # 10) = true
                     \/ (List.length queryToken < List.length suggestion
                         /\ JsString.includes suggestion queryToken = true)))
            (generateSearchSuggestions this query)
  /\ (tokenize query = [] \/ searchIndex this = [] ->
      generateSearchSuggestions this query = []).
Proof.
  unfold generateSearchSuggestions. cbv zeta.
  split; [apply firstn_le_length|].
  split; [|split].
  - apply firstn_NoDup.
    apply (forEach_invariant (fun set => NoDup set)); [constructor|].
    intros set product _ Hset.
    apply (forEach_invariant (fun set => NoDup set)); [exact Hset|].
    clear set Hset. intros set token _ Hset.
    apply (forEach_invariant (fun set => NoDup set)); [exact Hset|].
    clear set Hset. intros set queryToken _ Hset.
    destruct (negb (JsString.eqb token queryToken) && fuzzyMatch queryToken token (7 # 10));
      destruct ((List.length queryToken <? List.length token)
                && JsString.includes token queryToken);
      auto using Set_add_NoDup.
  - apply firstn_Forall.
    set (P := fun suggestion : jsstring =>
                exists product queryToken,
                  In product (searchIndex this)
                  /\ In suggestion (IndexEntry.allTokens product)
                  /\ In queryToken (tokenize query)
                  /\ suggestion <> queryToken
                  /\ (fuzzyMatch queryToken suggestion (7 # 10) = true
                      \/ (List.length queryToken < List.length suggestion
                          /\ JsString.includes suggestion queryToken = true))).
    apply (forEach_invariant (fun set => Forall P set)); [constructor|].
    intros set product Hproduct Hset.
    apply (forEach_invariant (fun set => Forall P set)); [exact Hset|].
    clear set Hset. intros set token Htoken Hset.
    apply (forEach_invariant (fun set => Forall P set)); [exact Hset|].
    clear set Hset. intros set queryToken HqueryToken Hset.
    assert (Hset' : Forall P
              (if negb (JsString.eqb token queryToken)
                  && fuzzyMatch queryToken token (7 # 10)
               then Set_add set token else set)).
    { destruct (negb (JsString.eqb token queryToken)
                && fuzzyMatch queryToken token (7 # 10)) eqn:E; [|exact Hset].
      apply andb_prop in E. destruct E as [Ene Efuzzy].
      apply negb_true_iff, JsStringFacts.eqb_neq in Ene.
      apply Set_add_Forall; [exact Hset|].
      exists product, queryToken. auto 6. }
    destruct ((List.length queryToken <? List.length token)
              && JsString.includes token queryToken) eqn:E; [|exact Hset'].
    apply andb_prop in E. destruct E as [Elen Einc]. apply Nat.ltb_lt in Elen.
    apply Set_add_Forall; [exact Hset'|].
    exists product, queryToken.
    repeat split; auto. intros ->. lia.
  - intros [Hq | Hi].
    + rewrite Hq.
      replace (forEach _ (searchIndex this) []) with (@nil jsstring); [reflexivity|].
      symmetry. apply (forEach_invariant (fun set => set = [])); [reflexivity|].
      intros set product _ ->.
      apply (forEach_invariant (fun set => set = [])); [reflexivity|].
      intros set token _ ->. reflexivity.
    + rewrite Hi. reflexivity.
Qed.

Lemma X16_witness :
  (tokenize (Some (JsString.lit "the")) = [] \/ searchIndex boutique = [])
  /\ generateSearchSuggestions boutique (Some (JsString.lit "the")) = [].
Proof.
  assert (H : tokenize (Some (JsString.lit "the")) = [] \/ searchIndex boutique = [])
    by (left; reflexivity).
  split; [exact H|].
  destruct (X16_suggestions_come_from_the_index boutique (Some (JsString.lit "the")))
    as [_ [_ [_ Hnone]]].
  exact (Hnone H).
Defined.

(** ** Loading the catalogue *)


(** ** Display names *)

Lemma upper_unit_word (c : JsString.code_unit) :
  JsString.is_word (upper_unit c) = JsString.is_word c.
Proof.
  unfold upper_unit.
  destruct ((97 <=? c) && (c <=? 122))%N eqn:E; [|reflexivity].
  apply andb_prop in E. destruct E as [E1 E2].
  apply N.leb_le in E1. apply N.leb_le in E2.
  unfold JsString.is_word.
  destruct (N.leb_spec 65 (c - 32)); [|lia].
  destruct (N.leb_spec (c - 32) 90); [|lia].
  destruct (N.leb_spec 97 c); [|lia].
  destruct (N.leb_spec c 122); [|lia].
  destruct (N.leb_spec 65 c); [|lia].
  destruct (N.leb_spec c 90); [lia|]. reflexivity.
Qed.

Lemma upper_unit_again (c : JsString.code_unit) : upper_unit (upper_unit c) = upper_unit c.
Proof.
  unfold upper_unit.
  destruct ((97 <=? c) && (c <=? 122))%N eqn:E; [|now rewrite E].
  apply andb_prop in E. destruct E as [E1 E2].
  apply N.leb_le in E1. apply N.leb_le in E2.
  destruct (N.leb_spec 97 (c - 32)); [lia | reflexivity].
Qed.

Lemma capitalize_words_again (afterWord : bool) (s : jsstring) :
  capitalize_words afterWord (capitalize_words afterWord s) = capitalize_words afterWord s.
Proof.
  revert afterWord. induction s as [|c s IH]; intros afterWord; [reflexivity|].
  cbn [capitalize_words].
  destruct (JsString.is_word c && negb afterWord) eqn:E.
  - rewrite upper_unit_word. rewrite E, upper_unit_again. f_equal. apply IH.
  - rewrite E. f_equal. apply IH.
Qed.

Lemma capitalize_words_no_underscore (afterWord : bool) (s : jsstring) :
  ~ In UNDERSCORE s -> ~ In UNDERSCORE (capitalize_words afterWord s).
Proof.
  revert afterWord. induction s as [|c s IH]; intros afterWord H; [exact H|].
  cbn [capitalize_words]. intros [Hc | Hin].
  - apply H. left.
    destruct (JsString.is_word c && negb afterWord); [|exact Hc].
    unfold upper_unit in Hc.
    destruct ((97 <=? c) && (c <=? 122))%N eqn:E; [|exact Hc].
    apply andb_prop in E. destruct E as [E1 E2].
    apply N.leb_le in E1. apply N.leb_le in E2. unfold UNDERSCORE in *. lia.
  - apply (IH (JsString.is_word c)); [|exact Hin]. intros Hs. apply H. now right.
Qed.

Lemma replace_underscores_none (s : jsstring) : ~ In UNDERSCORE (replace_underscores s).
Proof.
  unfold replace_underscores. intros H. apply in_map_iff in H.
  destruct H as [c [Hc _]].
  destruct (N.eqb_spec c UNDERSCORE); [discriminate Hc | congruence].
Qed.

Lemma replace_underscores_fixed (s : jsstring) :
  ~ In UNDERSCORE s -> replace_underscores s = s.
Proof.
  unfold replace_underscores. induction s as [|c s IH]; intros H; [reflexivity|].
  cbn [List.map]. rewrite IH by (intros Hs; apply H; now right).
  destruct (N.eqb_spec c UNDERSCORE) as [-> | _]; [|reflexivity].
  exfalso. apply H. now left.
Qed.

Lemma capitalize_words_length (afterWord : bool) (s : jsstring) :
  List.length (capitalize_words afterWord s) = List.length s.
Proof.
  revert afterWord. induction s as [|c s IH]; intros afterWord; [reflexivity|].
  cbn [capitalize_words List.length]. now rewrite IH.
Qed.

(** X18. [formatCategoryName] and [formatAttributeName] are the same
    function.  The display name has as many code units as the name, holds no
    underscore, and formatting it once more changes nothing. *)
Theorem X18_format_names (name : jsstring) :
  formatAttributeName name = formatCategoryName name
  /\ List.length (formatCategoryName name) = List.length name
  /\ ~ In UNDERSCORE (formatCategoryName name)
  /\ formatCategoryName (formatCategoryName name) = formatCategoryName name.
Proof.
  split; [reflexivity|]. unfold formatCategoryName.
  pose proof (capitalize_words_no_underscore false _ (replace_underscores_none name)) as Hno.
  split; [|split; [exact Hno|]].
  - rewrite capitalize_words_length. apply length_map.
  - rewrite (replace_underscores_fixed _ Hno). apply capitalize_words_again.
Qed.

Lemma lower_upper_unit (c : JsString.code_unit) (afterWord : bool) :
  tidy c ->
  JsString.lower_unit (if JsString.is_word c && negb afterWord then upper_unit c else c)
  = [c].
Proof.
  intros Hc.
  destruct (JsString.is_word c && negb afterWord);
    [|now apply JsStringFacts.lower_unit_tidy].
  unfold upper_unit.
  destruct ((97 <=? c) && (c <=? 122))%N eqn:E;
    [|now apply JsStringFacts.lower_unit_tidy].
  apply andb_prop in E. destruct E as [E1 E2].
  apply N.leb_le in E1. apply N.leb_le in E2.
  unfold JsString.lower_unit.
  destruct (N.leb_spec 65 (c - 32)); [|lia].
  destruct (N.leb_spec (c - 32) 90); [|lia].
  cbn [andb]. f_equal. lia.
Qed.

Lemma toLowerCase_capitalize_words (afterWord : bool) (s : jsstring) :
  Forall tidy s -> JsString.toLowerCase (capitalize_words afterWord s) = s.
Proof.
  intros H. revert afterWord. induction H as [|c s Hc Hs IH]; intros afterWord;
    [reflexivity|].
  cbn [capitalize_words]. unfold JsString.toLowerCase in *. cbn [flat_map].
  rewrite (lower_upper_unit c afterWord Hc), IH. reflexivity.
Qed.

Lemma snake_case_spaced (attr : jsstring) :
  snake_case attr -> Forall tidy (replace_underscores attr).
Proof.
  induction attr as [|c attr IH]; intros H; [constructor|].
  destruct H as [Hc [_ Hrest]]. cbn [replace_underscores List.map].
  constructor; [|now apply IH].
  destruct (N.eqb_spec c UNDERSCORE); [now right|].
  destruct Hc as [Hc | Hc]; [now left | contradiction].
Qed.

Lemma snake_case_restored (attr : jsstring) :
  snake_case attr ->
  replace_space_runs_by_underscore (replace_underscores attr) = attr.
Proof.
  induction attr as [|c attr IH]; intros H; [reflexivity|].
  destruct H as [Hc [Hnext Hrest]]. specialize (IH Hrest).
  unfold replace_underscores in *. cbn [List.map replace_space_runs_by_underscore].
  assert (Hsp : forall d, (is_lower_alnum d = true \/ d = UNDERSCORE) ->
                JsString.is_space (if (d =? UNDERSCORE)%N then JsString.SPACE else d)
                = (d =? UNDERSCORE)%N).
  { intros d Hd. destruct (N.eqb_spec d UNDERSCORE) as [-> | Hne]; [reflexivity|].
    destruct Hd as [Hd | Hd]; [|contradiction].
    destruct (JsString.is_space d) eqn:E; [|reflexivity].
    exfalso. JsStringFacts.units. }
  rewrite (Hsp c Hc).
  destruct (N.eqb_spec c UNDERSCORE) as [-> | Hne].
  - destruct attr as [|c' attr']; [reflexivity|].
    cbn [List.map]. destruct Hrest as [Hc' _]. rewrite (Hsp c' Hc').
    destruct (N.eqb_spec c' UNDERSCORE) as [-> | Hne'].
    + exfalso. apply Hnext. now split.
    + cbn [List.map] in IH.
      assert (E : (c' =? UNDERSCORE)%N = false) by now apply N.eqb_neq.
      rewrite E in IH. now rewrite IH.
  - now rewrite IH.
Qed.

(** X19. For an attribute name made of lower-case ASCII letters, digits and
    single underscores, the attribute that [updateFilterButtons] reads back
    from the button label made by [formatAttributeName] is the attribute
    itself. *)
Theorem X19_label_gives_attribute_back (attr : jsstring) :
  snake_case attr ->
  attributeOfLabel (formatAttributeName attr) = attr.
Proof.
  intros H. unfold attributeOfLabel, formatAttributeName.
  rewrite (toLowerCase_capitalize_words false _ (snake_case_spaced attr H)).
  now apply snake_case_restored.
Qed.

Lemma X19_witness :
  snake_case (JsString.lit "sleeve_length")
  /\ formatAttributeName (JsString.lit "sleeve_length") = JsString.lit "Sleeve Length"
  /\ attributeOfLabel (formatAttributeName (JsString.lit "sleeve_length"))
     = JsString.lit "sleeve_length".
Proof.
  assert (H : snake_case (JsString.lit "sleeve_length")).
  { vm_compute. repeat split; try (left; reflexivity); try (right; reflexivity);
      intros [H1 H2]; discriminate. }
  split; [exact H|]. split; [reflexivity|].
  exact (X19_label_gives_attribute_back (JsString.lit "sleeve_length") H).
Defined.

(** ** Filtering and paging *)

Lemma firstn_add_skipn {A : Type} (l : list A) (a b : nat) :
  firstn (a + b) l = firstn a l ++ firstn b (skipn a l).
Proof.
  revert l. induction a as [|a IH]; intros l; [reflexivity|].
  destruct l as [|x l]; [now rewrite !firstn_nil|].
  simpl. f_equal. apply IH.
Qed.

Lemma loadMoreProducts_paged (this : View) : paged this -> paged (loadMoreProducts this).
Proof.
  intros [Hd Ht]. unfold loadMoreProducts.
  destruct (isLoading this) eqn:E; [split; [exact Hd | now rewrite E]|].
  split; [exact Hd|]. cbn [timeouts isLoading]. rewrite Ht. reflexivity.
Qed.

Lemma In_firstn {A : Type} (n : nat) (l : list A) (x : A) : In x (firstn n l) -> In x l.
Proof.
  revert l. induction n as [|n IH]; intros [|y l]; simpl; try tauto.
  intros [-> | H]; [now left | right; now apply IH].
Qed.

Lemma In_skipn {A : Type} (n : nat) (l : list A) (x : A) : In x (skipn n l) -> In x l.
Proof.
  revert l. induction n as [|n IH]; intros [|y l]; simpl; try tauto.
  intros H. right. now apply IH.
Qed.

Lemma Array_slice_In {A : Type} (l : list A) (start stop : nat) (x : A) :
  In x (Array_slice l start stop) -> In x l.
Proof. unfold Array_slice. intros H. eapply In_skipn, In_firstn, H. Qed.

(** What the timer callback does to a view whose pages are in order: it
    shows one more page; then, if every card of the page was created, it
    counts the page, clears [isLoading] and sets the button; if not, it
    leaves them as they were. *)
Lemma loadMoreProducts_timeout_spec (images_url_valid : Product.t -> bool) (this : View) :
  displayedProducts this
  = firstn (currentPage this * itemsPerPage) (filteredProducts this) ->
  let newProducts :=
    Array_slice (filteredProducts this) (currentPage this * itemsPerPage)
                (currentPage this * itemsPerPage + itemsPerPage) in
  let this' := loadMoreProducts_timeout images_url_valid this in
  catalogue this' = catalogue this
  /\ filters this' = filters this
  /\ filteredProducts this' = filteredProducts this
  /\ displayedProducts this'
     = firstn ((currentPage this + 1) * itemsPerPage) (filteredProducts this)
  /\ timeouts this' = timeouts this - 1
  /\ (appendProducts images_url_valid newProducts = true ->
      currentPage this' = currentPage this + 1
      /\ isLoading this' = false
      /\ loadMoreButton this'
         = ((currentPage this + 1) * itemsPerPage <? List.length (filteredProducts this)))
  /\ (appendProducts images_url_valid newProducts = false ->
      currentPage this' = currentPage this
      /\ isLoading this' = isLoading this
      /\ loadMoreButton this' = loadMoreButton this).
Proof.
  intros Hd. cbv zeta. unfold loadMoreProducts_timeout. cbv zeta.
  set (newProducts := Array_slice (filteredProducts this) (currentPage this * itemsPerPage)
                                  (currentPage this * itemsPerPage + itemsPerPage)).
  assert (Hshown : (if currentPage this =? 0 then newProducts
                    else displayedProducts this ++ newProducts)
                   = firstn ((currentPage this + 1) * itemsPerPage) (filteredProducts this)).
  { unfold newProducts, Array_slice.
    replace (currentPage this * itemsPerPage + itemsPerPage - currentPage this * itemsPerPage)
      with itemsPerPage by lia.
    replace ((currentPage this + 1) * itemsPerPage)
      with (currentPage this * itemsPerPage + itemsPerPage) by lia.
    rewrite firstn_add_skipn.
    destruct (Nat.eqb_spec (currentPage this) 0) as [E | E].
    - rewrite E. reflexivity.
    - now rewrite Hd. }
  assert (Hrendered : (if currentPage this =? 0
                       then appendProducts images_url_valid
                              (if currentPage this =? 0 then newProducts
                               else displayedProducts this ++ newProducts)
                       else appendProducts images_url_valid newProducts)
                      = appendProducts images_url_valid newProducts)
    by (destruct (currentPage this =? 0); reflexivity).
  rewrite Hrendered.
  replace (currentPage this * itemsPerPage + itemsPerPage)
    with ((currentPage this + 1) * itemsPerPage) by lia.
  destruct (appendProducts images_url_valid newProducts);
    cbn [catalogue filters filteredProducts displayedProducts currentPage isLoading
         loadMoreButton timeouts];
    rewrite Hshown; repeat split; try reflexivity; intros; discriminate.
Qed.

Lemma Array_filter_Forall {A : Type} (P : A -> Prop) (callback : A -> option bool)
      (l l' : list A) :
  Forall P l -> Array_filter callback l = Some l' -> Forall P l'.
Proof.
  intros H. revert l'. induction H as [|x l Hx Hl IH]; intros l' E.
  - injection E as <-. constructor.
  - cbn [Array_filter] in E.
    destruct (callback x) as [keep|]; [|discriminate].
    destruct (Array_filter callback l) as [rest|]; [|discriminate].
    injection E as <-. specialize (IH rest eq_refl).
    destruct keep; [now constructor | exact IH].
Qed.

Section BrowsingFacts.

Variable brand : Product.t -> option jsstring.
Variable enriched_category : Product.t -> option jsstring.
Variable price_eur : Product.t -> option Q.
Variable attribute_value : Product.t -> jsstring -> option jsstring.
Variable images_url_valid : Product.t -> bool.






Lemma productsToFilter_without_tokens (this : FashionCatalogue) (searchQuery : jsstring) :
  tokenize (Some searchQuery) = [] ->
  (if (0 <? List.length searchQuery) && (0 <? List.length (JsString.trim searchQuery))
   then
     searchResults <- performAdvancedSearch this (Some searchQuery) ;;
     Some (List.map result_product searchResults)
   else Some (List.map Some (allProducts this)))
  = Some (List.map Some (allProducts this)).
Proof.
  intros H.
  destruct ((0 <? List.length searchQuery)
            && (0 <? List.length (JsString.trim searchQuery))); [|reflexivity].
  rewrite (performAdvancedSearch_no_tokens this _ H), allProductsUnranked_map.
  now rewrite map_map.
Qed.




(** With the index built, what [applyFilters] filters are products of the
    catalogue. *)
Lemma productsToFilter_products (this : FashionCatalogue) (searchQuery : jsstring)
      (productsToFilter : list (option Product.t)) :
  indexed this ->
  (if (0 <? List.length searchQuery) && (0 <? List.length (JsString.trim searchQuery))
   then
     searchResults <- performAdvancedSearch this (Some searchQuery) ;;
     Some (List.map result_product searchResults)
   else Some (List.map Some (allProducts this)))
  = Some productsToFilter ->
  Forall (fun item => exists product, item = Some product /\ In product (allProducts this))
         productsToFilter.
Proof.
  intros Hindexed H.
  assert (Hall : Forall (fun item => exists product,
                             item = Some product /\ In product (allProducts this))
                        (List.map Some (allProducts this))).
  { apply Forall_forall. intros item Hitem. apply in_map_iff in Hitem.
    destruct Hitem as [p [<- Hp]]. now exists p. }
  destruct (list_eq_dec (list_eq_dec N.eq_dec) (tokenize (Some searchQuery)) [])
    as [Hnil | Htokens].
  - rewrite (productsToFilter_without_tokens this searchQuery Hnil) in H.
    injection H as <-. exact Hall.
  - destruct ((0 <? List.length searchQuery)
              && (0 <? List.length (JsString.trim searchQuery)));
      [|injection H as <-; exact Hall].
    destruct (search_ranked this _ Hindexed Htokens) as [sorted [Hsearch [Hperm _]]].
    rewrite Hsearch in H. injection H as <-. rewrite map_map. cbn [result_product].
    apply Forall_forall. intros item Hitem. apply in_map_iff in Hitem.
    destruct Hitem as [r [<- Hr]].
    apply (Permutation_in _ (Permutation_sym Hperm)) in Hr.
    apply in_flat_map in Hr. destruct Hr as [entry [Hentry Hr]].
    apply pushed_inv in Hr. destruct Hr as [_ ->].
    apply In_nth_error in Hentry. destruct Hentry as [i Hi].
    destruct (indexed_entry this i entry Hindexed Hi) as [p [Hp ->]].
    exists p. cbn [rankedResult SearchResult.product indexEntry IndexEntry.productIndex].
    split; [exact Hp | eapply nth_error_In; exact Hp].
Qed.

Lemma applyFilters_spec (this this' : View) :
  (applyFilters brand enriched_category price_eur attribute_value) this = Some this' ->
  catalogue this' = catalogue this
  /\ displayedProducts this' = []
  /\ currentPage this' = 0
  /\ isLoading this' = true
  /\ timeouts this' = (if isLoading this then timeouts this else timeouts this + 1)
  /\ (indexed (catalogue this) ->
      Forall (fun item => exists product,
                  item = Some product /\ In product (allProducts (catalogue this)))
             (filteredProducts this')).
Proof.
  unfold applyFilters. cbv zeta.
  destruct (if (0 <? List.length (Filters.searchQuery (filters this)))
               && (0 <? List.length (JsString.trim (Filters.searchQuery (filters this))))
            then _ else _) as [productsToFilter|] eqn:Ep; [|discriminate].
  destruct (Array_filter _ productsToFilter) as [filtered|] eqn:Ef; [|discriminate].
  intros H. injection H as <-.
  unfold loadMoreProducts. cbn [isLoading].
  destruct (isLoading this);
    cbn [catalogue displayedProducts currentPage isLoading timeouts filteredProducts];
    repeat split; try reflexivity;
    intros Hindexed;
    (eapply Array_filter_Forall; [|exact Ef]);
    now apply (productsToFilter_products _ _ _ Hindexed Ep).
Qed.

(** The pages are in order, a callback is pending exactly while [isLoading]
    is set, and the filtered products are products of the catalogue. *)
Lemma step_paged (start this this' : View) :
  indexed (catalogue start) ->
  (forall product, In product (allProducts (catalogue start)) ->
                   createProductCard images_url_valid (Some product) = true) ->
  step brand enriched_category price_eur attribute_value images_url_valid this this' ->
  paged this /\ catalogue this = catalogue start
  /\ Forall (fun item => exists product,
                 item = Some product /\ In product (allProducts (catalogue start)))
            (filteredProducts this) ->
  paged this' /\ catalogue this' = catalogue start
  /\ Forall (fun item => exists product,
                 item = Some product /\ In product (allProducts (catalogue start)))
            (filteredProducts this').
Proof.
  intros Hindexed Hcards Hstep [[Hd Ht] [Hc Hf]].
  destruct Hstep as [this filters' this' Happly | this | this Hpending].
  - destruct (applyFilters_spec _ _ Happly) as [Hc' [Hd' [Hp' [Hl' [Ht' Hf']]]]].
    cbn [setFilters catalogue isLoading timeouts] in Hc', Ht', Hf'.
    rewrite Hc in Hf'. split; [split|split].
    + now rewrite Hd', Hp'.
    + rewrite Ht', Hl', Ht. now destruct (isLoading this).
    + now rewrite Hc'.
    + now apply Hf'.
  - split; [now apply loadMoreProducts_paged|].
    unfold loadMoreProducts. destruct (isLoading this); now split.
  - destruct (loadMoreProducts_timeout_spec images_url_valid this Hd)
      as [Hc' [_ [Hf' [Hd' [Ht' [Hok _]]]]]].
    cbv zeta in Hc', Hf', Hd', Ht', Hok.
    assert (Hrendered :
              appendProducts images_url_valid
                (Array_slice (filteredProducts this) (currentPage this * itemsPerPage)
                             (currentPage this * itemsPerPage + itemsPerPage)) = true).
    { apply forallb_forall. intros item Hitem. apply Array_slice_In in Hitem.
      rewrite Forall_forall in Hf. destruct (Hf item Hitem) as [p [-> Hp]].
      now apply Hcards. }
    destruct (Hok Hrendered) as [Hp' [Hl' _]].
    split; [split|split].
    + now rewrite Hd', Hp', Hf'.
    + rewrite Ht', Hl', Ht. destruct (isLoading this); lia.
    + now rewrite Hc'.
    + now rewrite Hf'.
Qed.

(** X22. On a catalogue with its index built, all of whose products can be
    shown as cards: whatever the sequence of filter changes, clicks on the
    load-more button and timer callbacks after the page is set up, the
    displayed products are always the first [currentPage * 24] of the
    filtered products, in their order, and a callback is held by the timer
    exactly while [isLoading] is set (so never more than one). *)
Theorem X22_pages_follow_filtered_products (start this : View) :
  fresh start ->
  indexed (catalogue start) ->
  (forall product, In product (allProducts (catalogue start)) ->
                   createProductCard images_url_valid (Some product) = true) ->
  reaches brand enriched_category price_eur attribute_value images_url_valid start this ->
  displayedProducts this
  = firstn (currentPage this * itemsPerPage) (filteredProducts this)
  /\ timeouts this = (if isLoading this then 1 else 0)
  /\ catalogue this = catalogue start.
Proof.
  intros [Hf [Hd [Hp [Hl Ht]]]] Hindexed Hcards Hreach.
  assert (H : paged this /\ catalogue this = catalogue start
              /\ Forall (fun item => exists product,
                             item = Some product
                             /\ In product (allProducts (catalogue start)))
                        (filteredProducts this)).
  { induction Hreach as [|this this' Hreach IH Hstep].
    - split; [split|split].
      + now rewrite Hd, Hp.
      + now rewrite Ht, Hl.
      + reflexivity.
      + rewrite Hf. constructor.
    - exact (step_paged start this this' Hindexed Hcards Hstep IH). }
  destruct H as [[Hd' Ht'] [Hc' _]]. auto.
Qed.

End BrowsingFacts.

(** X23. When the timer callback of [loadMoreProducts] runs on a view whose
    pages are in order, one more page is displayed: the first
    [(currentPage + 1) * 24] filtered products.  If every card of the new
    page is created, the page is counted, [isLoading] is cleared, and the
    load-more button is displayed exactly when some filtered product is not
    displayed yet.  If a card cannot be created (a product without
    [original_data], an [undefined] item), the page is displayed but not
    counted and [isLoading] stays set: from then on [loadMoreProducts]
    does nothing. *)
Theorem X23_next_page (images_url_valid : Product.t -> bool) (this : View) :
  paged this ->
  isLoading this = true ->
  let newProducts :=
    Array_slice (filteredProducts this) (currentPage this * itemsPerPage)
                (currentPage this * itemsPerPage + itemsPerPage) in
  let this' := loadMoreProducts_timeout images_url_valid this in
  filteredProducts this' = filteredProducts this
  /\ displayedProducts this'
     = firstn ((currentPage this + 1) * itemsPerPage) (filteredProducts this')
  /\ List.length (displayedProducts this')
     = Nat.min ((currentPage this + 1) * itemsPerPage) (List.length (filteredProducts this'))
  /\ timeouts this' = 0
  /\ (forallb (createProductCard images_url_valid) newProducts = true ->
      currentPage this' = currentPage this + 1
      /\ isLoading this' = false
      /\ (loadMoreButton this' = true
          <-> List.length (displayedProducts this') < List.length (filteredProducts this'))
      /\ (loadMoreButton this' = false <-> displayedProducts this' = filteredProducts this'))
  /\ (forallb (createProductCard images_url_valid) newProducts = false ->
      currentPage this' = currentPage this
      /\ isLoading this' = true
      /\ loadMoreButton this' = loadMoreButton this
      /\ loadMoreProducts this' = this').
Proof.
  intros [Hd Ht] Hl. cbv zeta.
  destruct (loadMoreProducts_timeout_spec images_url_valid this Hd)
    as [_ [_ [Hf' [Hd' [Ht' [Hok Hthrown]]]]]].
  cbv zeta in Hf', Hd', Ht', Hok, Hthrown.
  rewrite Hd', Hf', Ht', Ht, Hl.
  set (n := (currentPage this + 1) * itemsPerPage) in *.
  rewrite length_firstn.
  split; [reflexivity|]. split; [reflexivity|]. split; [reflexivity|].
  split; [reflexivity|]. split.
  - intros Hcards. destruct (Hok Hcards) as [Hp' [Hl' Hb']].
    rewrite Hb'. split; [exact Hp'|]. split; [exact Hl'|]. split.
    + rewrite Nat.ltb_lt. lia.
    + rewrite Nat.ltb_ge. split.
      * intros H. now apply firstn_all2.
      * intros H. apply (f_equal (@List.length _)) in H.
        rewrite length_firstn in H. lia.
  - intros Hcards. destruct (Hthrown Hcards) as [Hp' [Hl' Hb']].
    split; [exact Hp'|]. split; [now rewrite Hl'|]. split; [exact Hb'|].
    unfold loadMoreProducts. now rewrite Hl', Hl.
Qed.

Lemma X23_witness :
  paged first_request
  /\ isLoading first_request = true
  /\ currentPage (loadMoreProducts_timeout any_images first_request) = 1
  /\ loadMoreButton (loadMoreProducts_timeout any_images first_request) = false
  /\ displayedProducts (loadMoreProducts_timeout any_images first_request)
     = List.map Some (allProducts boutique).
Proof.
  assert (H : paged first_request) by (split; reflexivity).
  split; [exact H|]. split; [reflexivity|].
  destruct (X23_next_page any_images first_request H eq_refl)
    as [_ [Hd [_ [_ [Hok _]]]]].
  destruct (Hok eq_refl) as [Hp [_ [_ Hiff]]].
  split; [exact Hp|]. split; [apply Hiff; reflexivity|].
  rewrite Hd. reflexivity.
Defined.

(** A page with a product that has no [original_data] is displayed and
    leaves the view loading for ever. *)
Lemma card_not_created :
  let this :=
    {| catalogue := {| allProducts := [bare_product]; searchIndex := [] |};
       filters := noFilters;
       filteredProducts := [Some bare_product];
       displayedProducts := []; currentPage := 0; isLoading := true;
       loadMoreButton := false; timeouts := 1 |} in
  let this' := loadMoreProducts_timeout any_images this in
  paged this
  /\ displayedProducts this' = [Some bare_product]
  /\ currentPage this' = 0
  /\ isLoading this' = true
  /\ timeouts this' = 0.
Proof. cbv zeta. repeat split. Qed.



Lemma X22_witness :
  fresh (shop_view "" [])
  /\ indexed (catalogue (shop_view "" []))
  /\ (forall product, In product (allProducts (catalogue (shop_view "" []))) ->
                      createProductCard any_images (Some product) = true)
  /\ exists this,
      reaches one_brand no_text no_price no_attribute any_images (shop_view "" []) this
      /\ filteredProducts this = List.map Some (allProducts boutique)
      /\ currentPage this = 1
      /\ displayedProducts this
         = firstn (currentPage this * itemsPerPage) (filteredProducts this)
      /\ timeouts this = 0.
Proof.
  assert (Hfresh : fresh (shop_view "" [])) by (repeat split).
  assert (Hcards : forall product,
             In product (allProducts (catalogue (shop_view "" []))) ->
             createProductCard any_images (Some product) = true).
  { intros product Hin. cbn in Hin.
    destruct Hin as [<- | [<- | [<- | [<- | []]]]]; reflexivity. }
  split; [exact Hfresh|]. split; [reflexivity|]. split; [exact Hcards|].
  eexists. split; [|split; [|split; [|split]]].
  - eapply reaches_step; [eapply reaches_step; [apply reaches_start|]|].
    + apply (step_filters one_brand no_text no_price no_attribute any_images
               (shop_view "" []) noFilters).
      vm_compute. reflexivity.
    + apply step_timeout. cbn. lia.
  - vm_compute. reflexivity.
  - vm_compute. reflexivity.
  - match goal with
    | |- displayedProducts ?this = _ =>
        assert (Hreach : reaches one_brand no_text no_price no_attribute any_images
                           (shop_view "" []) this)
    end.
    { eapply reaches_step; [eapply reaches_step; [apply reaches_start|]|].
      + apply (step_filters one_brand no_text no_price no_attribute any_images
                 (shop_view "" []) noFilters).
        vm_compute. reflexivity.
      + apply step_timeout. cbn. lia. }
    exact (proj1 (X22_pages_follow_filtered_products
                    one_brand no_text no_price no_attribute any_images
                    _ _ Hfresh eq_refl Hcards Hreach)).
  - vm_compute. reflexivity.
Defined.

(** ** Finding a product by its tokens *)

Lemma token_normalized (token : jsstring) :
  Forall (fun c => is_lower_alnum c = true) token ->
  normalizeText (Some token) = token.
Proof.
  intros H. destruct token as [|c token]; [reflexivity|].
  assert (Htidy : Forall tidy (c :: token))
    by (eapply Forall_impl; [|exact H]; intros d Hd; now left).
  assert (Hns : Forall (fun d => JsString.is_space d = false) (c :: token)).
  { eapply Forall_impl; [|exact H]. intros d Hd.
    destruct (JsString.is_space d) eqn:E; [|reflexivity]. exfalso. JsStringFacts.units. }
  unfold normalizeText. cbn [truthy].
  rewrite JsStringFacts.toLowerCase_tidy by assumption.
  rewrite JsStringFacts.replace_non_word_non_space_tidy by assumption.
  rewrite JsStringFacts.replace_hyphen_underscore_tidy by assumption.
  assert (Hrun : forall s, Forall (fun d => JsString.is_space d = false) s ->
                           JsString.replace_space_runs s = s).
  { induction 1 as [|d s Hd Hs IH]; [reflexivity|].
    cbn [JsString.replace_space_runs]. now rewrite Hd, IH. }
  rewrite (Hrun _ Hns).
  unfold JsString.trim.
  apply Forall_cons_iff in Hns. destruct Hns as [Hc Hrest].
  cbn [JsString.trimStart]. rewrite Hc.
  assert (Hend : forall s, Forall (fun d => JsString.is_space d = false) s ->
                           JsString.trimEnd s = s).
  { induction 1 as [|d s Hd Hs IH]; [reflexivity|].
    cbn [JsString.trimEnd]. rewrite IH. destruct s; [now rewrite Hd | reflexivity]. }
  apply Hend. now constructor.
Qed.

Lemma split_no_separator (sep : JsString.code_unit) (s : jsstring) :
  ~ In sep s -> JsString.split sep s = [s].
Proof.
  induction s as [|c s IH]; intros H; [reflexivity|].
  cbn [JsString.split].
  destruct (N.eqb_spec c sep) as [-> | Hne]; [exfalso; apply H; now left|].
  rewrite IH by (intros Hs; apply H; now right). reflexivity.
Qed.

(** X24. Every token that [tokenize] returns is its own tokenization: as a
    query it has exactly itself as token. *)
Theorem X24_tokens_tokenize_to_themselves (text : option jsstring) :
  Forall (fun token => tokenize (Some token) = [token]) (tokenize text).
Proof.
  pose proof (tokens_well_formed text) as Hwf.
  eapply Forall_impl; [|exact Hwf].
  intros token [Hlen [Hstop Hchars]].
  rewrite tokenize_of_normalizeText, (token_normalized token Hchars).
  rewrite split_no_separator.
  - cbn [filter]. destruct (Nat.ltb_spec 1 (List.length token)); [|lia].
    cbn [filter].
    destruct (Array_includes stopWords token) eqn:E; [|reflexivity].
    apply Array_includes_In in E. contradiction.
  - intros Hin. rewrite Forall_forall in Hchars. specialize (Hchars _ Hin).
    discriminate Hchars.
Qed.

(** X25. With the index built, a product is among the results of every query
    that has a token fuzzy-matching (in particular, equal to) one of the
    tokens of the product's title or description. *)
Theorem X25_product_found_by_its_tokens
        (this : FashionCatalogue) (query : option jsstring)
        (i : nat) (product : Product.t) (searchToken token : jsstring) :
  indexed this ->
  nth_error (allProducts this) i = Some product ->
  In searchToken (tokenize query) ->
  In token (tokenize (title_of product) ++ tokenize (description_of product)) ->
  fuzzyMatch searchToken token default_threshold = true ->
  exists sorted r,
    performAdvancedSearch this query = Some (List.map Ranked sorted)
    /\ In r sorted
    /\ SearchResult.product r = Some product
    /\ 0 < SearchResult.matchedTerms r.
Proof.
  intros Hindexed Hproduct HsearchToken Htoken Hfuzzy.
  assert (Htokens : tokenize query <> []) by (intros E; rewrite E in HsearchToken; destruct HsearchToken).
  destruct (search_ranked this query Hindexed Htokens) as [sorted [Hsearch [Hperm _]]].
  set (entry := indexEntry product i).
  assert (Hentry : nth_error (searchIndex this) i = Some entry).
  { rewrite Hindexed. cbn [buildSearchIndex searchIndex].
    rewrite nth_error_map_indexed, Hproduct. reflexivity. }
  assert (Hmatched : termMatched entry searchToken = true).
  { destruct (termContribution_sum entry searchToken) as [_ ->].
    apply in_app_or in Htoken.
    assert (Hex : forall tokens, In token tokens ->
                    existsb (fun t => fuzzyMatch searchToken t default_threshold) tokens = true)
      by (intros tokens Hin; apply existsb_exists; eauto).
    destruct Htoken as [Ht | Ht].
    - rewrite (Hex (IndexEntry.titleTokens entry) Ht).
      now rewrite orb_true_r.
    - rewrite (Hex (IndexEntry.descriptionTokens entry) Ht).
      now rewrite !orb_true_r. }
  assert (Hpos : 0 < Relevance.matchedTerms (relevanceOf entry (tokenize query))).
  { rewrite relevanceOf_matchedTerms.
    assert (Hin : In searchToken (filter (termMatched entry) (tokenize query)))
      by (apply filter_In; now split).
    destruct (filter (termMatched entry) (tokenize query)); [destruct Hin | simpl; lia]. }
  exists sorted, (rankedResult this entry (relevanceOf entry (tokenize query))).
  split; [exact Hsearch|]. split.
  - apply (Permutation_in _ Hperm). apply in_flat_map.
    exists entry. split; [eapply nth_error_In; eauto|].
    apply pushed_inv. now split.
  - cbn [rankedResult SearchResult.product SearchResult.matchedTerms].
    split; [exact Hproduct | exact Hpos].
Qed.

Lemma X25_witness :
  indexed boutique
  /\ nth_error (allProducts boutique) 2 = Some (product_of "Red dresses" "A shirt" (Some 2%Q))
  /\ In dress (tokenize (Some (JsString.lit "a dress")))
  /\ In (JsString.lit "dresses")
        (tokenize (title_of (product_of "Red dresses" "A shirt" (Some 2%Q)))
         ++ tokenize (description_of (product_of "Red dresses" "A shirt" (Some 2%Q))))
  /\ fuzzyMatch dress (JsString.lit "dresses") default_threshold = true
  /\ exists sorted r,
      performAdvancedSearch boutique (Some (JsString.lit "a dress"))
      = Some (List.map Ranked sorted)
      /\ In r sorted
      /\ SearchResult.product r = Some (product_of "Red dresses" "A shirt" (Some 2%Q))
      /\ 0 < SearchResult.matchedTerms r.
Proof.
  assert (H1 : indexed boutique) by reflexivity.
  assert (H2 : nth_error (allProducts boutique) 2
               = Some (product_of "Red dresses" "A shirt" (Some 2%Q))) by reflexivity.
  assert (H3 : In dress (tokenize (Some (JsString.lit "a dress")))) by (left; reflexivity).
  assert (H4 : In (JsString.lit "dresses")
                  (tokenize (title_of (product_of "Red dresses" "A shirt" (Some 2%Q)))
                   ++ tokenize (description_of (product_of "Red dresses" "A shirt" (Some 2%Q)))))
    by (right; left; reflexivity).
  assert (H5 : fuzzyMatch dress (JsString.lit "dresses") default_threshold = true)
    by (vm_compute; reflexivity).
  repeat (split; [assumption|]).
  exact (X25_product_found_by_its_tokens boutique (Some (JsString.lit "a dress")) 2
           (product_of "Red dresses" "A shirt" (Some 2%Q)) dress (JsString.lit "dresses")
           H1 H2 H3 H4 H5).
Defined.
